(** * gdrive_uploader: a shallow embedding of the upload orchestration core

    The development follows the package layout of the repository:

    - [Py]            : the fragment of Python's semantics the code relies on
                        (exceptions, truthiness, [str] of an optional value);
    - [Remote]        : the remote object store behind the [service] handle,
                        with fault injection and a chronological call trace;
    - [DriveApi]      : [core/drive_api.py];
    - [Ledger]        : the ledger half of [core/folder_uploader.py];
    - [FolderUploader]: [upload_folder] of [core/folder_uploader.py];
    - [UploadAll]     : [cli/upload_all.py].

    What the embedding keeps and what it leaves out:

    - every function is a state-passing computation over the remote state
      [st]; a raised exception is the result [Raise e], and the state
      reached when it was raised is kept, as in Python;
    - the remote service is a store of objects with a script of faults: a
      request is answered, refused, or carried out with its answer lost.
      Queries are kept in structured form, the query language itself is not
      modelled; identifiers are strings, so that Python's truthiness of an
      id and the string keys of the folder cache are what they are in the
      code;
    - [print] and [time.sleep] are events of the trace; the progress bar,
      the byte totals, the MIME type, authentication and the timeout signal
      are left out;
    - a local tree is what [os.walk] sees; a directory that is not descended
      into (a symbolic link to a directory, an unreadable directory) is a
      directory without entries; relative paths are lists of components;
    - the worker pool, [hashlib.md5], the rendering of a float and
      [os.path.abspath] are parameters. *)

From Stdlib Require Import ZArith List String Ascii Bool Lia Sorting.Sorted.
From stdpp Require Import base option list strings pretty gmap.

Local Open Scope string_scope.
Local Open Scope list_scope.
Set Warnings "-register-all".

(* ===================================================================== *)
(** ** Python fragment *)
(* ===================================================================== *)

Module Py.

(** The exceptions the code can meet.  All of them derive from Python's
    [Exception], so an [except Exception] handler catches every one of
    them; [except HttpError] catches the first constructor only. *)
Inductive exn : Type :=
| HttpError (status : Z)          (* googleapiclient.errors.HttpError, error.resp.status *)
| OSError                         (* os.path.getsize / getmtime on a missing path *)
| ValueError                      (* raised by generate_folder_hash, ThreadPoolExecutor(0) *)
| RuntimeError                    (* executor.submit: cannot start a new thread *)
| ParseError                      (* pandas: EmptyDataError, ParserError, KeyError on a column *)
| TransportError                  (* socket / ssl failure below the HTTP layer *)
| UploadFailed (max_retries : nat)(* Exception("Failed to upload file after N retries") *).

Inductive res (A : Type) : Type :=
| Ret (a : A)
| Raise (e : exn).
Arguments Ret {A} a.
Arguments Raise {A} e.

Definition is_ret {A} (r : res A) : bool :=
  match r with Ret _ => true | Raise _ => false end.

(** [if x:] on a value that is [None] or a string. *)
Definition truthy (o : option string) : bool :=
  match o with
  | None => false
  | Some s => negb (String.eqb s "")
  end.

(** [f"{x}"] on a value that is [None] or a string. *)
Definition py_str (o : option string) : string :=
  match o with
  | None => "None"
  | Some s => s
  end.

End Py.
Export Py.

(* ===================================================================== *)
(** ** The remote store *)
(* ===================================================================== *)

Module Remote.

(** One object of the remote store. [rf_parent = None] is an object
    created without a [parents] entry (it lands in the account root). *)
Record remote_file : Type := mk_remote_file {
  rf_id : string;
  rf_name : string;
  rf_parent : option string;
  rf_folder : bool;
  rf_trashed : bool
}.

(** The [q=] argument of [files().list]. The code builds three shapes of
    query string; they are kept in structured form:
    [name='N' (and mimeType=folder)? (and 'P' in parents)? and trashed=false]. *)
Record query : Type := mk_query {
  q_name : string;
  q_folder : bool;
  q_parent : option string
}.

(** The [body=] (and [media_body=]) of [files().create]. [md_chunk] is the
    chunk size of the resumable media upload, absent for a folder. *)
Record metadata : Type := mk_metadata {
  md_name : string;
  md_folder : bool;
  md_parent : option string;
  md_chunk : option Z
}.

(** What happens to the next request: it is answered, it is refused before
    the store acts on it, or the store acts on it and the answer is lost. *)
Inductive fault : Type :=
| Answer
| FailBefore (e : exn)
| FailAfter (e : exn).

(** Messages printed by [drive_api.py] and [folder_uploader.py]. *)
Inductive msg : Type :=
| MsgFileExists (name id : string)
| MsgApiRetry (status wait : Z)
| MsgCreatedDespiteError (id : string)
| MsgErrCreatingFolder (name : string) (e : exn)
| MsgFailedCreateFolder (name : string) (e : exn)
| MsgCreatingFolders (n : nat)
| MsgWarnParentMissing (parent_path : list string)
| MsgWarnFolderFailed (name : string)
| MsgErrGroup (parent_path : list string) (e : exn)
| MsgErrFolder (name : string) (e : exn)
| MsgUploadingFiles (n : nat)
| MsgUploaded (rel_path : list string)
| MsgErrUploading (rel_path : list string) (err : option exn)
| MsgRetrying (rel_path : list string)
| MsgRetryOk (rel_path : list string)
| MsgRetryFailed (rel_path : list string) (e : exn)
| MsgErrBatch (e : exn)
| MsgFallback
| MsgErrParentNotFound (rel_path : list string).

Inductive event : Type :=
| EvList (q : query) (r : res (list string))
| EvCreate (md : metadata) (r : res string)
| EvSleep (secs : Z)
| EvPrint (m : msg).

(** The state threaded through [drive_api]: the store, the supply of
    fresh ids, the faults still to come, everything done so far, and the
    module-level [folder_cache] dictionary. *)
Record st : Type := mk_st {
  files : list remote_file;
  next_id : nat;
  faults : list fault;
  trace : list event;
  folder_cache : gmap string string
}.

Definition M (A : Type) : Type := st -> res A * st.

Definition ret {A} (a : A) : M A := fun s => (Ret a, s).
Definition raise {A} (e : exn) : M A := fun s => (Raise e, s).
Definition bind {A B} (c : M A) (k : A -> M B) : M B :=
  fun s => match c s with
           | (Ret a, s1) => k a s1
           | (Raise e, s1) => (Raise e, s1)
           end.
(** [try: c  except Exception as e: h e] *)
Definition try_except {A} (c : M A) (h : exn -> M A) : M A :=
  fun s => match c s with
           | (Ret a, s1) => (Ret a, s1)
           | (Raise e, s1) => h e s1
           end.

Definition emit (e : event) : M unit :=
  fun s => (Ret tt, mk_st (files s) (next_id s) (faults s) (trace s ++ [e]) (folder_cache s)).
Definition print (m : msg) : M unit := emit (EvPrint m).
Definition sleep (secs : Z) : M unit := emit (EvSleep secs).

Definition cache_get (k : string) : M (option string) :=
  fun s => (Ret (folder_cache s !! k), s).
Definition cache_put (k v : string) : M unit :=
  fun s => (Ret tt, mk_st (files s) (next_id s) (faults s) (trace s) (<[k := v]> (folder_cache s))).

Definition next_fault (s : st) : fault * st :=
  match faults s with
  | [] => (Answer, s)
  | f :: fs => (f, mk_st (files s) (next_id s) fs (trace s) (folder_cache s))
  end.

Definition opt_eqb (a b : option string) : bool :=
  match a, b with
  | Some x, Some y => String.eqb x y
  | None, None => true
  | _, _ => false
  end.

Definition matches (q : query) (f : remote_file) : bool :=
  String.eqb (rf_name f) (q_name q)
  && (if q_folder q then rf_folder f else true)
  && (match q_parent q with
      | None => true
      | Some p => opt_eqb (rf_parent f) (Some p)
      end)
  && negb (rf_trashed f).

Definition fresh_id (n : nat) : string := "id" +:+ pretty n.

Definition store (md : metadata) (s : st) : string * st :=
  let id := fresh_id (next_id s) in
  (id, mk_st (files s ++ [mk_remote_file id (md_name md) (md_parent md) (md_folder md) false])
             (S (next_id s)) (faults s) (trace s) (folder_cache s)).

(** [service.files().list(q=..., fields='files(id, name)').execute()] *)
Definition files_list (q : query) : M (list remote_file) :=
  fun s =>
    let (f, s1) := next_fault s in
    match f with
    | Answer =>
        let items := List.filter (matches q) (files s1) in
        bind (emit (EvList q (Ret (map rf_id items)))) (fun _ => ret items) s1
    | FailBefore e | FailAfter e =>
        bind (emit (EvList q (Raise e))) (fun _ => raise e) s1
    end.

(** [service.files().create(body=..., fields='id').execute()] *)
Definition files_create (md : metadata) : M string :=
  fun s =>
    let (f, s1) := next_fault s in
    match f with
    | Answer =>
        let (id, s2) := store md s1 in
        bind (emit (EvCreate md (Ret id))) (fun _ => ret id) s2
    | FailBefore e =>
        bind (emit (EvCreate md (Raise e))) (fun _ => raise e) s1
    | FailAfter e =>
        let (_, s2) := store md s1 in
        bind (emit (EvCreate md (Raise e))) (fun _ => raise e) s2
    end.

End Remote.
Export Remote.

Notation "'let!' x ':=' c 'in' k" := (bind c (fun x => k))
  (at level 10, x pattern, c at level 100, k at level 200).
Notation "c ';;' k" := (bind c (fun _ => k))
  (at level 100, k at level 200, right associativity).

(* ===================================================================== *)
(** ** core/drive_api.py *)
(* ===================================================================== *)

Module DriveApi.

(** [cache_key = f"{folder_name}_{parent_id}"] *)
Definition cache_key (folder_name : string) (parent_id : option string) : string :=
  folder_name +:+ "_" +:+ py_str parent_id.

Definition opt_if_truthy (parent_id : option string) : option string :=
  if truthy parent_id then parent_id else None.

Definition find_or_create_folder (folder_name : string) (parent_id : option string) : M string :=
  let key := cache_key folder_name parent_id in
  let! cached := cache_get key in
  match cached with
  | Some id => ret id
  | None =>
      let! items := files_list (mk_query folder_name true (opt_if_truthy parent_id)) in
      match items with
      | f :: _ =>
          cache_put key (rf_id f) ;;
          ret (rf_id f)
      | [] =>
          let! folder_id := files_create (mk_metadata folder_name true (opt_if_truthy parent_id) None) in
          cache_put key folder_id ;;
          ret folder_id
      end
  end.

Definition check_file_exists (file_name : string) (parent_id : option string) : M (option string) :=
  let! items := files_list (mk_query file_name false (Some (py_str parent_id))) in
  ret (match items with
       | f :: _ => Some (rf_id f)
       | [] => None
       end).

(** What [upload_file] reads from the local file system:
    [os.path.basename(file_path)] and [os.path.getsize(file_path)]
    ([None] when the path cannot be stat'ed). *)
Record local_file : Type := mk_local_file {
  lf_name : string;
  lf_size : option Z
}.

Definition chunk_size (file_size : Z) : Z :=
  if (100 * 1024 * 1024 <? file_size)%Z then 10 * 1024 * 1024
  else if (10 * 1024 * 1024 <? file_size)%Z then 5 * 1024 * 1024
  else if (file_size <? 1 * 1024 * 1024)%Z then 256 * 1024
  else 1 * 1024 * 1024.

Definition max_retries : nat := 5.

Definition is_transient (status : Z) : bool :=
  existsb (Z.eqb status) [429; 500; 502; 503; 504]%Z.

Definition wait_time (retry_count : nat) : Z :=
  Z.min (2 ^ Z.of_nat retry_count) 60.

(** The [while response is None and retry_count < max_retries] loop.
    [remaining] is [max_retries - retry_count]: the loop condition holds
    exactly when it is not zero, and leaving the loop with no response
    raises. *)
Fixpoint upload_attempts (md : metadata) (file_name : string) (parent_id : option string)
    (remaining retry_count : nat) : M string :=
  match remaining with
  | O => raise (UploadFailed max_retries)
  | S k =>
      try_except (files_create md)
        (fun error =>
           match error with
           | HttpError status =>
               if is_transient status then
                 let retry_count := S retry_count in
                 print (MsgApiRetry status (wait_time retry_count)) ;;
                 sleep (wait_time retry_count) ;;
                 let! check_id := check_file_exists file_name parent_id in
                 if truthy check_id then
                   print (MsgCreatedDespiteError (py_str check_id)) ;;
                   ret (py_str check_id)
                 else upload_attempts md file_name parent_id k retry_count
               else raise error
           | _ => raise error
           end)
  end.

Definition upload_file (file : local_file) (parent_id : option string) : M string :=
  let file_name := lf_name file in
  match lf_size file with
  | None => raise OSError
  | Some file_size =>
      let! existing_file_id := check_file_exists file_name parent_id in
      if truthy existing_file_id then
        print (MsgFileExists file_name (py_str existing_file_id)) ;;
        ret (py_str existing_file_id)
      else
        let md := mk_metadata file_name false (opt_if_truthy parent_id)
                              (Some (chunk_size file_size)) in
        upload_attempts md file_name parent_id max_retries 0
  end.

(** [for x in l: acc = body x acc], stopping at the first exception. *)
Fixpoint for_each {A B} (l : list A) (body : A -> B -> M B) (acc : B) : M B :=
  match l with
  | [] => ret acc
  | x :: xs => let! acc' := body x acc in for_each xs body acc'
  end.

(** [[l[i:i+size] for i in range(0, len(l), size)]] *)
Fixpoint batches_aux {A} (fuel size : nat) (l : list A) : list (list A) :=
  match fuel with
  | O => []
  | S fuel' =>
      match l with
      | [] => []
      | _ :: _ => take size l :: batches_aux fuel' size (drop size l)
      end
  end.
Definition batches {A} (size : nat) (l : list A) : list (list A) :=
  batches_aux (length l) size l.

Definition folder_metadata (folder_name : string) (parent_id : option string) : metadata :=
  mk_metadata folder_name true (opt_if_truthy parent_id) None.

Definition batch_create_folders (folders : list string) (parent_id : option string)
  : M (gmap string string) :=
  if (length folders <=? 5)%nat then
    for_each folders
      (fun folder_name created_folders =>
         let! folder_id := find_or_create_folder folder_name parent_id in
         ret (<[folder_name := folder_id]> created_folders))
      ∅
  else
    for_each (batches 50 folders)
      (fun batch_folders created_folders =>
         for_each batch_folders
           (fun folder_name created_folders =>
              try_except
                (let! folder_id := files_create (folder_metadata folder_name parent_id) in
                 ret (<[folder_name := folder_id]> created_folders))
                (fun e =>
                   print (MsgErrCreatingFolder folder_name e) ;;
                   try_except
                     (let! folder_id := find_or_create_folder folder_name parent_id in
                      ret (<[folder_name := folder_id]> created_folders))
                     (fun e2 =>
                        print (MsgFailedCreateFolder folder_name e2) ;;
                        ret created_folders)))
           created_folders)
      ∅.

(** A relative path is kept as the list of its components: the code joins
    them with [os.sep], and no component holds [os.sep]. The sentinel
    ['.'] of the scan root is the empty list. *)
Definition path : Type := list string.

(** [os.path.dirname(rel_path) or '.'] *)
Definition dirname (p : path) : path := removelast p.
(** [os.path.basename(p)] *)
Definition basename (p : path) : string := List.last p "".

(** An entry of [file_items]. [fi_stat] is what [os.path.getsize] answers
    for [item['path']] when the upload runs. *)
Record file_item : Type := mk_file_item {
  fi_rel_path : path;
  fi_size : Z;
  fi_stat : option Z
}.

Definition local_of (item : file_item) : local_file :=
  mk_local_file (basename (fi_rel_path item)) (fi_stat item).

Inductive upload_error : Type :=
| ParentIdNotFound (parent_path : path)
| UploadException (e : exn).

(** The dictionaries returned by [upload_file_worker]. *)
Inductive upload_result : Type :=
| UploadOk (id : string) (item : file_item)
| UploadErr (error : upload_error) (item : file_item).

Definition result_item (r : upload_result) : file_item :=
  match r with UploadOk _ i | UploadErr _ i => i end.

Definition upload_file_worker (parent_folder_ids : gmap path string) (item : file_item)
  : M upload_result :=
  try_except
    (let parent_path := dirname (fi_rel_path item) in
     let parent_id := parent_folder_ids !! parent_path in
     if negb (truthy parent_id) then ret (UploadErr (ParentIdNotFound parent_path) item)
     else
       let! file_id := upload_file (local_of item) parent_id in
       ret (UploadOk file_id item))
    (fun e => ret (UploadErr (UploadException e) item)).

(** [d[k] = v] on an insertion-ordered dictionary. *)
Fixpoint dict_set {K V} `{EqDecision K} (k : K) (v : V) (d : list (K * V)) : list (K * V) :=
  match d with
  | [] => [(k, v)]
  | (k', v') :: d' => if decide (k' = k) then (k, v) :: d' else (k', v') :: dict_set k v d'
  end.

Section Pool.

(** The worker pool: [ThreadPoolExecutor(max_workers)], one [submit] per
    item and [as_completed]. It answers the workers' results in
    completion order, or raises. *)
Variable executor : Z -> (file_item -> M upload_result) -> list file_item -> M (list upload_result).

Definition parallel_upload_files (file_items : list file_item)
    (parent_folder_ids : gmap path string) (max_workers : Z)
  : M (list (path * upload_result)) :=
  let! completed := executor max_workers (upload_file_worker parent_folder_ids) file_items in
  ret (fold_left (fun results r => dict_set (fi_rel_path (result_item r)) r results)
                 completed []).

End Pool.

(** One schedule of the pool: the constructor refuses [max_workers <= 0],
    otherwise the workers run one after the other in submission order. *)
Definition sequential_executor (max_workers : Z) (worker : file_item -> M upload_result)
    (items : list file_item) : M (list upload_result) :=
  if (max_workers <=? 0)%Z then raise ValueError
  else for_each items (fun item done => let! r := worker item in ret (done ++ [r])) [].

End DriveApi.

(* ===================================================================== *)
(** ** The local file system *)
(* ===================================================================== *)

Module LocalFs.

(** A directory tree as [os.walk] sees it. The size of a file is what
    [os.path.getsize] answers; [None] is an entry that cannot be stat'ed
    (a symbolic link whose target is gone). *)
Inductive node : Type :=
| File (name : string) (size : option Z)
| Dir (name : string) (children : list node).

Definition node_name (n : node) : string :=
  match n with File name _ | Dir name _ => name end.

Definition is_dir (n : node) : bool :=
  match n with Dir _ _ => true | File _ _ => false end.

(** [os.walk(top)], top-down: one triple per directory, the directory's own
    triple first, then the walks of its sub-directories in listing order.
    A triple is kept as the directory's path relative to [top] and its
    entries ([dirs] and [files] are the two halves of the entries). *)
Fixpoint walk_node (parent : list string) (n : node) : list (list string * list node) :=
  match n with
  | File _ _ => []
  | Dir name children =>
      (parent ++ [name], children) :: flat_map (walk_node (parent ++ [name])) children
  end.

Definition os_walk (top : list node) : list (list string * list node) :=
  ([], top) :: flat_map (walk_node []) top.

(** What the ledger and the command-line layer ask the file system.
    [float] is the type of [os.path.getmtime]'s answers. *)
Record local_fs (float : Type) : Type := mk_local_fs {
  fs_exists : string -> bool;
  fs_isdir : string -> bool;
  fs_getmtime : string -> float;
  fs_listdir : string -> list string;
  fs_tree : string -> list node
}.
Arguments fs_exists {float} _ _.
Arguments fs_isdir {float} _ _.
Arguments fs_getmtime {float} _ _.
Arguments fs_listdir {float} _ _.
Arguments fs_tree {float} _ _.

(** [os.path.basename] on a path string: what follows the last [/]. *)
Fixpoint str_basename_aux (s acc : string) : string :=
  match s with
  | EmptyString => acc
  | String c rest =>
      if Ascii.eqb c "/" then str_basename_aux rest ""
      else str_basename_aux rest (acc +:+ String c "")
  end.
Definition str_basename (s : string) : string := str_basename_aux s "".

Fixpoint ends_with_slash (s : string) : bool :=
  match s with
  | EmptyString => false
  | String c EmptyString => Ascii.eqb c "/"
  | String _ rest => ends_with_slash rest
  end.

(** [os.path.join(a, b)] for a relative [b]. *)
Definition path_join (a b : string) : string :=
  if String.eqb a "" then b
  else if ends_with_slash a then a +:+ b
  else a +:+ "/" +:+ b.

End LocalFs.
Export LocalFs.

(* ===================================================================== *)
(** ** core/folder_uploader.py: the ledger *)
(* ===================================================================== *)

Module Ledger.

(** A row of [uploaded_folders.csv]. *)
Record row : Type := mk_row {
  folder_path : string;
  folder_name : string;
  folder_hash : string;
  drive_folder_id : string;
  upload_time : string
}.

(** The file at [UPLOADS_CSV]: absent, present but such that
    [pd.read_csv] or the access to its [folder_hash] column raises, or a
    table. The table is kept as the rows [pd.read_csv] hands back, every
    column a string. *)
Inductive csv : Type :=
| Missing
| Unreadable
| Table (rows : list row).

(** [os.path.exists(UPLOADS_CSV)] *)
Definition csv_exists (c : csv) : bool :=
  match c with Missing => false | _ => true end.

(** [pd.read_csv(UPLOADS_CSV)] followed by [df['folder_hash']] *)
Definition read_csv (c : csv) : res (list row) :=
  match c with
  | Missing => Raise OSError
  | Unreadable => Raise ParseError
  | Table rows => Ret rows
  end.

Inductive ledger_msg : Type :=
| MsgErrChecking (e : exn)
| MsgErrRecording (e : exn).

(** [h in df['folder_hash'].values] *)
Definition hash_in (h : string) (df : list row) : bool :=
  existsb (fun r => String.eqb (folder_hash r) h) df.

(** [df.loc[df['folder_hash'] == h, 'drive_folder_id'] = id] and the same
    for ['upload_time']. *)
Definition update_rows (h id time : string) (df : list row) : list row :=
  map (fun r =>
         if String.eqb (folder_hash r) h
         then mk_row (folder_path r) (folder_name r) (folder_hash r) id time
         else r) df.

Section Fingerprint.

(** The library functions the fingerprint is made of: the type of
    modification times and their [f"{...}"] rendering, [hashlib.md5(...)
    .hexdigest()], and [os.path.abspath] for the working directory of the
    process. *)
Variable float : Type.
Variable str_float : float -> string.
Variable md5_hexdigest : string -> string.
Variable abspath : string -> string.

Definition hash_input (folder_path : string) (folder_mtime : float) : string :=
  folder_path +:+ "_" +:+ str_float folder_mtime.

Definition generate_folder_hash (fs : local_fs float) (folder_path : string) : res string :=
  let folder_path := abspath folder_path in
  if negb (fs_exists fs folder_path) then Raise ValueError
  else
    let folder_mtime := fs_getmtime fs folder_path in
    Ret (md5_hexdigest (hash_input folder_path folder_mtime)).

(** The body of the [try] of [is_folder_uploaded]. *)
Definition is_folder_uploaded_try (fs : local_fs float) (c : csv) (folder_path : string) : res bool :=
  match generate_folder_hash fs folder_path with
  | Raise e => Raise e
  | Ret h =>
      match read_csv c with
      | Raise e => Raise e
      | Ret df => Ret (hash_in h df)
      end
  end.

Definition is_folder_uploaded (fs : local_fs float) (c : csv) (folder_path : string)
  : res bool * list ledger_msg :=
  if negb (csv_exists c) then (Ret false, [])
  else
    match is_folder_uploaded_try fs c folder_path with
    | Ret b => (Ret b, [])
    | Raise e => (Ret false, [MsgErrChecking e])
    end.

(** The body of the [try] of [record_folder_upload]: the value returned and
    the file left behind. [now] is
    [datetime.datetime.now().strftime("%Y-%m-%d %H:%M:%S")]. *)
Definition record_folder_upload_try (fs : local_fs float) (c : csv) (now : string)
    (folder_path drive_folder_id : string) : res (bool * csv) :=
  let folder_path := abspath folder_path in
  let folder_name := str_basename folder_path in
  match generate_folder_hash fs folder_path with
  | Raise e => Raise e
  | Ret h =>
      let new_row := mk_row folder_path folder_name h drive_folder_id now in
      if negb (csv_exists c) then Ret (true, Table [new_row])
      else
        match read_csv c with
        | Raise e => Raise e
        | Ret df =>
            let df :=
              if hash_in h df then update_rows h drive_folder_id now df
              else df ++ [new_row] in
            Ret (true, Table df)
        end
  end.

Definition record_folder_upload (fs : local_fs float) (c : csv) (now : string)
    (folder_path drive_folder_id : string) : res bool * csv * list ledger_msg :=
  match record_folder_upload_try fs c now folder_path drive_folder_id with
  | Ret (b, c') => (Ret b, c', [])
  | Raise e => (Ret false, c, [MsgErrRecording e])
  end.

End Fingerprint.

End Ledger.

(* ===================================================================== *)
(** ** core/folder_uploader.py: upload_folder *)
(* ===================================================================== *)

Module FolderUploader.
Import DriveApi.

(** An entry of [folder_items]; [fo_name] is
    [os.path.basename(item['path'])]. *)
Record folder_item : Type := mk_folder_item {
  fo_rel_path : path;
  fo_name : string;
  fo_parent_path : path
}.

(** The [for file in files] loop for one triple of the walk:
    [os.path.getsize] raises on an entry that cannot be stat'ed. *)
Fixpoint collect_files (root : path) (entries : list node) : res (list file_item) :=
  match entries with
  | [] => Ret []
  | Dir _ _ :: rest => collect_files root rest
  | File name None :: _ => Raise OSError
  | File name (Some size) :: rest =>
      match collect_files root rest with
      | Ret items => Ret (mk_file_item (root ++ [name]) size (Some size) :: items)
      | Raise e => Raise e
      end
  end.

(** The [for dir in dirs] loop for one triple of the walk. *)
Fixpoint collect_dirs (root : path) (entries : list node) : list folder_item :=
  match entries with
  | [] => []
  | File _ _ :: rest => collect_dirs root rest
  | Dir name _ :: rest =>
      mk_folder_item (root ++ [name]) name (dirname (root ++ [name])) :: collect_dirs root rest
  end.

(** The [for root, dirs, files in os.walk(folder_path)] loop. *)
Fixpoint collect (triples : list (path * list node)) : res (list file_item * list folder_item) :=
  match triples with
  | [] => Ret ([], [])
  | (root, entries) :: rest =>
      match collect_files root entries with
      | Raise e => Raise e
      | Ret fs =>
          match collect rest with
          | Raise e => Raise e
          | Ret (file_items, folder_items) =>
              Ret (fs ++ file_items, collect_dirs root entries ++ folder_items)
          end
      end
  end.

(** [list.sort(key=...)]: a stable sort; [le x y] is [key(x) <= key(y)]. *)
Fixpoint insert_by {A} (le : A -> A -> bool) (x : A) (l : list A) : list A :=
  match l with
  | [] => [x]
  | y :: l' => if le x y then x :: l else y :: insert_by le x l'
  end.
Definition sort_by {A} (le : A -> A -> bool) (l : list A) : list A :=
  fold_right (insert_by le) [] l.

(** [x['rel_path'].count(os.sep)] *)
Definition depth (item : folder_item) : nat := length (fo_rel_path item) - 1.

Definition depth_le (x y : folder_item) : bool := (depth x <=? depth y)%nat.

(** [folder_groups[parent_path].append(item)], creating the group at the
    end of the dictionary when the key is new. *)
Fixpoint group_add (item : folder_item) (groups : list (path * list folder_item))
  : list (path * list folder_item) :=
  match groups with
  | [] => [(fo_parent_path item, [item])]
  | (k, g) :: rest =>
      if decide (k = fo_parent_path item) then (k, g ++ [item]) :: rest
      else (k, g) :: group_add item rest
  end.

Definition folder_groups (folder_items : list folder_item) : list (path * list folder_item) :=
  fold_left (fun groups item => group_add item groups) folder_items [].

(** The parent id a group is created under: [folder_ids.get(parent_path)],
    or the root folder's id when that is missing. *)
Definition resolve_parent (folder_id : string) (parent_path : path)
    (folder_ids : gmap path string) : M (option string) :=
  let parent_id := folder_ids !! parent_path in
  if negb (truthy parent_id) then
    print (MsgWarnParentMissing parent_path) ;;
    ret (Some folder_id)
  else ret parent_id.

(** The rest of one turn, once the parent id is resolved: the batch
    creation and, should it raise, the creation one by one. *)
Definition create_under (parent_path : path) (items : list folder_item)
    (parent_id : option string) (folder_ids : gmap path string) : M (gmap path string) :=
  try_except
    (let folder_names := map fo_name items in
     let! created_folders := batch_create_folders folder_names parent_id in
     for_each items
       (fun item folder_ids =>
          match created_folders !! fo_name item with
          | Some id => ret (<[fo_rel_path item := id]> folder_ids)
          | None => print (MsgWarnFolderFailed (fo_name item)) ;; ret folder_ids
          end)
       folder_ids)
    (fun e =>
       print (MsgErrGroup parent_path e) ;;
       for_each items
         (fun item folder_ids =>
            try_except
              (let! new_id := find_or_create_folder (fo_name item) parent_id in
               ret (<[fo_rel_path item := new_id]> folder_ids))
              (fun e2 => print (MsgErrFolder (fo_name item) e2) ;; ret folder_ids))
         folder_ids).

(** One turn of [for parent_path, items in folder_groups.items()]. *)
Definition create_group (folder_id : string) (group : path * list folder_item)
    (folder_ids : gmap path string) : M (gmap path string) :=
  let! parent_id := resolve_parent folder_id (fst group) folder_ids in
  create_under (fst group) (snd group) parent_id folder_ids.

Definition create_folders (folder_id : string) (groups : list (path * list folder_item))
    (folder_ids : gmap path string) : M (gmap path string) :=
  for_each groups (create_group folder_id) folder_ids.

(** The synchronous retry of a file the pool reported as failed. *)
Definition retry_failed (folder_ids : gmap path string) (rel_path : path) (item : file_item)
  : M unit :=
  try_except
    (let parent_path := dirname (fi_rel_path item) in
     let parent_folder_id := folder_ids !! parent_path in
     if truthy parent_folder_id then
       print (MsgRetrying rel_path) ;;
       let! file_id := upload_file (local_of item) parent_folder_id in
       print (MsgRetryOk rel_path)
     else ret tt)
    (fun e => print (MsgRetryFailed rel_path e)).

(** The body of the [for item in batch_files] loop of the [except] branch. *)
Definition fallback_item (folder_ids : gmap path string) (item : file_item) : M unit :=
  try_except
    (let parent_path := dirname (fi_rel_path item) in
     let parent_folder_id := folder_ids !! parent_path in
     if truthy parent_folder_id then
       let! file_id := upload_file (local_of item) parent_folder_id in
       print (MsgUploaded (fi_rel_path item))
     else print (MsgErrParentNotFound (fi_rel_path item)))
    (fun e => print (MsgErrUploading (fi_rel_path item) (Some e))).

Definition sequential_fallback (folder_ids : gmap path string) (batch_files : list file_item)
  : M unit :=
  for_each batch_files (fun item _ => fallback_item folder_ids item) tt.

Section Pool.

Variable executor : Z -> (file_item -> M upload_result) -> list file_item -> M (list upload_result).

(** One turn of [for i in range(0, len(file_items), batch_size)]. The loop
    state is the local variable [results], which only the [try] branch
    assigns. *)
Definition upload_batch (folder_ids : gmap path string) (max_workers : Z)
    (batch_files : list file_item) (results : list (path * upload_result))
  : M (list (path * upload_result)) :=
  try_except
    (let! results := parallel_upload_files executor batch_files folder_ids max_workers in
     for_each results
       (fun entry _ =>
          let (rel_path, result) := entry : path * upload_result in
          match result with
          | UploadOk _ _ => print (MsgUploaded rel_path)
          | UploadErr _ item =>
              print (MsgErrUploading rel_path None) ;;
              retry_failed folder_ids rel_path item
          end)
       tt ;;
     ret results)
    (fun e =>
       print (MsgErrBatch e) ;;
       print MsgFallback ;;
       sequential_fallback folder_ids batch_files ;;
       ret results).

Definition batch_size : nat := 100.

Definition upload_files (folder_ids : gmap path string) (max_workers : Z)
    (file_items : list file_item) : M (list (path * upload_result)) :=
  for_each (batches batch_size file_items) (upload_batch folder_ids max_workers) [].

(** [upload_folder(service, folder_path, parent_id, None, max_workers)]:
    [folder_name] is [os.path.basename(folder_path)] and [tree] what
    [os.walk(folder_path)] finds under it. *)
Definition upload_folder (folder_name : string) (tree : list node)
    (parent_id : option string) (max_workers : Z) : M string :=
  let! folder_id := find_or_create_folder folder_name parent_id in
  match collect (os_walk tree) with
  | Raise e => raise e
  | Ret (file_items, folder_items) =>
      let folder_items := sort_by depth_le folder_items in
      let folder_groups := folder_groups folder_items in
      let folder_ids : gmap path string := {[ [] := folder_id ]} in
      print (MsgCreatingFolders (length folder_items)) ;;
      let! folder_ids := create_folders folder_id folder_groups folder_ids in
      print (MsgUploadingFiles (length file_items)) ;;
      let! _ := upload_files folder_ids max_workers file_items in
      ret folder_id
  end.

End Pool.

End FolderUploader.

(* ===================================================================== *)
(** ** cli/upload_all.py *)
(* ===================================================================== *)

Module UploadAll.
Import DriveApi Ledger FolderUploader.

(** An entry of the list [get_folders_to_upload] returns. *)
Record pending : Type := mk_pending {
  pe_path : string;
  pe_name : string;
  pe_size : Z
}.

(** [get_folder_size]: entries that do not exist are skipped. *)
Definition files_size (entries : list node) : Z :=
  fold_left (fun total n =>
               match n with
               | File _ (Some size) => (total + size)%Z
               | _ => total
               end) entries 0%Z.
Definition get_folder_size (tree : list node) : Z :=
  fold_left (fun total triple => (total + files_size (snd triple))%Z) (os_walk tree) 0%Z.

Section Run.

Variable float : Type.
Variable str_float : float -> string.
Variable md5_hexdigest : string -> string.
Variable abspath : string -> string.
Variable executor : Z -> (file_item -> M upload_result) -> list file_item -> M (list upload_result).

Definition get_folders_to_upload (fs : local_fs float) (c : csv) (to_upload_dir : string)
    (force : bool) : list pending :=
  flat_map
    (fun item =>
       let item_path := path_join to_upload_dir item in
       if fs_isdir fs item_path then
         if force
            || negb (match fst (is_folder_uploaded float str_float md5_hexdigest abspath fs c item_path) with
                     | Ret b => b
                     | Raise _ => false
                     end)
         then [mk_pending item_path item (get_folder_size (fs_tree fs item_path))]
         else []
       else [])
    (fs_listdir fs to_upload_dir).

Definition size_le (x y : pending) : bool := (pe_size x <=? pe_size y)%Z.

Inductive exit : Type :=
| Returned
| Exit1 (e : exn).

(** The [for i, folder in enumerate(folders)] loop inside the [try] of
    [upload_all_folders], with no timeout armed. [clock] gives the time at
    which a folder's upload is recorded. The move of the folder to the
    [uploaded] directory changes nothing the loop reads again. *)
Fixpoint upload_each (fs : local_fs float) (clock : string -> string)
    (parent_id : option string) (workers : Z) (folders : list pending) (c : csv) (s : st)
  : exit * csv * st :=
  match folders with
  | [] => (Returned, c, s)
  | folder :: rest =>
      match upload_folder executor (str_basename (pe_path folder))
                          (fs_tree fs (pe_path folder)) parent_id workers s with
      | (Raise e, s1) => (Exit1 e, c, s1)
      | (Ret folder_id, s1) =>
          let c1 := snd (fst (record_folder_upload float str_float md5_hexdigest abspath
                                 fs c (clock (pe_path folder)) (pe_path folder) folder_id)) in
          upload_each fs clock parent_id workers rest c1 s1
      end
  end.

Definition upload_all_folders (fs : local_fs float) (clock : string -> string)
    (to_upload_dir : string) (parent_id : option string) (force : bool) (workers : Z)
    (c : csv) (s : st) : exit * csv * st :=
  let folders := get_folders_to_upload fs c to_upload_dir force in
  match folders with
  | [] => (Returned, c, s)
  | _ :: _ =>
      let folders := sort_by size_le folders in
      upload_each fs clock parent_id workers folders c s
  end.

End Run.

End UploadAll.

(* ===================================================================== *)
(** ** Specification-level notions *)
(* ===================================================================== *)

Module Spec.
Import DriveApi.

(** The answer of the next request of each kind, and the state it leaves. *)
Definition list_result (q : query) (s : st) : res (list remote_file) :=
  match hd Answer (faults s) with
  | Answer => Ret (List.filter (matches q) (files s))
  | FailBefore e | FailAfter e => Raise e
  end.

Definition ids_of (r : res (list remote_file)) : res (list string) :=
  match r with
  | Ret items => Ret (map rf_id items)
  | Raise e => Raise e
  end.

Definition after_list (q : query) (s : st) : st :=
  mk_st (files s) (next_id s) (tl (faults s))
        (trace s ++ [EvList q (ids_of (list_result q s))]) (folder_cache s).

Definition create_result (s : st) : res string :=
  match hd Answer (faults s) with
  | Answer => Ret (fresh_id (next_id s))
  | FailBefore e | FailAfter e => Raise e
  end.

Definition new_file (md : metadata) (s : st) : remote_file :=
  mk_remote_file (fresh_id (next_id s)) (md_name md) (md_parent md) (md_folder md) false.

Definition after_create (md : metadata) (s : st) : st :=
  match hd Answer (faults s) with
  | FailBefore e =>
      mk_st (files s) (next_id s) (tl (faults s))
            (trace s ++ [EvCreate md (Raise e)]) (folder_cache s)
  | _ =>
      mk_st (files s ++ [new_file md s]) (S (next_id s)) (tl (faults s))
            (trace s ++ [EvCreate md (create_result s)]) (folder_cache s)
  end.

(** The state after some events that touch neither store nor cache. *)
Definition with_events (evs : list event) (s : st) : st :=
  mk_st (files s) (next_id s) (faults s) (trace s ++ evs) (folder_cache s).

(** [folder_cache[k] = v] *)
Definition with_cache (k v : string) (s : st) : st :=
  mk_st (files s) (next_id s) (faults s) (trace s) (<[k := v]> (folder_cache s)).

(** The lookup of [find_or_create_folder] and the folder it creates. *)
Definition folder_query (folder_name : string) (parent_id : option string) : query :=
  mk_query folder_name true (opt_if_truthy parent_id).

(** The existence probe of [upload_file] and the request it guards. *)
Definition probe (file_name : string) (parent_id : option string) : query :=
  mk_query file_name false (Some (py_str parent_id)).

(** The request [upload_file] builds for a file of [file_size] bytes. *)
Definition upload_request (file_name : string) (parent_id : option string) (file_size : Z)
  : metadata :=
  mk_metadata file_name false (opt_if_truthy parent_id) (Some (chunk_size file_size)).

Definition transient (e : exn) : Prop :=
  exists status, e = HttpError status /\ is_transient status = true.

(** The retry-then-probe machine of one upload, as the events it leaves and
    the way it ends: with [remaining] attempts left after [retry_count]
    transient failures,
    - no attempt left: the operation fails;
    - the request succeeds: done;
    - the request fails with an error that is not transient: done, with that
      error;
    - the request fails with a transient error: back off, probe; a probe
      that fails ends the operation with the probe's error, a probe that
      finds the file ends it with the file's id, and otherwise the machine
      goes on with one attempt less. *)
Inductive retry_machine (md : metadata) (q : query)
  : nat -> nat -> list event -> res string -> Prop :=
| rm_exhausted retry_count :
    retry_machine md q 0 retry_count [] (Raise (UploadFailed max_retries))
| rm_success remaining retry_count id :
    retry_machine md q (S remaining) retry_count [EvCreate md (Ret id)] (Ret id)
| rm_fatal remaining retry_count e :
    ~ transient e ->
    retry_machine md q (S remaining) retry_count [EvCreate md (Raise e)] (Raise e)
| rm_probe_failed remaining retry_count status e :
    is_transient status = true ->
    retry_machine md q (S remaining) retry_count
      [EvCreate md (Raise (HttpError status));
       EvPrint (MsgApiRetry status (wait_time (S retry_count)));
       EvSleep (wait_time (S retry_count));
       EvList q (Raise e)]
      (Raise e)
| rm_found remaining retry_count status id ids :
    is_transient status = true ->
    id <> "" ->
    retry_machine md q (S remaining) retry_count
      [EvCreate md (Raise (HttpError status));
       EvPrint (MsgApiRetry status (wait_time (S retry_count)));
       EvSleep (wait_time (S retry_count));
       EvList q (Ret (id :: ids));
       EvPrint (MsgCreatedDespiteError id)]
      (Ret id)
| rm_retry remaining retry_count status ids evs r :
    is_transient status = true ->
    hd "" ids = "" ->
    retry_machine md q remaining (S retry_count) evs r ->
    retry_machine md q (S remaining) retry_count
      (EvCreate md (Raise (HttpError status))
       :: EvPrint (MsgApiRetry status (wait_time (S retry_count)))
       :: EvSleep (wait_time (S retry_count))
       :: EvList q (Ret ids)
       :: evs)
      r.

Definition is_create (e : event) : bool :=
  match e with EvCreate _ _ => true | _ => false end.

Definition is_request (e : event) : bool :=
  match e with EvCreate _ _ | EvList _ _ => true | _ => false end.

(** The waits of a stretch of events, in order. *)
Fixpoint sleeps (evs : list event) : list Z :=
  match evs with
  | [] => []
  | EvSleep secs :: evs' => secs :: sleeps evs'
  | _ :: evs' => sleeps evs'
  end.

(** Every identifier the store or the cache holds is a non-empty string. *)
Definition ids_nonempty (s : st) : Prop :=
  (forall f, In f (files s) -> rf_id f <> "")
  /\ (forall k v, folder_cache s !! k = Some v -> v <> "").

(** A store that answers every request, holding well-formed identifiers. *)
Definition healthy (s : st) : Prop := faults s = [] /\ ids_nonempty s.

(** The files whose outcome a stretch of events reports, in order: one
    entry per line [Uploaded: ...], [Error uploading ...] or
    [Error: Parent folder not found for ...]. *)
Fixpoint outcomes (evs : list event) : list path :=
  match evs with
  | [] => []
  | EvPrint (MsgUploaded rel_path) :: evs'
  | EvPrint (MsgErrUploading rel_path _) :: evs'
  | EvPrint (MsgErrParentNotFound rel_path) :: evs' => rel_path :: outcomes evs'
  | _ :: evs' => outcomes evs'
  end.

(** The object a file of the tree becomes under the remote folder [pid]. *)
Definition stored_as (item : file_item) (pid : string) (f : remote_file) : Prop :=
  rf_name f = basename (fi_rel_path item) /\ rf_parent f = Some pid /\ rf_trashed f = false.

(** In a list of folder entries, every entry whose parent is not the root
    comes after the entry of its parent. *)
Definition parents_first (l : list FolderUploader.folder_item) : Prop :=
  forall l1 x l2,
    l = l1 ++ x :: l2 ->
    FolderUploader.fo_parent_path x <> [] ->
    exists y, In y l1 /\ FolderUploader.fo_rel_path y = FolderUploader.fo_parent_path x.

Definition by_depth (x y : FolderUploader.folder_item) : Prop :=
  (FolderUploader.depth x <= FolderUploader.depth y)%nat.

(** The remote folder a request names as parent. *)
Definition under (parent : option string) (e : event) : Prop :=
  match e with
  | EvList q _ => q_parent q = parent
  | EvCreate md _ => md_parent md = parent
  | EvSleep _ | EvPrint _ => True
  end.

(** What the dictionary of created folders holds: an id for every name
    handled so far, and well-formed ids only. *)
Definition resolved (done : list string) (created : gmap string string) : Prop :=
  (forall n, In n done -> is_Some (created !! n))
  /\ (forall n id, created !! n = Some id -> id <> "").

(** Every event a computation adds to the trace satisfies [P]. *)
Definition emits {A} (P : event -> Prop) (c : M A) : Prop :=
  forall s r s1, c s = (r, s1) -> exists evs, trace s1 = trace s ++ evs /\ Forall P evs.

(** A path has an id in the map, and [if not parent_id] lets it through. *)
Definition known (folder_ids : gmap path string) (p : path) : Prop :=
  truthy (folder_ids !! p) = true.

(** The objects of the store a query selects. *)
Definition selected (q : query) (s : st) : list remote_file :=
  List.filter (matches q) (files s).

End Spec.

Module LedgerSpec.
Import Ledger.

(** The ledger is keyed by fingerprint: a table holds at most one row per
    fingerprint. *)
Definition one_row_per_fingerprint (c : csv) : Prop :=
  match c with
  | Table rows => NoDup (map folder_hash rows)
  | Missing | Unreadable => True
  end.

Section Histories.

Variable float : Type.
Variable str_float : float -> string.
Variable md5_hexdigest : string -> string.
Variable abspath : string -> string.

(** The file a call of [record_folder_upload] leaves. *)
Definition recorded (fs : local_fs float) (c : csv) (now folder_path drive_folder_id : string)
  : csv :=
  snd (fst (record_folder_upload float str_float md5_hexdigest abspath
              fs c now folder_path drive_folder_id)).

(** [ledger_evolves c c']: [c'] is [c] after any number of calls of
    [record_folder_upload]. *)
Inductive ledger_evolves (c : csv) : csv -> Prop :=
| evolves_refl : ledger_evolves c c
| evolves_record c' fs now folder_path drive_folder_id :
    ledger_evolves c c' ->
    ledger_evolves c (recorded fs c' now folder_path drive_folder_id).

(** The ledgers the program produces: it starts with no file. *)
Definition written_by_record (c : csv) : Prop := ledger_evolves Missing c.

End Histories.

(** The ledger is a table with a row of fingerprint [h]. *)
Definition holds (h : string) (c : csv) : Prop :=
  exists rows, c = Table rows /\ hash_in h rows = true.

End LedgerSpec.

(* ===================================================================== *)
(** ** Concrete stores, files and trees *)
(* ===================================================================== *)

Module Samples.
Import DriveApi Spec.

Definition empty_store : st := mk_st [] 0 [] [] ∅.

Definition notes : local_file := mk_local_file "notes.txt" (Some 10%Z).

(** A store whose first request fails with 503. *)
Definition refusing_store : st := mk_st [] 0 [FailBefore (HttpError 503)] [] ∅.

(** A store that answers the first probe, refuses the upload request with
    503 and then refuses the probe that follows with 429. *)
Definition refusing_twice : st :=
  mk_st [] 0 [Answer; FailBefore (HttpError 503); FailBefore (HttpError 429)] [] ∅.

(** A store that answers the first probe, then stores the uploaded file
    and loses the answer (503). *)
Definition lossy_store : st := mk_st [] 0 [Answer; FailAfter (HttpError 503)] [] ∅.

(** A store that answers the probes and refuses every upload request with
    503. *)
Definition always_refusing : st :=
  mk_st [] 0
        [Answer;
         FailBefore (HttpError 503); Answer; FailBefore (HttpError 503); Answer;
         FailBefore (HttpError 503); Answer; FailBefore (HttpError 503); Answer;
         FailBefore (HttpError 503); Answer]
        [] ∅.

(** A store that answers the probe and refuses the upload request with
    403. *)
Definition forbidding_store : st := mk_st [] 0 [Answer; FailBefore (HttpError 403)] [] ∅.

(** A store that already holds [notes.txt] under the folder [P]. *)
Definition store_with_notes : st :=
  mk_st [mk_remote_file "n1" "notes.txt" (Some "P") false false] 0 [] [] ∅.

(** A store that holds a folder [a] under [P], as a crashed run leaves it. *)
Definition store_with_folder : st :=
  mk_st [mk_remote_file "old" "a" (Some "P") true false] 0 [] [] ∅.

Definition six_names : list string := ["a"; "b"; "c"; "d"; "e"; "f"].

(** A file system with one directory [/data/to_upload/Project], modified at
    time [mtime]. Modification times are kept as their rendering, paths are
    absolute already, and the hash is the identity: a hash without
    collisions. *)
Definition sample_fs (mtime : string) : local_fs string :=
  mk_local_fs string
    (fun p => String.eqb p "/data/to_upload/Project" || String.eqb p "/data/to_upload")
    (fun p => String.eqb p "/data/to_upload/Project" || String.eqb p "/data/to_upload")
    (fun _ => mtime)
    (fun p => if String.eqb p "/data/to_upload" then ["Project"] else [])
    (fun p => if String.eqb p "/data/to_upload/Project"
              then [File "a.txt" (Some 10%Z);
                    Dir "sub" [File "b.txt" (Some 20%Z); Dir "empty" []]]
              else []).

Definition same (x : string) : string := x.

(** A digest of fixed length, and so with collisions: the last four
    characters of its input. *)
Definition short_digest (x : string) : string :=
  String.substring (String.length x - 4) 4 x.

(** The folder ids of a tree whose root is the remote folder [root]. *)
Definition root_only : gmap path string := {[ [] := "root" ]}.

Definition a_txt : file_item := mk_file_item ["a.txt"] 10 (Some 10%Z).

(** The tree [Project/]: [a.txt], [sub/b.txt] and the empty [sub/empty/]. *)
Definition project : list node :=
  [File "a.txt" (Some 10%Z); Dir "sub" [File "b.txt" (Some 20%Z); Dir "empty" []]].

Definition sub_entry : FolderUploader.folder_item :=
  FolderUploader.mk_folder_item ["sub"] "sub" [].
Definition empty_entry : FolderUploader.folder_item :=
  FolderUploader.mk_folder_item ["sub"; "empty"] "empty" ["sub"].

End Samples.

(* ===================================================================== *)
(** ** cli/manage_uploads.py *)
(* ===================================================================== *)

Module ManageUploads.
Import Ledger.

Inductive manage_msg : Type :=
| MsgNoCsv
| MsgCsvEmpty
| MsgInvalidIndex (rows : nat)
| MsgDeleted (folder_name : string)
| MsgErrDeleting (e : exn)
| MsgCancelled
| MsgCleared
| MsgErrClearing (e : exn).

(** [df.drop(i)] on the frame [pd.read_csv] hands back, whose labels are
    the positions: the row at position [i] leaves. *)
Definition drop_row (i : nat) (df : list row) : list row := take i df ++ drop (S i) df.

(** [delete_upload(index)]: the file left behind and the lines printed. A
    file that cannot be parsed, or that lacks the ledger's columns, makes
    the body of the [try] raise. *)
Definition delete_upload (c : csv) (index : Z) : csv * list manage_msg :=
  if negb (csv_exists c) then (c, [MsgNoCsv])
  else
    match read_csv c with
    | Raise e => (c, [MsgErrDeleting e])
    | Ret df =>
        match df with
        | [] => (c, [MsgCsvEmpty])
        | _ :: _ =>
            if (index <? 1)%Z || (Z.of_nat (length df) <? index)%Z
            then (c, [MsgInvalidIndex (length df)])
            else
              let i := Z.to_nat (index - 1) in
              match df !! i with
              | Some r => (Table (drop_row i df), [MsgDeleted (folder_name r)])
              | None => (c, [MsgErrDeleting ParseError])
              end
        end
    end.

(** [confirm.lower() != 'y'] is false for ["y"] and ["Y"] only. *)
Definition confirmed (confirm : string) : bool :=
  String.eqb confirm "y" || String.eqb confirm "Y".

(** [clear_uploads()], [confirm] being what the user types at the prompt:
    the file left behind and the lines printed. *)
Definition clear_uploads (c : csv) (confirm : string) : csv * list manage_msg :=
  if negb (csv_exists c) then (c, [MsgNoCsv])
  else
    match read_csv c with
    | Raise e => (c, [MsgErrClearing e])
    | Ret df =>
        match df with
        | [] => (c, [MsgCsvEmpty])
        | _ :: _ =>
            if negb (confirmed confirm) then (c, [MsgCancelled])
            else (Table [], [MsgCleared])
        end
    end.

End ManageUploads.

(* ===================================================================== *)
(** ** Further specification-level notions *)
(* ===================================================================== *)

Module Coverage.
Import DriveApi FolderUploader Spec.

(** An entry [os.path.getsize] raises on. *)
Definition unreadable_file (n : node) : bool :=
  match n with
  | File _ None => true
  | _ => false
  end.

(** A tree holds, at some depth, an entry that cannot be stat'ed. *)
Fixpoint unreadable (n : node) : bool :=
  match n with
  | File _ None => true
  | File _ (Some _) => false
  | Dir _ children => existsb unreadable children
  end.

(** The files and the directories of a tree, at every depth. *)
Fixpoint count_files (n : node) : nat :=
  match n with
  | File _ _ => 1
  | Dir _ children => list_sum (map count_files children)
  end.

Fixpoint count_dirs (n : node) : nat :=
  match n with
  | File _ _ => 0
  | Dir _ children => S (list_sum (map count_dirs children))
  end.

Definition total (l : list Z) : Z := fold_right Z.add 0%Z l.

(** The entries of a directory; a file has none. *)
Definition children_of (n : node) : list node :=
  match n with
  | File _ _ => []
  | Dir _ children => children
  end.

(** The sizes [get_folder_size] adds up over the triples of a walk. *)
Definition walk_size (triples : list (path * list node)) : Z :=
  fold_left (fun total triple => (total + UploadAll.files_size (snd triple))%Z) triples 0%Z.

(** What the scan of a stretch of a walk gives, [entries] being the
    entries the stretch goes through: [OSError] when one of them cannot be
    stat'ed, and otherwise one item per file and per directory, the sizes
    of the file items adding up to what [get_folder_size] counts. *)
Definition scanned (triples : list (path * list node)) (entries : list node) : Prop :=
  if existsb unreadable entries
  then collect triples = Raise OSError
  else exists fs ds,
      collect triples = Ret (fs, ds)
      /\ length fs = list_sum (map count_files entries)
      /\ length ds = list_sum (map count_dirs entries)
      /\ total (map fi_size fs) = walk_size triples
      /\ Forall (fun f => fi_stat f = Some (fi_size f)) fs.

(** A computation leaves every object of the store as it is and in its
    place: it can only add objects. *)
Definition grows {A} (c : M A) : Prop :=
  forall s r s1, c s = (r, s1) -> exists extra, files s1 = files s ++ extra.

(** The files a stretch of events announces a synchronous retry for. *)
Fixpoint retries (evs : list event) : list path :=
  match evs with
  | [] => []
  | EvPrint (MsgRetrying rel_path) :: evs' => rel_path :: retries evs'
  | _ :: evs' => retries evs'
  end.

(** A result of the pool the synchronous retry applies to: a failure whose
    file has a parent id in the map. *)
Definition needs_retry (folder_ids : gmap path string) (entry : path * upload_result) : bool :=
  match snd entry with
  | UploadOk _ _ => false
  | UploadErr _ item => truthy (folder_ids !! dirname (fi_rel_path item))
  end.




End Coverage.

(* ===================================================================== *)
(** * Theorems *)
(* ===================================================================== *)

Module PyFacts.

Lemma truthy_Some (s : string) : truthy (Some s) = true <-> s <> "".
Proof.
  unfold truthy. rewrite negb_true_iff.
  destruct (String.eqb_spec s ""); split; congruence.
Qed.

Lemma truthy_inv (o : option string) :
  truthy o = true -> exists s, o = Some s /\ s <> "".
Proof.
  destruct o as [s|]; [|discriminate].
  intros H. exists s. split; [reflexivity|]. now apply truthy_Some.
Qed.

Lemma truthy_false_hd (items : list string) :
  truthy (head items) = false -> hd "" items = "".
Proof.
  destruct items as [|i items]; simpl; [reflexivity|].
  rewrite negb_false_iff. intros H. now apply String.eqb_eq.
Qed.

End PyFacts.

Module RemoteFacts.
Import DriveApi Spec.

(** A request is one step of the store: the answer and the state after are
    functions of the state before. *)
Lemma files_list_eq (q : query) (s : st) :
  files_list q s = (list_result q s, after_list q s).
Proof.
  unfold files_list, next_fault, list_result, after_list.
  destruct s as [fl n fs tr c]; simpl.
  destruct fs as [|[|e|e] fs]; reflexivity.
Qed.

Lemma files_create_eq (md : metadata) (s : st) :
  files_create md s = (create_result s, after_create md s).
Proof.
  unfold files_create, next_fault, create_result, after_create, store, new_file.
  destruct s as [fl n fs tr c]; simpl.
  destruct fs as [|[|e|e] fs]; reflexivity.
Qed.

Lemma check_file_exists_eq (file_name : string) (parent_id : option string) (s : st) :
  check_file_exists file_name parent_id s =
  (match list_result (probe file_name parent_id) s with
   | Ret items => Ret (head (map rf_id items))
   | Raise e => Raise e
   end, after_list (probe file_name parent_id) s).
Proof.
  unfold check_file_exists, bind. fold (probe file_name parent_id).
  rewrite files_list_eq.
  destruct (list_result _ s) as [[|f items]|e]; reflexivity.
Qed.

Lemma fresh_id_nonempty (n : nat) : fresh_id n <> "".
Proof. unfold fresh_id. simpl. discriminate. Qed.

End RemoteFacts.

Module DriveApiFacts.
Import DriveApi Spec PyFacts RemoteFacts.

Lemma find_or_create_folder_eq (folder_name : string) (parent_id : option string) (s : st) :
  find_or_create_folder folder_name parent_id s =
  let key := cache_key folder_name parent_id in
  match folder_cache s !! key with
  | Some id => (Ret id, s)
  | None =>
      let q := folder_query folder_name parent_id in
      let s1 := after_list q s in
      match list_result q s with
      | Raise e => (Raise e, s1)
      | Ret (f :: _) => (Ret (rf_id f), with_cache key (rf_id f) s1)
      | Ret [] =>
          let md := folder_metadata folder_name parent_id in
          match create_result s1 with
          | Raise e => (Raise e, after_create md s1)
          | Ret id => (Ret id, with_cache key id (after_create md s1))
          end
      end
  end.
Proof.
  unfold find_or_create_folder, bind, cache_get. simpl.
  destruct (folder_cache s !! cache_key folder_name parent_id) as [id|]; [reflexivity|].
  fold (folder_query folder_name parent_id). rewrite files_list_eq.
  destruct (list_result _ s) as [[|f items]|e]; try reflexivity.
  fold (folder_metadata folder_name parent_id). rewrite files_create_eq.
  destruct (create_result _) as [id|e]; reflexivity.
Qed.

(** A call that returns leaves its result in the cache under its key. *)
Lemma find_or_create_folder_cached (folder_name : string) (parent_id : option string)
    (s s1 : st) (id : string) :
  find_or_create_folder folder_name parent_id s = (Ret id, s1) ->
  folder_cache s1 !! cache_key folder_name parent_id = Some id.
Proof.
  rewrite find_or_create_folder_eq. simpl.
  destruct (folder_cache s !! _) as [c|] eqn:Hc.
  - intros [= <- <-]. exact Hc.
  - destruct (list_result _ s) as [[|f items]|e]; [| |discriminate].
    + destruct (create_result _) as [i|e]; [|discriminate].
      intros [= <- <-]. simpl. apply lookup_insert_eq.
    + intros [= <- <-]. simpl. apply lookup_insert_eq.
Qed.

(** C10. [find_or_create_folder] keeps its result under the key
    [folder_name + "_" + parent_id]. The pairs [("a_b", "c")] and
    [("a", "b_c")] are different and have the same key; and whenever two
    pairs have the same key, a call for the second one after a call for the
    first one has returned answers the first one's id and leaves the state
    as it is: no lookup, no creation. *)
Theorem find_or_create_folder_key_collision :
  (("a_b", Some "c") <> ("a", Some "b_c")
   /\ cache_key "a_b" (Some "c") = cache_key "a" (Some "b_c"))
  /\ forall name1 parent1 name2 parent2 s id s1,
      cache_key name1 parent1 = cache_key name2 parent2 ->
      find_or_create_folder name1 parent1 s = (Ret id, s1) ->
      folder_cache s1 !! cache_key name1 parent1 = Some id
      /\ find_or_create_folder name2 parent2 s1 = (Ret id, s1).
Proof.
  split; [split; [discriminate|reflexivity]|].
  intros name1 parent1 name2 parent2 s id s1 Hkey Hcall.
  pose proof (find_or_create_folder_cached _ _ _ _ _ Hcall) as Hc.
  split; [exact Hc|].
  rewrite find_or_create_folder_eq. simpl. rewrite <- Hkey, Hc. reflexivity.
Qed.

End DriveApiFacts.

Module UploadFileFacts.
Import DriveApi Spec PyFacts RemoteFacts.

Lemma trace_after_list (q : query) (s : st) :
  trace (after_list q s) = trace s ++ [EvList q (ids_of (list_result q s))].
Proof. reflexivity. Qed.

Lemma trace_after_create (md : metadata) (s : st) :
  trace (after_create md s) = trace s ++ [EvCreate md (create_result s)].
Proof.
  unfold after_create, create_result.
  destruct (hd Answer (faults s)); reflexivity.
Qed.

Lemma emit_eq (e : event) (s : st) : emit e s = (Ret tt, with_events [e] s).
Proof. reflexivity. Qed.

Lemma with_events_app (evs1 evs2 : list event) (s : st) :
  with_events evs2 (with_events evs1 s) = with_events (evs1 ++ evs2) s.
Proof. unfold with_events. simpl. now rewrite app_assoc. Qed.

Lemma not_transient_status (status : Z) :
  is_transient status = false -> ~ transient (HttpError status).
Proof. intros H [st' [[= <-] Ht]]. congruence. Qed.

Lemma not_transient_other (e : exn) :
  (forall status, e <> HttpError status) -> ~ transient e.
Proof. intros H [status [-> _]]. now apply (H status). Qed.

(** The loop of [upload_file] is a run of the retry machine: the events it
    adds to the trace and its outcome are those of one of the machine's
    runs. *)
Lemma upload_attempts_machine (md : metadata) (file_name : string) (parent_id : option string)
    (remaining : nat) :
  forall (retry_count : nat) (s s1 : st) (r : res string),
    upload_attempts md file_name parent_id remaining retry_count s = (r, s1) ->
    exists evs,
      trace s1 = trace s ++ evs
      /\ retry_machine md (probe file_name parent_id) remaining retry_count evs r.
Proof.
  induction remaining as [|k IH]; intros rc s s1 r.
  - simpl. intros [= <- <-]. exists []. split; [now rewrite app_nil_r|constructor].
  - simpl. unfold try_except. rewrite files_create_eq.
    destruct (create_result s) as [id|e] eqn:Hcr.
    + intros [= <- <-]. exists [EvCreate md (Ret id)].
      rewrite trace_after_create, Hcr. split; [reflexivity|constructor].
    + assert (Hfatal : (Raise e, after_create md s) = (r, s1) -> ~ transient e ->
                exists evs, trace s1 = trace s ++ evs
                  /\ retry_machine md (probe file_name parent_id) (S k) rc evs r).
      { intros [= <- <-] Hnt. exists [EvCreate md (Raise e)].
        rewrite trace_after_create, Hcr. split; [reflexivity|now constructor]. }
      destruct e as [status| | | | | |n];
        try (intros H; apply Hfatal; [exact H|apply not_transient_other; discriminate]).
      destruct (is_transient status) eqn:Ht;
        [|intros H; apply Hfatal; [exact H|now apply not_transient_status]].
      clear Hfatal. unfold bind, print, sleep. rewrite !emit_eq, with_events_app.
      rewrite check_file_exists_eq.
      set (s2 := with_events _ _).
      assert (Hs2 : trace s2 = trace s ++ [EvCreate md (Raise (HttpError status));
                                           EvPrint (MsgApiRetry status (wait_time (S rc)));
                                           EvSleep (wait_time (S rc))]).
      { subst s2. unfold with_events. cbn [trace]. rewrite trace_after_create, Hcr.
        now rewrite <- !app_assoc. }
      destruct (list_result (probe file_name parent_id) s2) as [items|e] eqn:Hl.
      * destruct (truthy (head (map rf_id items))) eqn:Htr.
        -- rewrite !emit_eq. unfold ret. intros [= <- <-].
           unfold with_events at 1. cbn [trace].
           rewrite trace_after_list, Hs2, Hl. cbn [ids_of].
           destruct (map rf_id items) as [|i ids] eqn:Hm; [discriminate|].
           cbn [head py_str] in Htr |- *. eexists. rewrite <- !app_assoc.
           split; [reflexivity|]. cbn [app].
           apply rm_found; [exact Ht|]. now apply truthy_Some.
        -- intros Hrec. apply IH in Hrec as [evs [Htr1 Hm]].
           rewrite trace_after_list, Hs2, Hl in Htr1. cbn [ids_of] in Htr1.
           eexists. split.
           ++ rewrite Htr1, <- !app_assoc. reflexivity.
           ++ cbn [app]. apply rm_retry; [exact Ht|now apply truthy_false_hd|exact Hm].
      * intros [= <- <-]. rewrite trace_after_list, Hs2, Hl. cbn [ids_of].
        eexists. rewrite <- !app_assoc. split; [reflexivity|]. cbn [app].
        now apply rm_probe_failed.
Qed.

End UploadFileFacts.

Module UploadFileStore.
Import DriveApi Spec PyFacts RemoteFacts UploadFileFacts.

Lemma files_after_list (q : query) (s : st) : files (after_list q s) = files s.
Proof. reflexivity. Qed.

Lemma files_after_create (md : metadata) (s : st) :
  files (after_create md s) =
  match hd Answer (faults s) with
  | FailBefore _ => files s
  | _ => files s ++ [new_file md s]
  end.
Proof. unfold after_create. destruct (hd Answer (faults s)); reflexivity. Qed.

Lemma selected_after_list (q q' : query) (s : st) :
  selected q (after_list q' s) = selected q s.
Proof. reflexivity. Qed.

Lemma selected_with_events (q : query) (evs : list event) (s : st) :
  selected q (with_events evs s) = selected q s.
Proof. reflexivity. Qed.

Lemma opt_eqb_refl (o : option string) : opt_eqb o o = true.
Proof. destruct o; simpl; [apply String.eqb_refl|reflexivity]. Qed.

(** The object an upload request stores is one the probe selects, as soon
    as the parent id is a non-empty string. *)
Lemma probe_matches_new_file (file_name parent_id : string) (chunk : option Z) (s : st) :
  parent_id <> "" ->
  matches (probe file_name (Some parent_id))
          (new_file (mk_metadata file_name false (opt_if_truthy (Some parent_id)) chunk) s) = true.
Proof.
  intros Hp. unfold matches, probe, new_file, opt_if_truthy. simpl.
  apply truthy_Some in Hp. unfold truthy in Hp. rewrite Hp. simpl.
  now rewrite !String.eqb_refl.
Qed.

Lemma list_result_answered (q : query) (s : st) :
  hd Answer (faults s) = Answer -> list_result q s = Ret (selected q s).
Proof. unfold list_result. now intros ->. Qed.

Lemma list_result_cases (q : query) (s : st) :
  list_result q s = Ret (selected q s) \/ exists e, list_result q s = Raise e.
Proof.
  unfold list_result. destruct (hd Answer (faults s)); eauto.
Qed.

Lemma create_cases (md : metadata) (s : st) :
  (create_result s = Ret (fresh_id (next_id s))
   /\ files (after_create md s) = files s ++ [new_file md s])
  \/ exists e, create_result s = Raise e
       /\ (files (after_create md s) = files s
           \/ files (after_create md s) = files s ++ [new_file md s]).
Proof.
  unfold create_result. rewrite files_after_create.
  destruct (hd Answer (faults s)); eauto.
Qed.

(** Starting with no object of that name under that parent, the loop
    leaves at most one, and when it returns an id it is that object's. *)
Lemma upload_attempts_store (file_name parent_id : string) (chunk : option Z) (remaining : nat) :
  parent_id <> "" ->
  let md := mk_metadata file_name false (opt_if_truthy (Some parent_id)) chunk in
  let q := probe file_name (Some parent_id) in
  forall (retry_count : nat) (s s1 : st) (r : res string),
    selected q s = [] ->
    upload_attempts md file_name (Some parent_id) remaining retry_count s = (r, s1) ->
    (exists extra, files s1 = files s ++ extra /\ (length extra <= 1)%nat)
    /\ (forall id, r = Ret id -> exists f, selected q s1 = [f] /\ rf_id f = id /\ id <> "").
Proof.
  intros Hp md q. induction remaining as [|k IH]; intros rc s s1 r Hsel.
  - simpl. intros [= <- <-]. split; [|discriminate].
    exists []. rewrite app_nil_r. simpl. split; [reflexivity|lia].
  - simpl. unfold try_except. rewrite files_create_eq.
    pose proof (probe_matches_new_file file_name parent_id chunk s Hp) as Hnew.
    fold md q in Hnew.
    assert (Hext : exists extra, files (after_create md s) = files s ++ extra
                      /\ (length extra <= 1)%nat).
    { destruct (create_cases md s) as [[_ Hf]|[e [_ [Hf|Hf]]]]; rewrite Hf.
      - exists [new_file md s]. simpl. auto.
      - exists []. rewrite app_nil_r. simpl. auto.
      - exists [new_file md s]. simpl. auto. }
    assert (Hstop : forall e, (Raise e, after_create md s) = (r, s1) ->
              (exists extra, files s1 = files s ++ extra /\ (length extra <= 1)%nat)
              /\ (forall id, r = Ret id ->
                    exists f, selected q s1 = [f] /\ rf_id f = id /\ id <> "")).
    { intros e [= <- <-]. split; [exact Hext|discriminate]. }
    destruct (create_cases md s) as [[Hcr Hf]|[e [Hcr Hf]]]; rewrite Hcr.
    + intros [= <- <-]. split; [exact Hext|].
      intros id' [= <-]. unfold selected. rewrite Hf, List.filter_app.
      fold (selected q s). rewrite Hsel. simpl. rewrite Hnew.
      eexists; split; [reflexivity|split; [reflexivity|apply fresh_id_nonempty]].
    + destruct e as [status| | | | | |n]; try apply Hstop.
      destruct (is_transient status) eqn:Ht; [|apply Hstop].
      clear Hstop. unfold bind, print, sleep. rewrite !emit_eq, with_events_app.
      rewrite check_file_exists_eq. fold q.
      set (s2 := with_events _ (after_create md s)).
      assert (Hf2 : files s2 = files (after_create md s)) by reflexivity.
      assert (Hs2 : selected q s2 = [] /\ files s2 = files s
                    \/ selected q s2 = [new_file md s]).
      { unfold selected. rewrite Hf2. destruct Hf as [Hf|Hf]; rewrite Hf.
        - left. split; [exact Hsel|reflexivity].
        - right. rewrite List.filter_app. fold (selected q s). rewrite Hsel.
          simpl. now rewrite Hnew. }
      destruct (list_result_cases q s2) as [Hl|[e Hl]]; rewrite Hl.
      * destruct Hs2 as [[Hs2 Hf2']|Hs2]; rewrite Hs2; cbn [map head truthy].
        -- intros Hrec.
           assert (Hnone : selected q (after_list q s2) = []) by exact Hs2.
           destruct (IH _ _ _ _ Hnone Hrec) as [Hfiles Hret].
           split; [|exact Hret].
           rewrite files_after_list, Hf2' in Hfiles. exact Hfiles.
        -- pose proof (fresh_id_nonempty (next_id s)) as Hne.
           apply String.eqb_neq in Hne. cbn [rf_id new_file py_str].
           rewrite Hne. cbn [negb].
           rewrite !emit_eq. unfold ret. intros [= <- <-].
           rewrite selected_with_events, selected_after_list, Hs2.
           split; [exact Hext|].
           intros id [= <-]. eexists; split; [reflexivity|split; [reflexivity|apply fresh_id_nonempty]].
      * intros [= <- <-]. split; [exact Hext|discriminate].
Qed.

Lemma upload_file_eq (file : local_file) (parent_id : option string) (s : st) :
  upload_file file parent_id s =
  match lf_size file with
  | None => (Raise OSError, s)
  | Some file_size =>
      let q := probe (lf_name file) parent_id in
      match list_result q s with
      | Raise e => (Raise e, after_list q s)
      | Ret items =>
          let existing := head (map rf_id items) in
          if truthy existing then
            (Ret (py_str existing),
             with_events [EvPrint (MsgFileExists (lf_name file) (py_str existing))]
                         (after_list q s))
          else
            upload_attempts (upload_request (lf_name file) parent_id file_size)
                            (lf_name file) parent_id max_retries 0 (after_list q s)
      end
  end.
Proof.
  unfold upload_file. destruct (lf_size file) as [size|]; [|reflexivity].
  unfold bind. rewrite check_file_exists_eq.
  destruct (list_result _ s) as [items|e]; [|reflexivity].
  cbn zeta. destruct (truthy _); reflexivity.
Qed.

(** Whatever [upload_file] does remotely starts with the existence probe. *)
Lemma upload_file_probe_first (file : local_file) (parent_id : option string)
    (s s1 : st) (r : res string) :
  upload_file file parent_id s = (r, s1) ->
  (lf_size file = None /\ r = Raise OSError /\ s1 = s)
  \/ exists file_size evs,
      lf_size file = Some file_size
      /\ trace s1 = trace s
                    ++ EvList (probe (lf_name file) parent_id)
                              (ids_of (list_result (probe (lf_name file) parent_id) s))
                    :: evs.
Proof.
  rewrite upload_file_eq. destruct (lf_size file) as [size|].
  2:{ intros [= <- <-]. now left. }
  intros H. right. exists size. cbn zeta in H.
  destruct (list_result _ s) as [items|e] eqn:Hl.
  - destruct (truthy _).
    + injection H as <- <-. eexists. split; [reflexivity|].
      unfold with_events. cbn [trace]. rewrite trace_after_list, Hl, <- app_assoc.
      reflexivity.
    + apply upload_attempts_machine in H as [evs [Ht _]].
      exists evs. split; [reflexivity|].
      rewrite Ht, trace_after_list, Hl, <- app_assoc. reflexivity.
  - injection H as <- <-. exists []. split; [reflexivity|].
    now rewrite trace_after_list, Hl.
Qed.

Lemma selected_In (q : query) (s : st) (f : remote_file) :
  In f (selected q s) <-> In f (files s) /\ matches q f = true.
Proof. unfold selected. apply List.filter_In. Qed.

Lemma probe_matches (file_name parent_id : string) (f : remote_file) :
  matches (probe file_name (Some parent_id)) f = true <->
  rf_name f = file_name /\ rf_parent f = Some parent_id /\ rf_trashed f = false.
Proof.
  unfold matches, probe. cbn [q_name q_folder q_parent py_str].
  rewrite !andb_true_iff, negb_true_iff, String.eqb_eq.
  destruct (rf_parent f) as [p|]; cbn [opt_eqb].
  - rewrite String.eqb_eq. split.
    + intros [[[-> _] ->] ->]. auto.
    + intros [-> [[= ->] ->]]. auto.
  - split; [intros [[_ [=]] _]|intros [_ [[=] _]]].
Qed.

End UploadFileStore.

Module ExistenceProbe.
Import DriveApi Spec PyFacts RemoteFacts UploadFileFacts UploadFileStore.

(** With the probe answered and an object of that name under that parent,
    the call ends at the probe. *)
Lemma upload_file_found (file : local_file) (parent_id : string) (s : st)
    (file_size : Z) (f : remote_file) :
  lf_size file = Some file_size ->
  hd Answer (faults s) = Answer ->
  (forall g, In g (files s) -> rf_id g <> "") ->
  In f (selected (probe (lf_name file) (Some parent_id)) s) ->
  exists g rest,
    selected (probe (lf_name file) (Some parent_id)) s = g :: rest
    /\ upload_file file (Some parent_id) s =
       (Ret (rf_id g),
        with_events [EvPrint (MsgFileExists (lf_name file) (rf_id g))]
                    (after_list (probe (lf_name file) (Some parent_id)) s)).
Proof.
  intros Hsize Hans Hids Hin.
  rewrite upload_file_eq, Hsize. cbn zeta.
  rewrite (list_result_answered _ _ Hans).
  destruct (selected _ s) as [|g rest] eqn:Hsel; [destruct Hin|].
  exists g, rest. split; [reflexivity|].
  cbn [map head py_str].
  assert (Hg : rf_id g <> "").
  { apply Hids. apply (selected_In (probe (lf_name file) (Some parent_id))).
    rewrite Hsel. now left. }
  apply truthy_Some in Hg. now rewrite Hg.
Qed.

(** C4. For every call of [upload_file] under a parent id:
    - whatever the call does remotely starts with the existence probe for
      (file name, parent id); in particular the probe precedes every upload
      request;
    - if the probe is answered and a non-trashed object of that name exists
      under that parent, the call returns the id of such an object, stores
      nothing and sends no upload request: its only events are the probe
      and the message that the file exists;
    - the call is idempotent: once it has returned an id, calling it again
      (with the probe answered) returns the same id and leaves the store as
      it is. *)
Theorem upload_file_existence_probe (file : local_file) (parent_id : string) (s : st) :
  (forall r s1,
      upload_file file (Some parent_id) s = (r, s1) ->
      exists evs,
        trace s1 = trace s ++ evs
        /\ forall md rc, In (EvCreate md rc) evs ->
             exists ro rest,
               evs = EvList (probe (lf_name file) (Some parent_id)) ro :: rest)
  /\ (forall file_size f,
        lf_size file = Some file_size ->
        hd Answer (faults s) = Answer ->
        (forall g, In g (files s) -> rf_id g <> "") ->
        In f (files s) ->
        rf_name f = lf_name file -> rf_parent f = Some parent_id -> rf_trashed f = false ->
        exists g s1,
          In g (files s)
          /\ rf_name g = lf_name file /\ rf_parent g = Some parent_id /\ rf_trashed g = false
          /\ upload_file file (Some parent_id) s = (Ret (rf_id g), s1)
          /\ files s1 = files s
          /\ exists ids,
               trace s1 = trace s ++ [EvList (probe (lf_name file) (Some parent_id)) (Ret ids);
                                      EvPrint (MsgFileExists (lf_name file) (rf_id g))])
  /\ (forall id s1,
        parent_id <> "" ->
        (forall g, In g (files s) -> rf_id g <> "") ->
        upload_file file (Some parent_id) s = (Ret id, s1) ->
        hd Answer (faults s1) = Answer ->
        exists s2,
          upload_file file (Some parent_id) s1 = (Ret id, s2) /\ files s2 = files s1).
Proof.
  set (q := probe (lf_name file) (Some parent_id)).
  split; [|split].
  - intros r s1 Hcall.
    destruct (upload_file_probe_first _ _ _ _ _ Hcall) as [[_ [_ ->]]|[size [evs [_ Ht]]]].
    + exists []. split; [now rewrite app_nil_r|]. intros md rc [].
    + eexists. split; [exact Ht|]. intros md rc _. eauto.
  - intros size f Hsize Hans Hids Hin Hname Hpar Htrash.
    assert (Hsel : In f (selected q s)).
    { apply selected_In. split; [exact Hin|]. now apply probe_matches. }
    destruct (upload_file_found file parent_id s size f Hsize Hans Hids Hsel)
      as [g [rest [Hg Hcall]]].
    assert (Hgin : In g (selected q s)) by (fold q in Hg; rewrite Hg; now left).
    apply selected_In in Hgin as [Hgin Hgm]. apply probe_matches in Hgm as [? [? ?]].
    exists g. eexists. repeat (split; [eassumption|]).
    split; [reflexivity|].
    exists (map rf_id (selected q s)).
    unfold with_events. cbn [trace]. rewrite trace_after_list.
    fold q. rewrite (list_result_answered _ _ Hans), <- app_assoc. reflexivity.
  - intros id s1 Hp Hids Hcall Hans1.
    assert (Hfirst : exists g rest, selected q s1 = g :: rest /\ rf_id g = id
                                    /\ forall g', In g' (files s1) -> rf_id g' <> "").
    { rewrite upload_file_eq in Hcall.
      destruct (lf_size file) as [size|]; [|discriminate]. cbn zeta in Hcall. fold q in Hcall.
      destruct (list_result_cases q s) as [Hl|[e Hl]]; rewrite Hl in Hcall; [|discriminate].
      destruct (selected q s) as [|g rest] eqn:Hsel.
      - cbn [map head truthy] in Hcall.
        pose proof (upload_attempts_store (lf_name file) parent_id (Some (chunk_size size))
                      max_retries Hp 0 (after_list q s) s1 (Ret id) Hsel Hcall)
          as [[extra [Hf Hlen]] Hret].
        destruct (Hret id eq_refl) as [g [Hg [Hgid Hne]]].
        exists g, []. fold q in Hg. split; [exact Hg|]. split; [exact Hgid|].
        intros g' Hin'. rewrite Hf, files_after_list in Hin'.
        apply in_app_or in Hin' as [Hin'|Hin']; [now apply Hids|].
        assert (Hgin : In g (files s1)).
        { apply (selected_In q). rewrite Hg. now left. }
        rewrite Hf, files_after_list in Hgin.
        apply in_app_or in Hgin as [Hgin|Hgin].
        + assert (In g (selected q s)) as Hbad.
          { apply selected_In. split; [exact Hgin|].
            apply (selected_In q s1). rewrite Hg. now left. }
          rewrite Hsel in Hbad. destruct Hbad.
        + destruct extra as [|x [|y extra]]; cbn [length] in Hlen; try lia.
          * destruct Hin'.
          * destruct Hin' as [<-|[]]. destruct Hgin as [->|[]]. now rewrite Hgid.
      - cbn [map head py_str] in Hcall.
        assert (Hg : rf_id g <> "").
        { apply Hids. apply (selected_In q). rewrite Hsel. now left. }
        apply truthy_Some in Hg. rewrite Hg in Hcall. injection Hcall as <- <-.
        exists g, rest. rewrite selected_with_events, selected_after_list.
        split; [exact Hsel|]. split; [reflexivity|]. exact Hids. }
    destruct Hfirst as [g [rest [Hsel [Hgid Hids1]]]].
    assert (Hsize : exists size, lf_size file = Some size).
    { rewrite upload_file_eq in Hcall. destruct (lf_size file); [eauto|discriminate]. }
    destruct Hsize as [size Hsize].
    assert (Hin : In g (selected q s1)) by (rewrite Hsel; now left).
    destruct (upload_file_found file parent_id s1 size g Hsize Hans1 Hids1 Hin)
      as [g' [rest' [Hg' Hcall']]].
    fold q in Hg'. rewrite Hsel in Hg'. injection Hg' as <- <-.
    eexists. rewrite Hcall', Hgid. split; reflexivity.
Qed.

End ExistenceProbe.

Module RetryFacts.
Import DriveApi Spec PyFacts RemoteFacts UploadFileFacts UploadFileStore.

(** A run of the machine sends at most as many upload requests as it has
    attempts left. *)
Lemma retry_machine_requests (md : metadata) (q : query) (remaining retry_count : nat)
    (evs : list event) (r : res string) :
  retry_machine md q remaining retry_count evs r ->
  (length (List.filter is_create evs) <= remaining)%nat.
Proof.
  induction 1; cbn [List.filter is_create length]; lia.
Qed.

(** Its waits are those of the exponential backoff, one per transient
    failure, in order. *)
Lemma retry_machine_sleeps (md : metadata) (q : query) (remaining retry_count : nat)
    (evs : list event) (r : res string) :
  retry_machine md q remaining retry_count evs r ->
  exists n, (n <= remaining)%nat /\ sleeps evs = map wait_time (seq (S retry_count) n).
Proof.
  induction 1.
  - exists 0%nat. split; [lia|reflexivity].
  - exists 0%nat. split; [lia|reflexivity].
  - exists 0%nat. split; [lia|reflexivity].
  - exists 1%nat. split; [lia|reflexivity].
  - exists 1%nat. split; [lia|reflexivity].
  - destruct IHretry_machine as [n [Hn Hs]].
    exists (S n). split; [lia|]. cbn [sleeps seq map]. now rewrite Hs.
Qed.

(** The worker hands every failure of its file back as a result. *)
Lemma upload_file_worker_returns (parent_folder_ids : gmap path string) (item : file_item)
    (s : st) :
  exists result s1, upload_file_worker parent_folder_ids item s = (Ret result, s1).
Proof.
  unfold upload_file_worker, try_except.
  destruct (negb (truthy (parent_folder_ids !! dirname (fi_rel_path item)))).
  - unfold ret. eauto.
  - unfold bind. destruct (upload_file _ _ s) as [[id|e] s1]; unfold ret; eauto.
Qed.

(** What a call adds to the store: nothing when an object of that name
    under that parent exists, at most one object otherwise. *)
Lemma upload_file_store (file : local_file) (parent_id : string) (s s1 : st) (r : res string) :
  parent_id <> "" ->
  (forall g, In g (files s) -> rf_id g <> "") ->
  upload_file file (Some parent_id) s = (r, s1) ->
  exists extra,
    files s1 = files s ++ extra
    /\ (length extra <= 1)%nat
    /\ (selected (probe (lf_name file) (Some parent_id)) s <> [] -> extra = []).
Proof.
  intros Hp Hids. rewrite upload_file_eq.
  set (q := probe (lf_name file) (Some parent_id)).
  assert (Hsame : forall s', files s' = files s ->
            exists extra, files s' = files s ++ extra /\ (length extra <= 1)%nat
                          /\ (selected q s <> [] -> extra = [])).
  { intros s' ->. exists []. rewrite app_nil_r. cbn [length]. auto. }
  destruct (lf_size file) as [size|]; [|intros [= <- <-]; now apply Hsame].
  cbn zeta. destruct (list_result_cases q s) as [Hl|[e Hl]]; rewrite Hl;
    [|intros [= <- <-]; now apply Hsame].
  destruct (selected q s) as [|g rest] eqn:Hsel.
  - cbn [map head truthy]. intros Hcall.
    pose proof (upload_attempts_store (lf_name file) parent_id (Some (chunk_size size))
                  max_retries Hp 0 (after_list q s) s1 r Hsel Hcall)
      as [[extra [Hf Hlen]] _].
    exists extra. rewrite Hf, files_after_list. repeat split; [exact Hlen|congruence].
  - cbn [map head py_str].
    assert (Hg : rf_id g <> "").
    { apply Hids. apply (selected_In q). rewrite Hsel. now left. }
    apply truthy_Some in Hg. rewrite Hg. intros [= <- <-]. now apply Hsame.
Qed.

End RetryFacts.

Module RetryTheorems.
Import DriveApi Spec Samples PyFacts RemoteFacts UploadFileFacts UploadFileStore RetryFacts.

Lemma backoff_waits (n : nat) :
  (n <= max_retries)%nat -> map wait_time (seq 1 n) = firstn n [2; 4; 8; 16; 32]%Z.
Proof.
  unfold max_retries. intros Hn.
  do 6 (destruct n as [|n]; [reflexivity|]). lia.
Qed.

(** C2, as the code has it. A call of [upload_file] is a probe followed by a
    run of the retry machine:
    - an error of the existence probe, transient or not, ends the call with
      that error; a probe that finds the file ends it with the file's id;
    - otherwise the upload request is sent; each time it fails with status
      429, 500, 502, 503 or 504 the call waits [min(2^n, 60)] seconds after
      the n-th such failure (2, 4, 8, 16, 32) and probes again; a probe that
      finds the file ends the call with the discovered id and no further
      request, a probe that fails ends it with the probe's error; any other
      error of the upload request ends the call with that error at once;
    - at most [max_retries] = 5 upload requests are sent, and the call fails
      when the fifth has failed with a transient error;
    - under a non-empty parent id the call adds at most one object to the
      store, and none when an object of that name under that parent exists;
    - the failure stays with the file: the worker returns it as a result. *)
Theorem upload_file_retry_machine (file : local_file) (parent_id : option string)
    (s s1 : st) (r : res string) :
  upload_file file parent_id s = (r, s1) ->
  let q := probe (lf_name file) parent_id in
  ((lf_size file = None /\ r = Raise OSError /\ s1 = s)
   \/ exists file_size evs,
       lf_size file = Some file_size
       /\ trace s1 = trace s ++ EvList q (ids_of (list_result q s)) :: evs
       /\ match ids_of (list_result q s) with
          | Raise e => r = Raise e /\ evs = []
          | Ret ids =>
              if truthy (head ids) then
                r = Ret (py_str (head ids))
                /\ evs = [EvPrint (MsgFileExists (lf_name file) (py_str (head ids)))]
              else
                retry_machine (upload_request (lf_name file) parent_id file_size) q
                              max_retries 0 evs r
                /\ (length (List.filter is_create evs) <= max_retries)%nat
                /\ exists n, (n <= max_retries)%nat
                             /\ sleeps evs = firstn n [2; 4; 8; 16; 32]%Z
          end)
  /\ (forall pid,
        parent_id = Some pid -> pid <> "" ->
        (forall g, In g (files s) -> rf_id g <> "") ->
        exists extra,
          files s1 = files s ++ extra
          /\ (length extra <= 1)%nat
          /\ (selected q s <> [] -> extra = []))
  /\ (forall parent_folder_ids item s0,
        exists result s0', upload_file_worker parent_folder_ids item s0 = (Ret result, s0')).
Proof.
  intros Hcall q. split; [|split].
  - rewrite upload_file_eq in Hcall.
    destruct (lf_size file) as [size|]; [|injection Hcall as <- <-; now left].
    right. exists size. cbn zeta in Hcall. fold q in Hcall.
    destruct (list_result q s) as [items|e] eqn:Hl; cbn [ids_of].
    + destruct (truthy (head (map rf_id items))) eqn:Htr.
      * injection Hcall as <- <-. eexists. split; [reflexivity|].
        unfold with_events. cbn [trace]. rewrite trace_after_list, Hl, <- app_assoc.
        cbn [ids_of]. split; [reflexivity|]. split; reflexivity.
      * apply upload_attempts_machine in Hcall as [evs [Ht Hm]].
        exists evs. split; [reflexivity|].
        rewrite Ht, trace_after_list, Hl, <- app_assoc. split; [reflexivity|].
        fold q in Hm. split; [exact Hm|].
        split; [exact (retry_machine_requests _ _ _ _ _ _ Hm)|].
        destruct (retry_machine_sleeps _ _ _ _ _ _ Hm) as [n [Hn Hs]].
        exists n. split; [exact Hn|]. rewrite Hs. now apply backoff_waits.
    + injection Hcall as <- <-. exists []. split; [reflexivity|].
      rewrite trace_after_list, Hl. auto.
  - intros pid -> Hp Hids. exact (upload_file_store _ _ _ _ _ Hp Hids Hcall).
  - intros ids item s0. apply upload_file_worker_returns.
Qed.

(** The loss of an answer: the file was stored although the request failed,
    the probe finds it, and the call returns its id with one object in the
    store. *)
Lemma upload_file_retry_machine_witness :
  upload_file notes (Some "P") lossy_store
  = (Ret "id0", snd (upload_file notes (Some "P") lossy_store))
  /\ exists extra,
      files (snd (upload_file notes (Some "P") lossy_store)) = files lossy_store ++ extra
      /\ (length extra <= 1)%nat.
Proof.
  assert (H : upload_file notes (Some "P") lossy_store
              = (Ret "id0", snd (upload_file notes (Some "P") lossy_store)))
    by (vm_compute; reflexivity).
  split; [exact H|].
  destruct (upload_file_retry_machine _ _ _ _ _ H) as [_ [Hstore _]].
  destruct (Hstore "P" eq_refl) as [extra [Hf [Hlen _]]].
  - discriminate.
  - intros g [].
  - exists extra. split; [exact Hf|exact Hlen].
Defined.

(** C2, as stated, fails: a transient error met by an existence probe is
    not retried. With the first request refused (503), the call ends with
    that error after this one request, without backoff; and with the upload
    request refused (503) and the probe that follows refused (429), the
    call ends with the probe's error after one upload request. *)
Lemma upload_file_probe_error_not_retried :
  is_transient 503 = true /\ is_transient 429 = true
  /\ upload_file notes (Some "P") refusing_store
     = (Raise (HttpError 503),
        mk_st [] 0 [] [EvList (probe "notes.txt" (Some "P")) (Raise (HttpError 503))] ∅)
  /\ fst (upload_file notes (Some "P") refusing_twice) = Raise (HttpError 429)
  /\ sleeps (trace (snd (upload_file notes (Some "P") refusing_twice))) = [2%Z]
  /\ length (List.filter is_create (trace (snd (upload_file notes (Some "P") refusing_twice))))
     = 1%nat.
Proof. vm_compute. repeat split; reflexivity. Qed.

End RetryTheorems.

Module DriveApiWitnesses.
Import DriveApi Spec Samples DriveApiFacts ExistenceProbe.

(** On the empty store, the folder [a_b] is created under [c]; the call for
    [a] under [b_c] then answers that folder's id. *)
Lemma find_or_create_folder_key_collision_witness :
  find_or_create_folder "a_b" (Some "c") empty_store
  = (Ret "id0", snd (find_or_create_folder "a_b" (Some "c") empty_store))
  /\ find_or_create_folder "a" (Some "b_c")
       (snd (find_or_create_folder "a_b" (Some "c") empty_store))
     = (Ret "id0", snd (find_or_create_folder "a_b" (Some "c") empty_store)).
Proof.
  assert (H : find_or_create_folder "a_b" (Some "c") empty_store
              = (Ret "id0", snd (find_or_create_folder "a_b" (Some "c") empty_store)))
    by (vm_compute; reflexivity).
  split; [exact H|].
  apply (proj2 find_or_create_folder_key_collision "a_b" (Some "c") "a" (Some "b_c")
               empty_store "id0" _ eq_refl H).
Defined.

(** [notes.txt] is under [P] already: the call answers its id and the store
    is as before. *)
Lemma upload_file_existence_probe_witness :
  exists g s1,
    In g (files store_with_notes)
    /\ upload_file notes (Some "P") store_with_notes = (Ret (rf_id g), s1)
    /\ files s1 = files store_with_notes.
Proof.
  destruct (proj1 (proj2 (upload_file_existence_probe notes "P" store_with_notes))
              10%Z (mk_remote_file "n1" "notes.txt" (Some "P") false false))
    as [g [s1 [Hin [_ [_ [_ [Hcall [Hfiles _]]]]]]]].
  - reflexivity.
  - reflexivity.
  - intros g [<-|[]]. discriminate.
  - now left.
  - reflexivity.
  - reflexivity.
  - reflexivity.
  - exists g, s1. auto.
Defined.

(** C5 fails on the code for a group of more than five names. With the
    folder [a] under [P] in the store and six names to create, the branch
    for more than five names sends the creation request without looking:
    the store ends with two folders [a] under [P], and the name is resolved
    to the new one, not to the one that was there. *)
Theorem batch_create_folders_duplicates :
  selected (folder_query "a" (Some "P")) store_with_folder
  = [mk_remote_file "old" "a" (Some "P") true false]
  /\ (exists created,
        fst (batch_create_folders six_names (Some "P") store_with_folder) = Ret created
        /\ created !! "a" = Some "id0")
  /\ selected (folder_query "a" (Some "P"))
              (snd (batch_create_folders six_names (Some "P") store_with_folder))
     = [mk_remote_file "old" "a" (Some "P") true false;
        mk_remote_file "id0" "a" (Some "P") true false].
Proof.
  split; [reflexivity|]. split; [|vm_compute; reflexivity].
  eexists. split; [vm_compute; reflexivity|]. vm_compute. reflexivity.
Qed.

(** With five names or fewer the same store is handled by
    [find_or_create_folder]: the folder is found and nothing is created for
    it. *)
Example batch_create_folders_small :
  (exists created,
      fst (batch_create_folders ["a"; "b"] (Some "P") store_with_folder) = Ret created
      /\ created !! "a" = Some "old")
  /\ selected (folder_query "a" (Some "P"))
              (snd (batch_create_folders ["a"; "b"] (Some "P") store_with_folder))
     = [mk_remote_file "old" "a" (Some "P") true false].
Proof.
  split; [|vm_compute; reflexivity].
  eexists. split; [vm_compute; reflexivity|]. vm_compute. reflexivity.
Qed.

End DriveApiWitnesses.

Module LedgerFacts.
Import Ledger LedgerSpec Samples.

Lemma hash_in_iff (h : string) (df : list row) :
  hash_in h df = true <-> In h (map folder_hash df).
Proof.
  unfold hash_in. rewrite existsb_exists, in_map_iff.
  split; intros [r [H1 H2]]; exists r.
  - apply String.eqb_eq in H2. auto.
  - split; [exact H2|]. apply String.eqb_eq. exact H1.
Qed.

Lemma update_rows_hashes (h id time : string) (df : list row) :
  map folder_hash (update_rows h id time df) = map folder_hash df.
Proof.
  unfold update_rows. rewrite map_map. apply map_ext.
  intros r. destruct (String.eqb (folder_hash r) h); reflexivity.
Qed.

Lemma update_rows_length (h id time : string) (df : list row) :
  length (update_rows h id time df) = length df.
Proof. unfold update_rows. apply length_map. Qed.

Lemma update_rows_hit (h id time : string) (df : list row) (r : row) :
  In r (update_rows h id time df) -> folder_hash r = h ->
  drive_folder_id r = id /\ upload_time r = time.
Proof.
  unfold update_rows. rewrite in_map_iff. intros [r0 [Hr Hin]] Hh.
  destruct (String.eqb_spec (folder_hash r0) h) as [Heq|Hne].
  - subst r. auto.
  - subst r. contradiction.
Qed.

Lemma update_rows_miss (h id time : string) (df : list row) (r : row) :
  In r df -> folder_hash r <> h -> In r (update_rows h id time df).
Proof.
  intros Hin Hne. unfold update_rows. apply in_map_iff. exists r.
  split; [|exact Hin]. apply String.eqb_neq in Hne. now rewrite Hne.
Qed.

Lemma append_cancel (p x y : string) : p +:+ x = p +:+ y -> x = y.
Proof.
  induction p as [|c p IH]; simpl; [auto|].
  intros [= H]. auto.
Qed.

Section Fingerprint.

Variable float : Type.
Variable str_float : float -> string.
Variable md5_hexdigest : string -> string.
Variable abspath : string -> string.

Local Abbreviation generate_folder_hash := (generate_folder_hash float str_float md5_hexdigest abspath).
Local Abbreviation is_folder_uploaded := (is_folder_uploaded float str_float md5_hexdigest abspath).
Local Abbreviation record_folder_upload := (record_folder_upload float str_float md5_hexdigest abspath).
Local Abbreviation recorded := (recorded float str_float md5_hexdigest abspath).
Local Abbreviation ledger_evolves := (ledger_evolves float str_float md5_hexdigest abspath).
Local Abbreviation written_by_record := (written_by_record float str_float md5_hexdigest abspath).

Lemma generate_folder_hash_exists (fs : local_fs float) (p : string) :
  fs_exists fs (abspath p) = true ->
  generate_folder_hash fs p
  = Ret (md5_hexdigest (hash_input float str_float (abspath p) (fs_getmtime fs (abspath p)))).
Proof. unfold Ledger.generate_folder_hash. now intros ->. Qed.

Lemma generate_folder_hash_cases (fs : local_fs float) (p : string) :
  generate_folder_hash fs p = Raise ValueError
  \/ generate_folder_hash fs p
     = Ret (md5_hexdigest (hash_input float str_float (abspath p) (fs_getmtime fs (abspath p)))).
Proof.
  unfold Ledger.generate_folder_hash. destruct (fs_exists fs (abspath p)); auto.
Qed.

(** What a call of [record_folder_upload] leaves, case by case. *)
Lemma recorded_cases (fs : local_fs float) (c : csv) (now p id : string) :
  recorded fs c now p id = c
  \/ exists h,
      generate_folder_hash fs (abspath p) = Ret h
      /\ let new_row := mk_row (abspath p) (str_basename (abspath p)) h id now in
         (c = Missing /\ recorded fs c now p id = Table [new_row])
         \/ exists rows,
             c = Table rows
             /\ (hash_in h rows = true
                 /\ recorded fs c now p id = Table (update_rows h id now rows)
                 \/ hash_in h rows = false
                    /\ recorded fs c now p id = Table (rows ++ [new_row])).
Proof.
  unfold LedgerSpec.recorded, Ledger.record_folder_upload, record_folder_upload_try.
  destruct (generate_folder_hash fs (abspath p)) as [h|e]; [|now left].
  destruct c as [| |rows]; cbn [csv_exists negb read_csv].
  - right. exists h. split; [reflexivity|]. left. auto.
  - now left.
  - right. exists h. split; [reflexivity|]. right. exists rows. split; [reflexivity|].
    destruct (hash_in h rows); [left|right]; auto.
Qed.

Lemma record_preserves_unique (fs : local_fs float) (c : csv) (now p id : string) :
  one_row_per_fingerprint c -> one_row_per_fingerprint (recorded fs c now p id).
Proof.
  intros Hu.
  destruct (recorded_cases fs c now p id) as [->|[h [_ [[_ ->]|[rows [-> [[_ ->]|[Hh ->]]]]]]]].
  - exact Hu.
  - cbn. apply NoDup_singleton.
  - cbn in *. now rewrite update_rows_hashes.
  - cbn in *. rewrite map_app. cbn [map].
    apply NoDup_app. split; [exact Hu|]. split; [|apply NoDup_singleton].
    intros x Hx Hx'. apply list_elem_of_In in Hx, Hx'. destruct Hx' as [<-|[]].
    apply hash_in_iff in Hx. cbn [folder_hash] in Hx. congruence.
Qed.

Lemma written_unique (c : csv) : written_by_record c -> one_row_per_fingerprint c.
Proof.
  unfold LedgerSpec.written_by_record. induction 1.
  - exact I.
  - now apply record_preserves_unique.
Qed.

(** C8. [is_folder_uploaded] returns for every path and every state of the
    ledger file: with the file missing it answers [False] and prints
    nothing; with a file that cannot be read or parsed it answers [False]
    and prints the error; in every case it answers a boolean and raises
    nothing. *)
Theorem is_folder_uploaded_never_raises (fs : local_fs float) (folder_path : string) :
  is_folder_uploaded fs Missing folder_path = (Ret false, [])
  /\ (exists e, is_folder_uploaded fs Unreadable folder_path = (Ret false, [MsgErrChecking e]))
  /\ forall c, exists b, fst (is_folder_uploaded fs c folder_path) = Ret b.
Proof.
  split; [reflexivity|]. split.
  - unfold Ledger.is_folder_uploaded, is_folder_uploaded_try. cbn [csv_exists negb].
    destruct (generate_folder_hash fs folder_path) as [h|e]; cbn [read_csv]; eauto.
  - intros c. unfold Ledger.is_folder_uploaded.
    destruct (negb (csv_exists c)); [eauto|].
    destruct (is_folder_uploaded_try _ _ _ _ _ _ _) as [b|e]; eauto.
Qed.

(** C7. For every state of the ledger file and every call
    [record_folder_upload(folder_path, drive_folder_id)] on a folder that
    exists (its fingerprint is [h]):
    - if the file is missing, it is created with exactly the new row;
    - if a row with fingerprint [h] exists, the table is overwritten in
      place: same number of rows, same fingerprints in the same order, the
      rows with fingerprint [h] now hold the new remote id and time, every
      other row is kept, and nothing is appended;
    - if the table has no such row, the new row is appended;
    - a ledger with at most one row per fingerprint is left with at most one
      row per fingerprint, and so is every ledger the program has written
      starting with no file. *)
Theorem record_folder_upload_upsert (fs : local_fs float) (c : csv)
    (now folder_path remote_id h : string) :
  generate_folder_hash fs (abspath folder_path) = Ret h ->
  let new_row :=
    mk_row (abspath folder_path) (str_basename (abspath folder_path)) h remote_id now in
  (c = Missing ->
   record_folder_upload fs c now folder_path remote_id = (Ret true, Table [new_row], []))
  /\ (forall rows,
        c = Table rows -> hash_in h rows = true ->
        record_folder_upload fs c now folder_path remote_id
        = (Ret true, Table (update_rows h remote_id now rows), [])
        /\ length (update_rows h remote_id now rows) = length rows
        /\ map folder_hash (update_rows h remote_id now rows) = map folder_hash rows
        /\ (forall r, In r (update_rows h remote_id now rows) -> folder_hash r = h ->
                      drive_folder_id r = remote_id /\ upload_time r = now)
        /\ (forall r, In r rows -> folder_hash r <> h ->
                      In r (update_rows h remote_id now rows)))
  /\ (forall rows,
        c = Table rows -> hash_in h rows = false ->
        record_folder_upload fs c now folder_path remote_id
        = (Ret true, Table (rows ++ [new_row]), []))
  /\ (one_row_per_fingerprint c ->
      one_row_per_fingerprint (recorded fs c now folder_path remote_id))
  /\ (written_by_record c -> one_row_per_fingerprint c).
Proof.
  intros Hh new_row.
  assert (Hrec : forall c0, record_folder_upload fs c0 now folder_path remote_id =
            match (if negb (csv_exists c0) then Ret (true, Table [new_row])
                   else match read_csv c0 with
                        | Raise e => Raise e
                        | Ret df =>
                            Ret (true, Table (if hash_in h df
                                              then update_rows h remote_id now df
                                              else df ++ [new_row]))
                        end) with
            | Ret (b, c') => (Ret b, c', [])
            | Raise e => (Ret false, c0, [MsgErrRecording e])
            end).
  { intros c0. unfold Ledger.record_folder_upload, record_folder_upload_try.
    now rewrite Hh. }
  split; [|split; [|split; [|split]]].
  - intros ->. now rewrite Hrec.
  - intros rows -> Hin. rewrite Hrec. cbn [csv_exists negb read_csv]. rewrite Hin.
    split; [reflexivity|]. split; [apply update_rows_length|].
    split; [apply update_rows_hashes|]. split.
    + intros r. apply update_rows_hit.
    + intros r. apply update_rows_miss.
  - intros rows -> Hin. rewrite Hrec. cbn [csv_exists negb read_csv]. now rewrite Hin.
  - apply record_preserves_unique.
  - apply written_unique.
Qed.

End Fingerprint.

(** The first upload of [/data/to_upload/Project] creates the ledger with
    one row. *)
Lemma record_folder_upload_upsert_witness :
  record_folder_upload string same same same (sample_fs "1700000000.5") Missing
    "2024-01-01 10:00:00" "/data/to_upload/Project" "id0"
  = (Ret true,
     Table [mk_row "/data/to_upload/Project" "Project"
                   "/data/to_upload/Project_1700000000.5" "id0" "2024-01-01 10:00:00"],
     []).
Proof.
  apply (proj1 (record_folder_upload_upsert string same same same
                  (sample_fs "1700000000.5") Missing "2024-01-01 10:00:00"
                  "/data/to_upload/Project" "id0" "/data/to_upload/Project_1700000000.5"
                  eq_refl) eq_refl).
Defined.

End LedgerFacts.

Module FingerprintFacts.
Import Ledger LedgerSpec Samples LedgerFacts.

Lemma length_append (a b : string) :
  String.length (a +:+ b) = String.length a + String.length b.
Proof. induction a as [|c a IH]; simpl; [reflexivity|now f_equal]. Qed.

Lemma append_cancel_r (x y s : string) : x +:+ s = y +:+ s -> x = y.
Proof.
  revert y. induction x as [|c x IH]; intros [|d y] H.
  - reflexivity.
  - apply (f_equal String.length) in H. rewrite !length_append in H. simpl in H. lia.
  - apply (f_equal String.length) in H. rewrite !length_append in H. simpl in H. lia.
  - simpl in H. injection H as -> H. f_equal. now apply IH.
Qed.

Section Fingerprint.

Variable float : Type.
Variable str_float : float -> string.
Variable md5_hexdigest : string -> string.
Variable abspath : string -> string.

Local Abbreviation generate_folder_hash := (generate_folder_hash float str_float md5_hexdigest abspath).
Local Abbreviation hash_input := (hash_input float str_float).

(** The string hashed holds the path and the rendering of the
    modification time, and nothing else: it changes with either. *)
Lemma hash_input_mtime (p : string) (m1 m2 : float) :
  str_float m1 <> str_float m2 -> hash_input p m1 <> hash_input p m2.
Proof.
  unfold Ledger.hash_input. intros Hm Heq. apply Hm.
  apply append_cancel in Heq. now apply (append_cancel "_") in Heq.
Qed.

Lemma hash_input_path (p1 p2 : string) (m1 m2 : float) :
  p1 <> p2 -> str_float m1 = str_float m2 -> hash_input p1 m1 <> hash_input p2 m2.
Proof.
  unfold Ledger.hash_input. intros Hp Hm Heq. apply Hp. rewrite Hm in Heq.
  now apply append_cancel_r in Heq.
Qed.

(** C9. The fingerprint of a folder that exists is the hash of a string
    made of its absolute path and of its own modification time, and of
    nothing else in the file system.
    - Two computations that see the same absolute path and the same
      modification time give the same fingerprint, whatever the hash is.
    - Two that see the same path at different modification times hash
      different strings, the two times being rendered differently (as
      Python renders different floats); the fingerprints are different
      unless these two strings are a collision of the hash.
    - Likewise two that see different absolute paths with modification
      times rendered alike hash different strings.
    Nothing is assumed of the hash but, where two fingerprints are told
    apart, that it does not collide on the two strings compared. *)
Theorem generate_folder_hash_fingerprint (fs1 fs2 : local_fs float) (p1 p2 : string) :
  fs_exists fs1 (abspath p1) = true ->
  fs_exists fs2 (abspath p2) = true ->
  let m1 := fs_getmtime fs1 (abspath p1) in
  let m2 := fs_getmtime fs2 (abspath p2) in
  let x1 := hash_input (abspath p1) m1 in
  let x2 := hash_input (abspath p2) m2 in
  generate_folder_hash fs1 p1 = Ret (md5_hexdigest x1)
  /\ generate_folder_hash fs2 p2 = Ret (md5_hexdigest x2)
  /\ (abspath p1 = abspath p2 -> m1 = m2 ->
      generate_folder_hash fs1 p1 = generate_folder_hash fs2 p2)
  /\ (abspath p1 = abspath p2 -> m1 <> m2 -> (str_float m1 = str_float m2 -> m1 = m2) ->
      x1 <> x2
      /\ ((md5_hexdigest x1 = md5_hexdigest x2 -> x1 = x2) ->
          generate_folder_hash fs1 p1 <> generate_folder_hash fs2 p2))
  /\ (abspath p1 <> abspath p2 -> str_float m1 = str_float m2 ->
      x1 <> x2
      /\ ((md5_hexdigest x1 = md5_hexdigest x2 -> x1 = x2) ->
          generate_folder_hash fs1 p1 <> generate_folder_hash fs2 p2)).
Proof.
  intros H1 H2 m1 m2 x1 x2.
  rewrite (generate_folder_hash_exists float str_float md5_hexdigest abspath fs1 p1 H1).
  rewrite (generate_folder_hash_exists float str_float md5_hexdigest abspath fs2 p2 H2).
  fold m1 m2. fold x1 x2.
  split; [reflexivity|]. split; [reflexivity|]. split; [|split].
  - intros Hp Hm. subst x1 x2. now rewrite Hp, Hm.
  - intros Hp Hm Hinj.
    assert (Hx : x1 <> x2).
    { subst x1 x2. rewrite <- Hp. apply hash_input_mtime. intros Heq. now apply Hm, Hinj. }
    split; [exact Hx|]. intros Hfree [= Heq]. now apply Hx, Hfree.
  - intros Hp Hm.
    assert (Hx : x1 <> x2) by (subst x1 x2; now apply hash_input_path).
    split; [exact Hx|]. intros Hfree [= Heq]. now apply Hx, Hfree.
Qed.

End Fingerprint.

(** [/data/to_upload/Project] seen at two different modification times,
    under a digest of four characters. *)
Lemma generate_folder_hash_fingerprint_witness :
  generate_folder_hash string same short_digest same (sample_fs "1700000000.5")
                       "/data/to_upload/Project"
  <> generate_folder_hash string same short_digest same (sample_fs "1700000001.5")
                          "/data/to_upload/Project".
Proof.
  destruct (generate_folder_hash_fingerprint string same short_digest same
              (sample_fs "1700000000.5") (sample_fs "1700000001.5")
              "/data/to_upload/Project" "/data/to_upload/Project" eq_refl eq_refl)
    as [_ [_ [_ [Hmtime _]]]].
  destruct Hmtime as [_ Hdiff]; [reflexivity|discriminate|intros H; exact H|].
  apply Hdiff. vm_compute. discriminate.
Defined.

End FingerprintFacts.

Module SkipFacts.
Import DriveApi Ledger LedgerSpec FolderUploader UploadAll Samples LedgerFacts.

Lemma insert_by_In {A} (le : A -> A -> bool) (x y : A) (l : list A) :
  In y (insert_by le x l) <-> y = x \/ In y l.
Proof.
  induction l as [|z l IH]; cbn [insert_by].
  - cbn. intuition.
  - destruct (le x z); cbn [In]; [intuition|]. rewrite IH. intuition.
Qed.

Lemma sort_by_In {A} (le : A -> A -> bool) (y : A) (l : list A) :
  In y (sort_by le l) <-> In y l.
Proof.
  induction l as [|x l IH]; cbn [sort_by fold_right]; [reflexivity|].
  fold (sort_by le l). rewrite insert_by_In, IH. cbn [In]. intuition.
Qed.

Section Skip.

Variable float : Type.
Variable str_float : float -> string.
Variable md5_hexdigest : string -> string.
Variable abspath : string -> string.
Variable executor : Z -> (file_item -> M upload_result) -> list file_item -> M (list upload_result).

(** [os.path.abspath] leaves an absolute path as it is. *)
Hypothesis abspath_idem : forall p, abspath (abspath p) = abspath p.

Local Abbreviation generate_folder_hash := (generate_folder_hash float str_float md5_hexdigest abspath).
Local Abbreviation is_folder_uploaded := (is_folder_uploaded float str_float md5_hexdigest abspath).
Local Abbreviation record_folder_upload := (record_folder_upload float str_float md5_hexdigest abspath).
Local Abbreviation recorded := (recorded float str_float md5_hexdigest abspath).
Local Abbreviation ledger_evolves := (ledger_evolves float str_float md5_hexdigest abspath).
Local Abbreviation get_folders_to_upload := (get_folders_to_upload float str_float md5_hexdigest abspath).
Local Abbreviation upload_all_folders := (upload_all_folders float str_float md5_hexdigest abspath executor).
Local Abbreviation upload_each := (upload_each float str_float md5_hexdigest abspath executor).

Lemma hash_in_app (h : string) (df1 df2 : list row) :
  hash_in h (df1 ++ df2) = hash_in h df1 || hash_in h df2.
Proof. unfold hash_in. apply existsb_app. Qed.

Lemma hash_in_update (h h' id time : string) (df : list row) :
  hash_in h (update_rows h' id time df) = hash_in h df.
Proof.
  destruct (hash_in h df) eqn:Hh.
  - apply hash_in_iff. rewrite update_rows_hashes. now apply hash_in_iff.
  - destruct (hash_in h (update_rows h' id time df)) eqn:Hu; [|reflexivity].
    apply hash_in_iff in Hu. rewrite update_rows_hashes in Hu.
    apply hash_in_iff in Hu. congruence.
Qed.

Lemma recorded_holds (fs : local_fs float) (c : csv) (now p id h : string) :
  holds h c -> holds h (recorded fs c now p id).
Proof.
  intros [rows [-> Hh]].
  destruct (recorded_cases float str_float md5_hexdigest abspath fs (Table rows) now p id)
    as [->|[h' [_ [[[=] _]|[rows' [[= <-] [[_ ->]|[_ ->]]]]]]]].
  - now exists rows.
  - eexists. split; [reflexivity|]. now rewrite hash_in_update.
  - eexists. split; [reflexivity|]. rewrite hash_in_app, Hh. reflexivity.
Qed.

Lemma evolves_holds (c c' : csv) (h : string) :
  ledger_evolves c c' -> holds h c -> holds h c'.
Proof.
  induction 1; intros Hh; [exact Hh|]. apply recorded_holds. auto.
Qed.

(** A call of [record_folder_upload] that answers [True] leaves a row with
    the folder's fingerprint. *)
Lemma record_true_holds (fs : local_fs float) (c c1 : csv) (now p id : string)
    (msgs : list ledger_msg) :
  record_folder_upload fs c now p id = (Ret true, c1, msgs) ->
  fs_exists fs (abspath p) = true
  /\ holds (md5_hexdigest (hash_input float str_float (abspath p) (fs_getmtime fs (abspath p)))) c1.
Proof.
  unfold Ledger.record_folder_upload, record_folder_upload_try.
  unfold Ledger.generate_folder_hash. rewrite abspath_idem.
  destruct (fs_exists fs (abspath p)); cbn [negb]; [|discriminate].
  set (h := md5_hexdigest _).
  intros H. split; [reflexivity|].
  destruct c as [| |rows]; cbn [csv_exists negb read_csv] in H.
  - injection H as <- _. eexists. split; [reflexivity|].
    cbn. now rewrite String.eqb_refl.
  - discriminate.
  - injection H as <- _. eexists. split; [reflexivity|].
    destruct (hash_in h rows) eqn:Hh.
    + now rewrite hash_in_update.
    + rewrite hash_in_app. cbn. rewrite String.eqb_refl. apply orb_true_r.
Qed.

Lemma is_folder_uploaded_holds (fs : local_fs float) (c : csv) (p : string) :
  fs_exists fs (abspath p) = true ->
  holds (md5_hexdigest (hash_input float str_float (abspath p) (fs_getmtime fs (abspath p)))) c ->
  is_folder_uploaded fs c p = (Ret true, []).
Proof.
  intros He [rows [-> Hh]].
  unfold Ledger.is_folder_uploaded, is_folder_uploaded_try. cbn [csv_exists negb].
  rewrite (generate_folder_hash_exists float str_float md5_hexdigest abspath fs p He). cbn [read_csv]. now rewrite Hh.
Qed.

Lemma get_folders_to_upload_In (fs : local_fs float) (c : csv) (dir : string) (e : pending) :
  In e (get_folders_to_upload fs c dir false) ->
  fst (is_folder_uploaded fs c (pe_path e)) <> Ret true.
Proof.
  unfold UploadAll.get_folders_to_upload. rewrite in_flat_map.
  intros [item [_ Hin]].
  destruct (fs_isdir fs (path_join dir item)); [|destruct Hin].
  cbn [orb] in Hin.
  destruct (fst (is_folder_uploaded fs c (path_join dir item))) as [[|]|e0] eqn:Hu;
    cbn [negb] in Hin.
  - destruct Hin.
  - destruct Hin as [<-|[]]. cbn [pe_path]. rewrite Hu. discriminate.
  - destruct Hin as [<-|[]]. cbn [pe_path]. rewrite Hu. discriminate.
Qed.

(** C1. Let a run record the upload of a folder ([record_folder_upload]
    answers [True]), let the ledger then change through further calls of
    [record_folder_upload] only, and let the folder keep its absolute path
    and its modification time. Then in a later run with [force] disabled
    [is_folder_uploaded] answers [True] for it, the folder is not in the
    list [get_folders_to_upload] returns, and [upload_all_folders] is the
    upload loop over a list of folders that does not hold it: no remote
    request is made for it. When it is the only entry of the directory, the
    run returns with the ledger and the remote state untouched. *)
Theorem skip_recorded_folder (fs1 fs2 : local_fs float) (c0 c1 c2 : csv)
    (now folder_path remote_id : string) (msgs : list ledger_msg) :
  record_folder_upload fs1 c0 now folder_path remote_id = (Ret true, c1, msgs) ->
  ledger_evolves c1 c2 ->
  fs_exists fs2 (abspath folder_path) = true ->
  fs_getmtime fs2 (abspath folder_path) = fs_getmtime fs1 (abspath folder_path) ->
  is_folder_uploaded fs2 c2 folder_path = (Ret true, [])
  /\ (forall to_upload_dir e,
        In e (get_folders_to_upload fs2 c2 to_upload_dir false) -> pe_path e <> folder_path)
  /\ (forall clock to_upload_dir parent_id workers s,
        exists folders,
          (forall e, In e folders -> pe_path e <> folder_path)
          /\ upload_all_folders fs2 clock to_upload_dir parent_id false workers c2 s
             = upload_each fs2 clock parent_id workers folders c2 s)
  /\ (forall clock to_upload_dir parent_id workers s,
        (forall item, In item (fs_listdir fs2 to_upload_dir) ->
                      path_join to_upload_dir item = folder_path) ->
        upload_all_folders fs2 clock to_upload_dir parent_id false workers c2 s
        = (Returned, c2, s)).
Proof.
  intros Hrec Hev He Hm.
  apply record_true_holds in Hrec as [_ Hh].
  apply (evolves_holds _ _ _ Hev) in Hh. rewrite <- Hm in Hh.
  pose proof (is_folder_uploaded_holds fs2 c2 folder_path He Hh) as Hup.
  assert (Hnot : forall dir e, In e (get_folders_to_upload fs2 c2 dir false) ->
                               pe_path e <> folder_path).
  { intros dir e Hin Heq. apply get_folders_to_upload_In in Hin.
    rewrite Heq, Hup in Hin. now apply Hin. }
  split; [exact Hup|]. split; [exact Hnot|]. split.
  - intros clock dir parent workers s. unfold UploadAll.upload_all_folders.
    destruct (get_folders_to_upload fs2 c2 dir false) as [|e l] eqn:Hl.
    + exists []. split; [intros e []|reflexivity].
    + exists (sort_by size_le (e :: l)). split; [|reflexivity].
      intros e' Hin. apply sort_by_In in Hin. apply (Hnot dir). now rewrite Hl.
  - intros clock dir parent workers s Honly. unfold UploadAll.upload_all_folders.
    destruct (get_folders_to_upload fs2 c2 dir false) as [|e l] eqn:Hl; [reflexivity|].
    exfalso. assert (Hin : In e (get_folders_to_upload fs2 c2 dir false))
      by (rewrite Hl; now left).
    apply (Hnot dir e Hin).
    unfold UploadAll.get_folders_to_upload in Hin. rewrite in_flat_map in Hin.
    destruct Hin as [item [Hitem Hin]].
    destruct (fs_isdir fs2 (path_join dir item)); [|destruct Hin].
    destruct (_ || _); [|destruct Hin].
    destruct Hin as [<-|[]]. cbn [pe_path]. now apply Honly.
Qed.

End Skip.

(** [/data/to_upload/Project] is recorded by a first run and seen again,
    untouched, by a second run: the second run does nothing. *)
Lemma skip_recorded_folder_witness :
  let fs := sample_fs "1700000000.5" in
  let c1 := recorded string same same same fs Missing "2024-01-01 10:00:00"
                     "/data/to_upload/Project" "id0" in
  upload_all_folders string same same same sequential_executor fs (fun _ => "later")
                     "/data/to_upload" None false 5 c1 empty_store
  = (Returned, c1, empty_store).
Proof.
  intros fs c1.
  apply (proj2 (proj2 (proj2
           (skip_recorded_folder string same same same sequential_executor
              (fun p => eq_refl) fs fs Missing c1 c1
              "2024-01-01 10:00:00" "/data/to_upload/Project" "id0" []
              eq_refl (evolves_refl _ _ _ _ c1) eq_refl eq_refl)))).
  intros item Hin. vm_compute in Hin. destruct Hin as [<-|[]]. reflexivity.
Defined.

End SkipFacts.

Module FallbackFacts.
Import DriveApi FolderUploader Spec Samples PyFacts RemoteFacts UploadFileFacts UploadFileStore ExistenceProbe.

Lemma outcomes_app (evs1 evs2 : list event) :
  outcomes (evs1 ++ evs2) = outcomes evs1 ++ outcomes evs2.
Proof.
  induction evs1 as [|e evs1 IH]; [reflexivity|].
  destruct e as [q r|md r|n|m]; cbn [app outcomes]; try exact IH.
  destruct m; cbn [app]; try exact IH; now rewrite IH.
Qed.

Lemma retry_machine_outcomes (md : metadata) (q : query) (remaining retry_count : nat)
    (evs : list event) (r : res string) :
  retry_machine md q remaining retry_count evs r -> outcomes evs = [].
Proof. induction 1; cbn [outcomes]; auto. Qed.

(** [upload_file] reports no outcome itself. *)
Lemma upload_file_outcomes (file : local_file) (parent_id : option string)
    (s s1 : st) (r : res string) :
  upload_file file parent_id s = (r, s1) ->
  exists evs, trace s1 = trace s ++ evs /\ outcomes evs = [].
Proof.
  rewrite upload_file_eq. destruct (lf_size file) as [size|].
  2:{ intros [= <- <-]. exists []. now rewrite app_nil_r. }
  cbn zeta. destruct (list_result _ s) as [items|e] eqn:Hl.
  - destruct (truthy _).
    + intros [= <- <-]. eexists. unfold with_events. cbn [trace].
      rewrite trace_after_list, <- app_assoc. split; reflexivity.
    + intros H. apply upload_attempts_machine in H as [evs [Ht Hm]].
      eexists. rewrite Ht, trace_after_list, <- app_assoc. split; [reflexivity|].
      cbn [app outcomes]. exact (retry_machine_outcomes _ _ _ _ _ _ Hm).
  - intros [= <- <-]. eexists. rewrite trace_after_list. split; reflexivity.
Qed.

(** One turn of the fallback loop returns and reports one outcome, that of
    its file. *)
Lemma fallback_step (folder_ids : gmap path string) (item : file_item) (s : st) :
  exists s1 evs,
    fallback_item folder_ids item s = (Ret tt, s1)
    /\ trace s1 = trace s ++ evs
    /\ outcomes evs = [fi_rel_path item].
Proof.
  unfold fallback_item.
  unfold try_except. cbn zeta.
  destruct (truthy (folder_ids !! dirname (fi_rel_path item))).
  - unfold bind.
    destruct (upload_file (local_of item) (folder_ids !! dirname (fi_rel_path item)) s)
      as [[id|e] s'] eqn:Hup;
      apply upload_file_outcomes in Hup as [evs [Ht Ho]];
      unfold print; rewrite emit_eq; eexists; eexists; (split; [reflexivity|]);
      unfold with_events; cbn [trace]; rewrite Ht, <- app_assoc;
      (split; [reflexivity|]); rewrite outcomes_app, Ho; reflexivity.
  - unfold print. rewrite emit_eq. eexists; eexists. split; [reflexivity|].
    split; reflexivity.
Qed.

(** The fallback loop returns, whatever the store does, and reports one
    outcome per file of the batch, in the order of the batch. *)
Lemma sequential_fallback_outcomes (folder_ids : gmap path string) (batch_files : list file_item) :
  forall s, exists s1 evs,
    sequential_fallback folder_ids batch_files s = (Ret tt, s1)
    /\ trace s1 = trace s ++ evs
    /\ outcomes evs = map fi_rel_path batch_files.
Proof.
  unfold sequential_fallback.
  induction batch_files as [|item rest IH]; intros s.
  - exists s, []. cbn. now rewrite app_nil_r.
  - cbn [for_each]. unfold bind at 1.
    destruct (fallback_step folder_ids item s) as [s1 [evs1 [Hstep [Ht1 Ho1]]]].
    rewrite Hstep.
    destruct (IH s1) as [s2 [evs2 [Hrest [Ht2 Ho2]]]].
    exists s2, (evs1 ++ evs2). split; [exact Hrest|].
    split; [now rewrite Ht2, Ht1, app_assoc|].
    rewrite outcomes_app, Ho1, Ho2. reflexivity.
Qed.

Lemma healthy_answer (s : st) : healthy s -> hd Answer (faults s) = Answer.
Proof. intros [-> _]. reflexivity. Qed.

Lemma healthy_after_list (q : query) (s : st) : healthy s -> healthy (after_list q s).
Proof. intros [Hf Hi]. split; [cbn; now rewrite Hf|exact Hi]. Qed.

Lemma healthy_with_events (evs : list event) (s : st) : healthy s -> healthy (with_events evs s).
Proof. intros [Hf Hi]. split; [exact Hf|exact Hi]. Qed.

Lemma healthy_after_create (md : metadata) (s : st) :
  healthy s ->
  create_result s = Ret (fresh_id (next_id s))
  /\ files (after_create md s) = files s ++ [new_file md s]
  /\ folder_cache (after_create md s) = folder_cache s
  /\ healthy (after_create md s).
Proof.
  intros [Hf [Hi Hc]]. unfold create_result, after_create, healthy, ids_nonempty.
  rewrite Hf. cbn. repeat split; try assumption.
  intros f [Hin|[<-|[]]]%in_app_or; [now apply Hi|apply fresh_id_nonempty].
Qed.

(** On a healthy store, a file that can be read is stored under its parent,
    or found there, and everything else stays. *)
Lemma upload_file_healthy (file : local_file) (parent_id : string) (file_size : Z) (s : st) :
  healthy s ->
  lf_size file = Some file_size ->
  parent_id <> "" ->
  exists id s1,
    upload_file file (Some parent_id) s = (Ret id, s1)
    /\ healthy s1
    /\ (forall g, In g (files s) -> In g (files s1))
    /\ exists f, In f (files s1)
                 /\ rf_name f = lf_name file /\ rf_parent f = Some parent_id
                 /\ rf_trashed f = false.
Proof.
  intros Hh Hsize Hp. set (q := probe (lf_name file) (Some parent_id)).
  destruct (selected q s) as [|g rest] eqn:Hsel.
  - rewrite upload_file_eq, Hsize. cbn zeta. fold q.
    rewrite (list_result_answered _ _ (healthy_answer _ Hh)), Hsel.
    cbn [map head truthy]. unfold max_retries. cbn [upload_attempts]. unfold try_except.
    rewrite files_create_eq.
    set (md := upload_request (lf_name file) (Some parent_id) file_size).
    destruct (healthy_after_create md _ (healthy_after_list q s Hh)) as [Hcr [Hf [_ Hh']]].
    rewrite Hcr. eexists; eexists. split; [reflexivity|]. split; [exact Hh'|].
    rewrite Hf. split; [intros g Hg; apply in_or_app; now left|].
    exists (new_file md (after_list q s)). split; [apply in_or_app; right; now left|].
    unfold md, upload_request, new_file, opt_if_truthy. cbn.
    apply truthy_Some in Hp. unfold truthy in Hp. rewrite Hp. auto.
  - destruct Hh as [Hfa Hi].
    assert (Hin : In g (selected q s)) by (rewrite Hsel; now left).
    destruct (upload_file_found file parent_id s file_size g Hsize) as [g' [rest' [Hg' Hcall]]];
      [now rewrite Hfa|exact (proj1 Hi)|exact Hin|].
    fold q in Hg'. rewrite Hsel in Hg'. injection Hg' as <- <-.
    eexists; eexists. split; [exact Hcall|].
    split; [apply healthy_with_events, healthy_after_list; now split|].
    split; [auto|]. exists g.
    apply selected_In in Hin as [Hin Hm]. apply probe_matches in Hm. auto.
Qed.

End FallbackFacts.

Module FallbackTheorems.
Import DriveApi FolderUploader Spec Samples PyFacts RemoteFacts UploadFileFacts FallbackFacts.

(** On a healthy store, with every parent id known and every file readable,
    the fallback loop stores every file of the batch. *)
Lemma sequential_fallback_healthy (folder_ids : gmap path string) (batch_files : list file_item) :
  forall s,
    healthy s ->
    (forall item, In item batch_files ->
       (exists size, fi_stat item = Some size)
       /\ truthy (folder_ids !! dirname (fi_rel_path item)) = true) ->
    exists s1,
      sequential_fallback folder_ids batch_files s = (Ret tt, s1)
      /\ healthy s1
      /\ (forall g, In g (files s) -> In g (files s1))
      /\ forall item, In item batch_files ->
           exists pid f,
             folder_ids !! dirname (fi_rel_path item) = Some pid
             /\ In f (files s1) /\ stored_as item pid f.
Proof.
  unfold sequential_fallback.
  induction batch_files as [|item rest IH]; intros s Hh Hall.
  - exists s. split; [reflexivity|]. split; [exact Hh|]. split; [auto|]. intros item [].
  - cbn [for_each]. unfold bind at 1.
    destruct (Hall item (or_introl eq_refl)) as [[size Hsize] Htr].
    destruct (truthy_inv _ Htr) as [pid [Hpid Hne]].
    destruct (upload_file_healthy (local_of item) pid size s Hh Hsize Hne)
      as [id [s1 [Hup [Hh1 [Hmono [f [Hf Hst]]]]]]].
    assert (Hstep : fallback_item folder_ids item s
                    = (Ret tt, with_events [EvPrint (MsgUploaded (fi_rel_path item))] s1)).
    { unfold fallback_item, try_except. cbn zeta. rewrite Htr. unfold bind.
      rewrite Hpid, Hup. reflexivity. }
    rewrite Hstep.
    destruct (IH (with_events [EvPrint (MsgUploaded (fi_rel_path item))] s1))
      as [s2 [Hrest [Hh2 [Hmono2 Hall2]]]].
    { now apply healthy_with_events. }
    { intros i Hi. apply Hall. now right. }
    exists s2. split; [exact Hrest|]. split; [exact Hh2|].
    split; [intros g Hg; apply Hmono2, Hmono, Hg|].
    intros i [<-|Hi]; [|now apply Hall2].
    exists pid, f. split; [exact Hpid|]. split; [apply Hmono2, Hf|exact Hst].
Qed.

Section Pool.

Variable executor : Z -> (file_item -> M upload_result) -> list file_item -> M (list upload_result).

(** The processing of the pool's results returns: the retry of a failed
    file catches what it raises. *)
Lemma retry_failed_returns (folder_ids : gmap path string) (rel_path : path)
    (item : file_item) (s : st) :
  exists s1, retry_failed folder_ids rel_path item s = (Ret tt, s1).
Proof.
  unfold retry_failed, try_except. cbn zeta.
  destruct (truthy _); [|unfold ret; eauto].
  unfold bind, print. rewrite emit_eq.
  destruct (upload_file _ _ _) as [[id|e] s1]; rewrite emit_eq; eauto.
Qed.

Lemma process_results_returns (folder_ids : gmap path string)
    (results : list (path * upload_result)) :
  forall s, exists s1,
    for_each results
      (fun entry _ =>
         let (rel_path, result) := entry : path * upload_result in
         match result with
         | UploadOk _ _ => print (MsgUploaded rel_path)
         | UploadErr _ item =>
             print (MsgErrUploading rel_path None) ;;
             retry_failed folder_ids rel_path item
         end) tt s
    = (Ret tt, s1).
Proof.
  induction results as [|[rel [id item|err item]] rest IH]; intros s.
  - cbn. unfold ret. eauto.
  - cbn [for_each]. unfold bind at 1, print. rewrite emit_eq. apply IH.
  - cbn [for_each]. unfold bind at 1. unfold bind at 1. unfold print. rewrite emit_eq.
    destruct (retry_failed_returns folder_ids rel item
                (with_events [EvPrint (MsgErrUploading rel None)] s)) as [s1 ->].
    apply IH.
Qed.

(** A batch never ends the run: [upload_batch] returns. *)
Lemma upload_batch_returns (folder_ids : gmap path string) (max_workers : Z)
    (batch_files : list file_item) (results : list (path * upload_result)) (s : st) :
  exists results' s1,
    upload_batch executor folder_ids max_workers batch_files results s = (Ret results', s1).
Proof.
  unfold upload_batch, try_except. unfold bind at 1.
  destruct (parallel_upload_files executor batch_files folder_ids max_workers s)
    as [[res|e] s1].
  - unfold bind at 1.
    destruct (process_results_returns folder_ids res s1) as [s2 ->]. unfold ret. eauto.
  - unfold bind, print. rewrite !emit_eq.
    destruct (sequential_fallback_outcomes folder_ids batch_files
                (with_events [EvPrint MsgFallback] (with_events [EvPrint (MsgErrBatch e)] s1)))
      as [s2 [evs [-> _]]].
    unfold ret. eauto.
Qed.

Lemma upload_files_returns (folder_ids : gmap path string) (max_workers : Z)
    (file_items : list file_item) (s : st) :
  exists results s1,
    upload_files executor folder_ids max_workers file_items s = (Ret results, s1).
Proof.
  unfold upload_files. generalize (@nil (path * upload_result)) as results.
  revert s. induction (batches batch_size file_items) as [|b bs IH]; intros s results.
  - cbn. unfold ret. eauto.
  - cbn [for_each]. unfold bind at 1.
    destruct (upload_batch_returns folder_ids max_workers b results s) as [res' [s1 ->]].
    apply IH.
Qed.

(** C6, as the code has it. When the pool raises for a batch,
    [upload_batch] does not raise: it prints the error, announces the
    fallback and runs the sequential loop over the batch. The loop reports
    exactly one outcome per file of the batch, in the order of the batch;
    on a healthy store, with every file readable and every parent id
    known, every file of the batch is in the store afterwards, under its
    parent. The fallback adds nothing to the per-file results: [results] is
    as it was before the batch. And the loop over the batches returns in
    every case. *)
Theorem upload_batch_sequential_fallback (folder_ids : gmap path string) (max_workers : Z)
    (batch_files : list file_item) (results : list (path * upload_result))
    (s s1 : st) (e : exn) :
  parallel_upload_files executor batch_files folder_ids max_workers s = (Raise e, s1) ->
  (exists s2 evs,
      upload_batch executor folder_ids max_workers batch_files results s = (Ret results, s2)
      /\ trace s2 = trace s1 ++ [EvPrint (MsgErrBatch e); EvPrint MsgFallback] ++ evs
      /\ outcomes evs = map fi_rel_path batch_files
      /\ (healthy s1 ->
          (forall item, In item batch_files ->
             (exists size, fi_stat item = Some size)
             /\ truthy (folder_ids !! dirname (fi_rel_path item)) = true) ->
          healthy s2
          /\ forall item, In item batch_files ->
               exists pid f,
                 folder_ids !! dirname (fi_rel_path item) = Some pid
                 /\ In f (files s2) /\ stored_as item pid f))
  /\ (forall file_items s0,
        exists results' s0',
          upload_files executor folder_ids max_workers file_items s0 = (Ret results', s0')).
Proof.
  intros Hpool. split; [|intros; apply upload_files_returns].
  set (s1' := with_events [EvPrint MsgFallback] (with_events [EvPrint (MsgErrBatch e)] s1)).
  destruct (sequential_fallback_outcomes folder_ids batch_files s1')
    as [s2 [evs [Hfb [Ht Ho]]]].
  assert (Hbatch : upload_batch executor folder_ids max_workers batch_files results s
                   = (Ret results, s2)).
  { unfold upload_batch, try_except. unfold bind at 1. rewrite Hpool.
    unfold bind, print. rewrite !emit_eq. fold s1'. rewrite Hfb. reflexivity. }
  exists s2, evs. split; [exact Hbatch|]. split.
  { rewrite Ht. unfold s1', with_events. cbn [trace]. now rewrite <- !app_assoc. }
  split; [exact Ho|].
  intros Hh Hall.
  destruct (sequential_fallback_healthy folder_ids batch_files s1') as [s2' [Hfb' [Hh2 [_ Hst]]]].
  { unfold s1'. now do 2 apply healthy_with_events. }
  { exact Hall. }
  rewrite Hfb in Hfb'. injection Hfb' as <-. split; [exact Hh2|exact Hst].
Qed.

End Pool.

(** A pool of no worker raises when it is made; the batch [a.txt] goes
    through the fallback and the file is stored under the root folder. *)
Lemma upload_batch_sequential_fallback_witness :
  exists s2,
    upload_batch sequential_executor root_only 0 [a_txt] [] empty_store = (Ret [], s2)
    /\ outcomes (trace s2) = [["a.txt"]].
Proof.
  destruct (upload_batch_sequential_fallback sequential_executor root_only 0 [a_txt] []
              empty_store empty_store ValueError eq_refl)
    as [[s2 [evs [Hb [Ht [Ho _]]]]] _].
  exists s2. split; [exact Hb|]. rewrite Ht. exact Ho.
Defined.

(** C6, as stated, fails in its last part: after the fallback the file is
    in the store and its outcome has been printed, and the per-file results
    of the run hold no entry for it. *)
Lemma fallback_leaves_no_result :
  fst (parallel_upload_files sequential_executor [a_txt] root_only 0 empty_store)
  = Raise ValueError
  /\ fst (upload_files sequential_executor root_only 0 [a_txt] empty_store) = Ret []
  /\ files (snd (upload_files sequential_executor root_only 0 [a_txt] empty_store))
     = [mk_remote_file "id0" "a.txt" (Some "root") false false]
  /\ outcomes (trace (snd (upload_files sequential_executor root_only 0 [a_txt] empty_store)))
     = [["a.txt"]].
Proof. vm_compute. repeat split; reflexivity. Qed.

End FallbackTheorems.

Module ScanFacts.
Import DriveApi FolderUploader Spec.

Lemma node_induction (P : node -> Prop) :
  (forall name size, P (File name size)) ->
  (forall name children, Forall P children -> P (Dir name children)) ->
  forall n, P n.
Proof.
  intros HF HD. fix IH 1. intros [name size|name children]; [apply HF|].
  apply HD. induction children as [|c cs IHcs]; constructor; [apply IH|apply IHcs].
Qed.

(** A directory the walk visits below [parent] is the walked node itself,
    or is listed in the entries of a directory the walk visits. *)
Lemma walk_node_listed (n : node) :
  forall parent root entries,
    In (root, entries) (walk_node parent n) ->
    (exists name, n = Dir name entries /\ root = parent ++ [name])
    \/ exists root' entries' name,
        In (root', entries') (walk_node parent n)
        /\ In (Dir name entries) entries' /\ root = root' ++ [name].
Proof.
  induction n as [name size|name children IH] using node_induction;
    intros parent root entries Hin; [destruct Hin|].
  cbn [walk_node] in Hin |- *. destruct Hin as [[= <- <-]|Hin].
  - left. exists name. auto.
  - right. apply in_flat_map in Hin as [c [Hc Hin]].
    rewrite List.Forall_forall in IH.
    destruct (IH c Hc _ _ _ Hin) as [[nm [-> ->]]|[root' [entries' [nm [Hin' [Hd ->]]]]]].
    + exists (parent ++ [name]), children, nm. split; [now left|]. auto.
    + exists root', entries', nm. split; [|auto].
      right. apply in_flat_map. exists c. auto.
Qed.

Lemma os_walk_listed (top : list node) (root : path) (entries : list node) :
  In (root, entries) (os_walk top) ->
  root = []
  \/ exists root' entries' name,
      In (root', entries') (os_walk top)
      /\ In (Dir name entries) entries' /\ root = root' ++ [name].
Proof.
  unfold os_walk. intros [[= <- <-]|Hin]; [now left|]. right.
  apply in_flat_map in Hin as [c [Hc Hin]].
  destruct (walk_node_listed c _ _ _ Hin)
    as [[nm [-> ->]]|[root' [entries' [nm [Hin' [Hd ->]]]]]].
  - exists [], top, nm. split; [now left|]. auto.
  - exists root', entries', nm. split; [|auto].
    right. apply in_flat_map. exists c. auto.
Qed.

Lemma collect_dirs_In (root : path) (entries : list node) (y : folder_item) :
  In y (collect_dirs root entries) <->
  exists name children,
    In (Dir name children) entries
    /\ y = mk_folder_item (root ++ [name]) name (dirname (root ++ [name])).
Proof.
  induction entries as [|[nm sz|nm cs] rest IH]; cbn [collect_dirs In].
  - split; [intros []|intros [? [? [[] _]]]].
  - rewrite IH. split; intros [name [children [Hin Hy]]]; exists name, children.
    + split; [now right|exact Hy].
    + destruct Hin as [[=]|Hin]. auto.
  - rewrite IH. split.
    + intros [<-|[name [children [Hin Hy]]]].
      * exists nm, cs. split; [now left|reflexivity].
      * exists name, children. split; [now right|exact Hy].
    + intros [name [children [[[= -> ->]|Hin] Hy]]]; [now left|].
      right. exists name, children. auto.
Qed.

Lemma collect_folder_items (triples : list (path * list node))
    (file_items : list file_item) (folder_items : list folder_item) :
  collect triples = Ret (file_items, folder_items) ->
  folder_items = flat_map (fun t => collect_dirs (fst t) (snd t)) triples.
Proof.
  revert file_items folder_items.
  induction triples as [|[root entries] rest IH]; intros fs ds; cbn [collect flat_map].
  - now intros [= <- <-].
  - destruct (collect_files root entries) as [fs0|e]; [|discriminate].
    destruct (collect rest) as [[fs1 ds1]|e]; [|discriminate].
    intros [= <- <-]. cbn [fst snd]. now rewrite (IH fs1 ds1 eq_refl).
Qed.

Lemma dirname_snoc (root : path) (name : string) : dirname (root ++ [name]) = root.
Proof. unfold dirname. apply removelast_last. Qed.

(** The scan is closed under parents: an entry is [root/name] with parent
    [root], and when [root] is not the scan root it is itself an entry. *)
Lemma scan_closed (tree : list node) (file_items : list file_item)
    (folder_items : list folder_item) :
  collect (os_walk tree) = Ret (file_items, folder_items) ->
  forall x, In x folder_items ->
    exists root name,
      fo_rel_path x = root ++ [name] /\ fo_parent_path x = root
      /\ (root <> [] -> exists y, In y folder_items /\ fo_rel_path y = root).
Proof.
  intros Hc x Hx. apply collect_folder_items in Hc. subst folder_items.
  apply in_flat_map in Hx as [[root entries] [Ht Hx]]. cbn [fst snd] in Hx.
  apply collect_dirs_In in Hx as [name [children [Hd ->]]].
  exists root, name. cbn [fo_rel_path fo_parent_path].
  split; [reflexivity|]. split; [apply dirname_snoc|].
  intros Hroot.
  destruct (os_walk_listed _ _ _ Ht) as [->|[root' [entries' [nm [Ht' [Hd' ->]]]]]];
    [contradiction|].
  exists (mk_folder_item (root' ++ [nm]) nm (dirname (root' ++ [nm]))).
  split; [|reflexivity].
  apply in_flat_map. exists (root', entries'). split; [exact Ht'|].
  apply collect_dirs_In. exists nm, entries. auto.
Qed.

End ScanFacts.

Module OrderFacts.
Import DriveApi FolderUploader Spec SkipFacts ScanFacts.

Lemma insert_by_sorted (x : folder_item) (l : list folder_item) :
  StronglySorted by_depth l -> StronglySorted by_depth (insert_by depth_le x l).
Proof.
  induction 1 as [|y l Hs IH Hall]; cbn [insert_by].
  - constructor; constructor.
  - unfold depth_le at 1. destruct (Nat.leb_spec (depth x) (depth y)) as [Hle|Hlt].
    + constructor; [now constructor|].
      constructor; [exact Hle|].
      rewrite List.Forall_forall in Hall |- *. intros z Hz.
      specialize (Hall z Hz). unfold by_depth in *. lia.
    + constructor; [exact IH|].
      rewrite List.Forall_forall in Hall |- *. intros z Hz.
      apply insert_by_In in Hz as [->|Hz]; [unfold by_depth; lia|now apply Hall].
Qed.

Lemma sort_by_sorted (l : list folder_item) : StronglySorted by_depth (sort_by depth_le l).
Proof.
  induction l as [|x l IH]; cbn [sort_by fold_right]; [constructor|].
  now apply insert_by_sorted.
Qed.

Lemma sorted_after (l1 l2 : list folder_item) (x : folder_item) :
  StronglySorted by_depth (l1 ++ x :: l2) -> forall y, In y l2 -> by_depth x y.
Proof.
  induction l1 as [|z l1 IH]; cbn [app]; intros Hs y Hy.
  - apply StronglySorted_inv in Hs as [_ Hall].
    rewrite List.Forall_forall in Hall. now apply Hall.
  - apply StronglySorted_inv in Hs as [Hs _]. now apply IH.
Qed.

(** Sorted by depth, the entries of a scan come parents first. *)
Lemma sorted_scan_parents_first (tree : list node) (file_items : list file_item)
    (folder_items : list folder_item) :
  collect (os_walk tree) = Ret (file_items, folder_items) ->
  parents_first (sort_by depth_le folder_items).
Proof.
  intros Hc l1 x l2 Hl Hp.
  assert (Hx : In x folder_items).
  { apply (sort_by_In depth_le). rewrite Hl. apply in_or_app. right. now left. }
  destruct (scan_closed _ _ _ Hc x Hx) as [root [name [Hrel [Hpar Hroot]]]].
  rewrite Hpar in Hp |- *. destruct (Hroot Hp) as [y [Hy Hyrel]].
  exists y. split; [|exact Hyrel].
  assert (Hlt : (depth y < depth x)%nat).
  { unfold depth. rewrite Hrel, Hyrel, length_app. cbn [length].
    destruct root; [contradiction|]. cbn [length]. lia. }
  apply (sort_by_In depth_le) in Hy. rewrite Hl in Hy.
  apply in_app_or in Hy as [Hy|[<-|Hy]]; [exact Hy|lia|].
  pose proof (sort_by_sorted folder_items) as Hs. rewrite Hl in Hs.
  pose proof (sorted_after _ _ _ Hs y Hy) as Hxy. unfold by_depth in Hxy. lia.
Qed.

Lemma parents_first_prefix (l : list folder_item) (x : folder_item) :
  parents_first (l ++ [x]) -> parents_first l.
Proof.
  intros H l1 y l2 Hl. apply (H l1 y (l2 ++ [x])).
  rewrite Hl, <- app_assoc. reflexivity.
Qed.

(** The two ways [group_add] changes the groups. *)
Lemma group_add_spec (x : folder_item) (groups : list (path * list folder_item)) :
  (exists a g b,
      groups = a ++ (fo_parent_path x, g) :: b
      /\ group_add x groups = a ++ (fo_parent_path x, g ++ [x]) :: b)
  \/ ((forall g, In g groups -> fst g <> fo_parent_path x)
      /\ group_add x groups = groups ++ [(fo_parent_path x, [x])]).
Proof.
  induction groups as [|[k g] rest IH]; cbn [group_add].
  - right. split; [intros g []|reflexivity].
  - destruct (decide (k = fo_parent_path x)) as [->|Hne].
    + left. exists [], g, rest. split; reflexivity.
    + destruct IH as [[a [g' [b [-> ->]]]]|[Hnone ->]].
      * left. exists ((k, g) :: a), g', b. split; reflexivity.
      * right. split; [|reflexivity].
        intros g0 [<-|Hin]; [exact Hne|now apply Hnone].
Qed.

Lemma folder_groups_snoc (l : list folder_item) (x : folder_item) :
  folder_groups (l ++ [x]) = group_add x (folder_groups l).
Proof. unfold folder_groups. now rewrite fold_left_app. Qed.

Lemma split_middle {A} (a b done rest : list A) (e e' : A) :
  a ++ e :: b = done ++ e' :: rest ->
  (done = a /\ e' = e /\ rest = b)
  \/ (exists m, a = done ++ e' :: m /\ rest = m ++ e :: b)
  \/ (exists m, done = a ++ e :: m /\ b = m ++ e' :: rest).
Proof.
  revert done. induction a as [|x a IH]; intros [|y done]; cbn [app]; intros [= H1 H2].
  - left. subst. auto.
  - right. right. exists done. subst. auto.
  - right. left. exists a. subst. auto.
  - subst y. destruct (IH done H2) as [[-> [-> ->]]|[[m [-> ->]]|[m [-> ->]]]].
    + left. auto.
    + right. left. exists m. auto.
    + right. right. exists m. auto.
Qed.

(** The groups of a parents-first list: every entry is in the group of its
    parent, and the group of a parent that is not the root comes after a
    group that holds the parent's own entry. *)
Lemma folder_groups_order (l : list folder_item) :
  parents_first l ->
  (forall y, In y l -> exists g, In (fo_parent_path y, g) (folder_groups l) /\ In y g)
  /\ (forall done parent_path items rest,
        folder_groups l = done ++ (parent_path, items) :: rest ->
        parent_path = []
        \/ exists g y, In g done /\ In y (snd g) /\ fo_rel_path y = parent_path).
Proof.
  induction l as [|x l IH] using rev_ind; intros Hpf.
  - split; [intros y []|]. intros [|? ?] ? ? ? [=].
  - destruct (IH (parents_first_prefix _ _ Hpf)) as [G1 G2]. clear IH.
    rewrite folder_groups_snoc.
    destruct (group_add_spec x (folder_groups l)) as [[a [g [b [Hold ->]]]]|[Hnone ->]].
    + split.
      * intros y [Hy|[<-|[]]]%in_app_or.
        -- destruct (G1 y Hy) as [g0 [Hg0 Hy0]]. rewrite Hold in Hg0.
           apply in_app_or in Hg0 as [Hg0|[[= Hk <-]|Hg0]].
           ++ exists g0. split; [apply in_or_app; now left|exact Hy0].
           ++ exists (g ++ [x]). split.
              ** rewrite <- Hk. apply in_or_app. right. now left.
              ** apply in_or_app. now left.
           ++ exists g0. split; [apply in_or_app; right; now right|exact Hy0].
        -- exists (g ++ [x]). split; [apply in_or_app; right; now left|].
           apply in_or_app. right. now left.
      * intros done p items rest Hsplit.
        destruct (split_middle _ _ _ _ _ _ Hsplit)
          as [[-> [[= -> ->] ->]]|[[m [-> ->]]|[m [-> ->]]]].
        -- apply (G2 a (fo_parent_path x) g b Hold).
        -- apply (G2 done p items (m ++ (fo_parent_path x, g) :: b)).
           rewrite Hold, <- app_assoc. reflexivity.
        -- destruct (G2 (a ++ (fo_parent_path x, g) :: m) p items rest)
             as [->|[g0 [y [Hg0 [Hy Hrel]]]]]; [|now left|].
           { rewrite Hold, <- app_assoc. reflexivity. }
           right. apply in_app_or in Hg0 as [Hg0|[<-|Hg0]].
           ++ exists g0, y. split; [apply in_or_app; now left|auto].
           ++ exists (fo_parent_path x, g ++ [x]), y.
              split; [apply in_or_app; right; now left|].
              split; [apply in_or_app; now left|exact Hrel].
           ++ exists g0, y. split; [apply in_or_app; right; now right|auto].
    + split.
      * intros y [Hy|[<-|[]]]%in_app_or.
        -- destruct (G1 y Hy) as [g0 [Hg0 Hy0]].
           exists g0. split; [apply in_or_app; now left|exact Hy0].
        -- exists [x]. split; [apply in_or_app; right; now left|now left].
      * intros done p items rest Hsplit.
        destruct rest as [|r rest _] using rev_ind.
        -- apply app_inj_tail in Hsplit as [<- [= <- <-]].
           destruct (decide (fo_parent_path x = [])) as [Hroot|Hroot];
             [now left|right].
           destruct (Hpf l x [] eq_refl Hroot) as [y [Hy Hrel]].
           destruct (G1 y Hy) as [g0 [Hg0 Hy0]].
           exists (fo_parent_path y, g0), y. auto.
        -- rewrite app_comm_cons, app_assoc in Hsplit.
           apply app_inj_tail in Hsplit as [Hsplit _].
           exact (G2 done p items rest Hsplit).
Qed.

End OrderFacts.

Module LoopFacts.
Import DriveApi FolderUploader Spec PyFacts RemoteFacts UploadFileFacts DriveApiFacts
       FallbackFacts.

Lemma for_each_app {A B} (body : A -> B -> M B) (l1 l2 : list A) (acc : B) (s : st) :
  for_each (l1 ++ l2) body acc s
  = (let! acc' := for_each l1 body acc in for_each l2 body acc') s.
Proof.
  revert acc s. induction l1 as [|x l1 IH]; intros acc s; cbn [app for_each].
  - reflexivity.
  - unfold bind. destruct (body x acc s) as [[acc'|e] s1]; [|reflexivity].
    rewrite IH. reflexivity.
Qed.

(** A loop whose turns return returns. *)
Lemma for_each_returns {A B} (body : A -> B -> M B) (l : list A) :
  (forall x acc s, exists acc' s', body x acc s = (Ret acc', s')) ->
  forall acc s, exists acc' s', for_each l body acc s = (Ret acc', s').
Proof.
  intros Hbody. induction l as [|x l IH]; intros acc s; cbn [for_each].
  - unfold ret. eauto.
  - unfold bind. destruct (Hbody x acc s) as [acc' [s' ->]]. apply IH.
Qed.

(** A loop whose turns return and keep an invariant returns and keeps it. *)
Lemma for_each_inv {A B} (I : list A -> B -> st -> Prop) (body : A -> B -> M B) (l : list A) :
  (forall done x acc s,
      In x l -> I done acc s ->
      exists acc' s', body x acc s = (Ret acc', s') /\ I (done ++ [x]) acc' s') ->
  forall done acc s,
    I done acc s ->
    exists acc' s', for_each l body acc s = (Ret acc', s') /\ I (done ++ l) acc' s'.
Proof.
  induction l as [|x l IH]; intros Hbody done acc s HI; cbn [for_each].
  - exists acc, s. rewrite app_nil_r. auto.
  - unfold bind. destruct (Hbody done x acc s (or_introl eq_refl) HI) as [acc' [s' [-> HI']]].
    destruct (IH (fun d y a t Hy => Hbody d y a t (or_intror Hy)) _ _ _ HI')
      as [acc'' [s'' [Hloop HI'']]].
    exists acc'', s''. split; [exact Hloop|]. now rewrite <- app_assoc in HI''.
Qed.

Lemma emits_ret {A} (P : event -> Prop) (a : A) : emits P (ret a).
Proof. intros s r s1 [= <- <-]. exists []. now rewrite app_nil_r. Qed.

Lemma emits_raise {A} (P : event -> Prop) (e : exn) : emits P (@raise A e).
Proof. intros s r s1 [= <- <-]. exists []. now rewrite app_nil_r. Qed.

Lemma emits_bind {A B} (P : event -> Prop) (c : M A) (k : A -> M B) :
  emits P c -> (forall a, emits P (k a)) -> emits P (bind c k).
Proof.
  intros Hc Hk s r s1. unfold bind. destruct (c s) as [[a|e] s0] eqn:Hcs.
  - intros Hks. destruct (Hc _ _ _ Hcs) as [evs1 [Ht1 HP1]].
    destruct (Hk a _ _ _ Hks) as [evs2 [Ht2 HP2]].
    exists (evs1 ++ evs2). split; [now rewrite Ht2, Ht1, app_assoc|].
    apply List.Forall_app. auto.
  - intros [= <- <-]. exact (Hc _ _ _ Hcs).
Qed.

Lemma emits_try {A} (P : event -> Prop) (c : M A) (h : exn -> M A) :
  emits P c -> (forall e, emits P (h e)) -> emits P (try_except c h).
Proof.
  intros Hc Hh s r s1. unfold try_except. destruct (c s) as [[a|e] s0] eqn:Hcs.
  - intros [= <- <-]. exact (Hc _ _ _ Hcs).
  - intros Hhs. destruct (Hc _ _ _ Hcs) as [evs1 [Ht1 HP1]].
    destruct (Hh e _ _ _ Hhs) as [evs2 [Ht2 HP2]].
    exists (evs1 ++ evs2). split; [now rewrite Ht2, Ht1, app_assoc|].
    apply List.Forall_app. auto.
Qed.

Lemma emits_emit (P : event -> Prop) (e : event) : P e -> emits P (emit e).
Proof.
  intros HP s r s1. rewrite emit_eq. intros [= <- <-]. exists [e].
  split; [reflexivity|]. now constructor.
Qed.

Lemma emits_for_each {A B} (P : event -> Prop) (body : A -> B -> M B) (l : list A) :
  (forall x acc, emits P (body x acc)) -> forall acc, emits P (for_each l body acc).
Proof.
  intros Hbody. induction l as [|x l IH]; intros acc; cbn [for_each].
  - apply emits_ret.
  - apply emits_bind; [apply Hbody|apply IH].
Qed.

Lemma emits_files_list (P : event -> Prop) (q : query) :
  (forall r, P (EvList q r)) -> emits P (files_list q).
Proof.
  intros HP s r s1. rewrite files_list_eq. intros [= <- <-].
  exists [EvList q (ids_of (list_result q s))]. split; [reflexivity|]. now constructor.
Qed.

Lemma emits_files_create (P : event -> Prop) (md : metadata) :
  (forall r, P (EvCreate md r)) -> emits P (files_create md).
Proof.
  intros HP s r s1. rewrite files_create_eq. intros [= <- <-].
  exists [EvCreate md (create_result s)]. split; [apply trace_after_create|]. now constructor.
Qed.

Lemma emits_cache_get (P : event -> Prop) (k : string) : emits P (cache_get k).
Proof. intros s r s1 [= <- <-]. exists []. now rewrite app_nil_r. Qed.

Lemma emits_cache_put (P : event -> Prop) (k v : string) : emits P (cache_put k v).
Proof. intros s r s1 [= <- <-]. exists []. cbn. now rewrite app_nil_r. Qed.

(** The requests of [find_or_create_folder] and of [batch_create_folders]
    name the parent they are given. *)
Lemma emits_find_or_create_folder (folder_name : string) (parent_id : option string) :
  emits (under (opt_if_truthy parent_id)) (find_or_create_folder folder_name parent_id).
Proof.
  unfold find_or_create_folder. apply emits_bind; [apply emits_cache_get|].
  intros [id|]; [apply emits_ret|].
  apply emits_bind; [apply emits_files_list; reflexivity|].
  intros [|f items].
  - apply emits_bind; [apply emits_files_create; reflexivity|].
    intros id. apply emits_bind; [apply emits_cache_put|]. intros _. apply emits_ret.
  - apply emits_bind; [apply emits_cache_put|]. intros _. apply emits_ret.
Qed.

Lemma emits_batch_create_folders (folders : list string) (parent_id : option string) :
  emits (under (opt_if_truthy parent_id)) (batch_create_folders folders parent_id).
Proof.
  unfold batch_create_folders. destruct (length folders <=? 5)%nat.
  - apply emits_for_each. intros name created.
    apply emits_bind; [apply emits_find_or_create_folder|]. intros id. apply emits_ret.
  - apply emits_for_each. intros batch created.
    apply emits_for_each. intros name created'.
    apply emits_try.
    + apply emits_bind; [apply emits_files_create; reflexivity|]. intros id. apply emits_ret.
    + intros e. apply emits_bind; [apply emits_emit; exact I|]. intros _.
      apply emits_try.
      * apply emits_bind; [apply emits_find_or_create_folder|]. intros id. apply emits_ret.
      * intros e2. apply emits_bind; [apply emits_emit; exact I|]. intros _. apply emits_ret.
Qed.

Lemma emits_create_under (parent_path : path) (items : list folder_item)
    (parent_id : option string) (folder_ids : gmap path string) :
  emits (under (opt_if_truthy parent_id)) (create_under parent_path items parent_id folder_ids).
Proof.
  unfold create_under. apply emits_try.
  - apply emits_bind; [apply emits_batch_create_folders|]. intros created.
    apply emits_for_each. intros item ids.
    destruct (created !! fo_name item); [apply emits_ret|].
    apply emits_bind; [apply emits_emit; exact I|]. intros _. apply emits_ret.
  - intros e. apply emits_bind; [apply emits_emit; exact I|]. intros _.
    apply emits_for_each. intros item ids. apply emits_try.
    + apply emits_bind; [apply emits_find_or_create_folder|]. intros id. apply emits_ret.
    + intros e2. apply emits_bind; [apply emits_emit; exact I|]. intros _. apply emits_ret.
Qed.

(** The creation of a group returns, whatever the store does. *)
Lemma create_under_returns (parent_path : path) (items : list folder_item)
    (parent_id : option string) (folder_ids : gmap path string) (s : st) :
  exists folder_ids' s1,
    create_under parent_path items parent_id folder_ids s = (Ret folder_ids', s1).
Proof.
  unfold create_under, try_except at 1.
  match goal with |- context [(bind ?c ?k) s] => destruct (bind c k s) as [[ids|e] s1] end.
  - eauto.
  - unfold bind at 1, print. rewrite emit_eq. apply for_each_returns.
    intros item ids s2. unfold try_except, bind at 1.
    destruct (find_or_create_folder _ _ s2) as [[id|e2] s3].
    + unfold ret. eauto.
    + unfold bind, print. rewrite emit_eq. unfold ret. eauto.
Qed.

Lemma resolve_parent_eq (folder_id : string) (parent_path : path)
    (folder_ids : gmap path string) (s : st) :
  resolve_parent folder_id parent_path folder_ids s
  = if truthy (folder_ids !! parent_path) then (Ret (folder_ids !! parent_path), s)
    else (Ret (Some folder_id), with_events [EvPrint (MsgWarnParentMissing parent_path)] s).
Proof. unfold resolve_parent. destruct (truthy _); reflexivity. Qed.

Lemma create_group_returns (folder_id : string) (group : path * list folder_item)
    (folder_ids : gmap path string) (s : st) :
  exists folder_ids' s1, create_group folder_id group folder_ids s = (Ret folder_ids', s1).
Proof.
  unfold create_group, bind. rewrite resolve_parent_eq.
  destruct (truthy _); apply create_under_returns.
Qed.

End LoopFacts.

Module HealthyFacts.
Import DriveApi FolderUploader Spec PyFacts RemoteFacts UploadFileFacts UploadFileStore
       DriveApiFacts FallbackFacts LoopFacts.

Lemma healthy_with_cache (k v : string) (s : st) :
  healthy s -> v <> "" -> healthy (with_cache k v s).
Proof.
  intros [Hf [Hi Hc]] Hv. split; [exact Hf|]. split; [exact Hi|].
  intros k' v'. cbn [with_cache folder_cache]. rewrite lookup_insert.
  destruct (decide (k = k')); [intros [= <-]; exact Hv|apply Hc].
Qed.

(** On a healthy store [find_or_create_folder] returns a well-formed id. *)
Lemma find_or_create_folder_healthy (folder_name : string) (parent_id : option string) (s : st) :
  healthy s ->
  exists id s1,
    find_or_create_folder folder_name parent_id s = (Ret id, s1) /\ healthy s1 /\ id <> "".
Proof.
  intros Hh. rewrite find_or_create_folder_eq. cbn zeta.
  destruct (folder_cache s !! cache_key folder_name parent_id) as [id|] eqn:Hc.
  - exists id, s. split; [reflexivity|]. split; [exact Hh|].
    destruct Hh as [_ [_ Hcache]]. exact (Hcache _ _ Hc).
  - rewrite (list_result_answered _ _ (healthy_answer _ Hh)).
    pose proof (healthy_after_list (folder_query folder_name parent_id) s Hh) as Hh1.
    destruct (selected (folder_query folder_name parent_id) s) as [|f items] eqn:Hsel.
    + destruct (healthy_after_create (folder_metadata folder_name parent_id) _ Hh1)
        as [-> [_ [_ Hh2]]].
      eexists; eexists. split; [reflexivity|].
      split; [apply healthy_with_cache; [exact Hh2|]|]; apply fresh_id_nonempty.
    + assert (Hf : rf_id f <> "").
      { destruct Hh as [_ [Hi _]]. apply Hi.
        apply (selected_In (folder_query folder_name parent_id)). rewrite Hsel. now left. }
      eexists; eexists. split; [reflexivity|].
      split; [now apply healthy_with_cache|exact Hf].
Qed.

Lemma concat_batches_aux {A} (size : nat) :
  (0 < size)%nat ->
  forall (fuel : nat) (l : list A),
    (length l <= fuel)%nat -> concat (batches_aux fuel size l) = l.
Proof.
  intros Hsize. induction fuel as [|fuel IH]; intros l Hlen.
  - destruct l; [reflexivity|cbn in Hlen; lia].
  - destruct l as [|x l]; [reflexivity|].
    cbn [batches_aux concat]. rewrite IH; [apply take_drop|].
    rewrite length_drop. cbn [length] in *. lia.
Qed.

Lemma concat_batches {A} (size : nat) (l : list A) :
  (0 < size)%nat -> concat (batches size l) = l.
Proof. intros Hsize. apply concat_batches_aux; [exact Hsize|lia]. Qed.

Lemma resolved_insert (done : list string) (created : gmap string string) (n id : string) :
  resolved done created -> id <> "" -> resolved (done ++ [n]) (<[n := id]> created).
Proof.
  intros [Hall Hne] Hid. split.
  - intros n' Hin. rewrite lookup_insert. destruct (decide (n = n')); [eauto|].
    apply in_app_or in Hin as [Hin|[Heq|[]]]; [now apply Hall|contradiction].
  - intros n' id'. rewrite lookup_insert.
    destruct (decide (n = n')); [intros [= <-]; exact Hid|apply Hne].
Qed.

(** On a healthy store [batch_create_folders] resolves every name. *)
Lemma batch_create_folders_healthy (folders : list string) (parent_id : option string) (s : st) :
  healthy s ->
  exists created s1,
    batch_create_folders folders parent_id s = (Ret created, s1)
    /\ healthy s1 /\ resolved folders created.
Proof.
  intros Hh. unfold batch_create_folders.
  assert (H0 : resolved [] (∅ : gmap string string)).
  { split; [intros n []|]. intros n id. rewrite lookup_empty. discriminate. }
  destruct (length folders <=? 5)%nat.
  - destruct (for_each_inv (fun done created s' => healthy s' /\ resolved done created)
                (fun folder_name created_folders =>
                   let! folder_id := find_or_create_folder folder_name parent_id in
                   ret (<[folder_name := folder_id]> created_folders))
                folders) with (done := @nil string) (acc := (∅ : gmap string string)) (s := s)
      as [created [s1 [Hloop [Hh1 Hres]]]].
    + intros done n created s' _ [Hh' Hres]. unfold bind.
      destruct (find_or_create_folder_healthy n parent_id s' Hh') as [id [s2 [-> [Hh2 Hid]]]].
      eexists; eexists. split; [reflexivity|]. split; [exact Hh2|].
      now apply resolved_insert.
    + auto.
    + exists created, s1. auto.
  - destruct (for_each_inv
                (fun done created s' => healthy s' /\ resolved (concat done) created)
                (fun batch_folders created_folders =>
                   for_each batch_folders
                     (fun folder_name created_folders =>
                        try_except
                          (let! folder_id := files_create (folder_metadata folder_name parent_id) in
                           ret (<[folder_name := folder_id]> created_folders))
                          (fun e =>
                             print (MsgErrCreatingFolder folder_name e) ;;
                             try_except
                               (let! folder_id := find_or_create_folder folder_name parent_id in
                                ret (<[folder_name := folder_id]> created_folders))
                               (fun e2 =>
                                  print (MsgFailedCreateFolder folder_name e2) ;;
                                  ret created_folders)))
                     created_folders)
                (batches 50 folders))
      with (done := @nil (list string)) (acc := (∅ : gmap string string)) (s := s)
      as [created [s1 [Hloop [Hh1 Hres]]]].
    + intros done batch created s' _ [Hh' Hres].
      match goal with |- context [for_each batch ?body] =>
        destruct (for_each_inv
                    (fun done' created' s'' =>
                       healthy s'' /\ resolved (concat done ++ done') created')
                    body batch) with (done := @nil string) (acc := created) (s := s')
          as [created' [s'' [Hin [Hh'' Hres'']]]]
      end.
      * intros done' n created' s'' _ [Hh'' Hres'']. unfold try_except, bind at 1.
        rewrite files_create_eq.
        destruct (healthy_after_create (folder_metadata n parent_id) _ Hh'')
          as [-> [_ [_ Hh3]]].
        eexists; eexists. split; [reflexivity|]. split; [exact Hh3|].
        rewrite app_assoc. apply resolved_insert; [exact Hres''|apply fresh_id_nonempty].
      * rewrite app_nil_r. auto.
      * exists created', s''. split; [exact Hin|]. split; [exact Hh''|].
        rewrite concat_app. cbn [concat]. now rewrite app_nil_r.
    + auto.
    + exists created, s1. split; [exact Hloop|]. split; [exact Hh1|].
      cbn [app] in Hres. rewrite concat_batches in Hres; [exact Hres|lia].
Qed.

Lemma known_insert_same (folder_ids : gmap path string) (k : path) (id : string) :
  id <> "" -> known (<[k := id]> folder_ids) k.
Proof. intros Hid. unfold known. rewrite lookup_insert_eq. now apply truthy_Some. Qed.

Lemma known_insert_other (folder_ids : gmap path string) (k k' : path) (id : string) :
  id <> "" -> known folder_ids k' -> known (<[k := id]> folder_ids) k'.
Proof.
  intros Hid Hk. unfold known. rewrite lookup_insert.
  destruct (decide (k = k')); [now apply truthy_Some|exact Hk].
Qed.

(** On a healthy store the creation of a group gives every entry of the
    group an id and keeps the ids there are. *)
Lemma create_under_healthy (parent_path : path) (items : list folder_item)
    (parent_id : option string) (folder_ids : gmap path string) (s : st) :
  healthy s ->
  exists folder_ids' s1,
    create_under parent_path items parent_id folder_ids s = (Ret folder_ids', s1)
    /\ healthy s1
    /\ (forall k, known folder_ids k -> known folder_ids' k)
    /\ (forall y, In y items -> known folder_ids' (fo_rel_path y)).
Proof.
  intros Hh. unfold create_under, try_except. unfold bind at 1.
  destruct (batch_create_folders_healthy (map fo_name items) parent_id s Hh)
    as [created [s1 [-> [Hh1 [Hall Hne]]]]].
  match goal with |- context [for_each items ?body] =>
    destruct (for_each_inv
                (fun done ids s' =>
                   healthy s'
                   /\ (forall k, known folder_ids k -> known ids k)
                   /\ (forall y, In y done -> known ids (fo_rel_path y)))
                body items) with (done := @nil folder_item) (acc := folder_ids) (s := s1)
      as [ids' [s2 [Hloop [Hh2 [Hkeep Hnew]]]]]
  end.
  - intros done item ids s' Hin [Hh' [Hkeep Hnew]].
    destruct (Hall (fo_name item)) as [id Hid]; [now apply in_map|].
    rewrite Hid. pose proof (Hne _ _ Hid) as Hid'.
    eexists; eexists. split; [reflexivity|]. split; [exact Hh'|]. split.
    + intros k Hk. apply known_insert_other; [exact Hid'|now apply Hkeep].
    + intros y [Hy|[<-|[]]]%in_app_or.
      * apply known_insert_other; [exact Hid'|now apply Hnew].
      * now apply known_insert_same.
  - split; [exact Hh1|]. split; [auto|intros y []].
  - rewrite Hloop. exists ids', s2. auto.
Qed.

Lemma create_group_healthy (folder_id : string) (group : path * list folder_item)
    (folder_ids : gmap path string) (s : st) :
  healthy s ->
  exists folder_ids' s1,
    create_group folder_id group folder_ids s = (Ret folder_ids', s1)
    /\ healthy s1
    /\ (forall k, known folder_ids k -> known folder_ids' k)
    /\ (forall y, In y (snd group) -> known folder_ids' (fo_rel_path y)).
Proof.
  intros Hh. unfold create_group, bind. rewrite resolve_parent_eq.
  destruct (truthy _); apply create_under_healthy;
    [exact Hh|now apply healthy_with_events].
Qed.

(** On a healthy store, after the loop over some groups every entry of
    these groups has an id, and so has the root. *)
Lemma create_folders_healthy (folder_id : string) (groups : list (path * list folder_item))
    (s : st) :
  healthy s ->
  folder_id <> "" ->
  exists folder_ids s1,
    create_folders folder_id groups {[ [] := folder_id ]} s = (Ret folder_ids, s1)
    /\ healthy s1
    /\ known folder_ids []
    /\ (forall g y, In g groups -> In y (snd g) -> known folder_ids (fo_rel_path y)).
Proof.
  intros Hh Hid. unfold create_folders.
  destruct (for_each_inv
              (fun done ids s' =>
                 healthy s' /\ known ids []
                 /\ (forall g y, In g done -> In y (snd g) -> known ids (fo_rel_path y)))
              (create_group folder_id) groups)
    with (done := @nil (path * list folder_item))
         (acc := ({[ [] := folder_id ]} : gmap path string)) (s := s)
    as [ids [s1 [Hloop [Hh1 [Hroot Hall]]]]].
  - intros done g ids s' _ [Hh' [Hroot Hall]].
    destruct (create_group_healthy folder_id g ids s' Hh') as [ids' [s2 [-> [Hh2 [Hkeep Hnew]]]]].
    eexists; eexists. split; [reflexivity|]. split; [exact Hh2|].
    split; [now apply Hkeep|].
    intros g' y [Hg|[<-|[]]]%in_app_or Hy; [apply Hkeep; now apply (Hall g')|now apply Hnew].
  - split; [exact Hh|]. split; [|intros g y []].
    unfold known. rewrite lookup_singleton_eq. now apply truthy_Some.
  - exists ids, s1. auto.
Qed.

End HealthyFacts.

Module HierarchyTheorems.
Import DriveApi FolderUploader Spec Samples PyFacts RemoteFacts UploadFileFacts
       FallbackFacts ScanFacts OrderFacts LoopFacts HealthyFacts.

(** C3. Take the groups of the sorted entries of a scan, and any group of
    them, with parent path [parent_path], after the groups [done].
    - Order: [parent_path] is the root, or one of the groups before holds
      the entry of [parent_path] itself.
    - The loop handles the group in the state the groups before leave.
    - On a store that answers, started with the root seeded, that state has
      an id for [parent_path]: the map contains it.
    - If the map has no id for [parent_path] all the same, the group is
      created with a warning printed first and every request naming the
      root folder as parent, and the turn returns.
    - The loop over the groups returns in every case: it never ends the
      run. *)
Theorem parent_known_before_children (tree : list node) (file_items : list file_item)
    (folder_items : list folder_item) (folder_id : string)
    (done rest : list (path * list folder_item)) (parent_path : path)
    (items : list folder_item) :
  collect (os_walk tree) = Ret (file_items, folder_items) ->
  folder_groups (sort_by depth_le folder_items) = done ++ (parent_path, items) :: rest ->
  (parent_path = []
   \/ exists g y, In g done /\ In y (snd g) /\ fo_rel_path y = parent_path)
  /\ (forall folder_ids s,
        create_folders folder_id (done ++ (parent_path, items) :: rest) folder_ids s
        = (let! folder_ids1 := create_folders folder_id done folder_ids in
           let! folder_ids2 := create_group folder_id (parent_path, items) folder_ids1 in
           create_folders folder_id rest folder_ids2) s)
  /\ (forall s,
        healthy s -> folder_id <> "" ->
        exists folder_ids s1,
          create_folders folder_id done {[ [] := folder_id ]} s = (Ret folder_ids, s1)
          /\ healthy s1 /\ known folder_ids parent_path)
  /\ (forall folder_ids s,
        ~ known folder_ids parent_path -> folder_id <> "" ->
        exists folder_ids' s1 evs,
          create_group folder_id (parent_path, items) folder_ids s = (Ret folder_ids', s1)
          /\ trace s1 = trace s ++ EvPrint (MsgWarnParentMissing parent_path) :: evs
          /\ Forall (under (Some folder_id)) evs)
  /\ (forall groups folder_ids s,
        exists folder_ids' s1,
          create_folders folder_id groups folder_ids s = (Ret folder_ids', s1)).
Proof.
  intros Hscan Hgroups.
  pose proof (sorted_scan_parents_first _ _ _ Hscan) as Hpf.
  destruct (folder_groups_order _ Hpf) as [_ Horder].
  pose proof (Horder _ _ _ _ Hgroups) as Hparent.
  split; [exact Hparent|]. split; [|split; [|split]].
  - intros ids s. unfold create_folders. rewrite for_each_app. reflexivity.
  - intros s Hh Hid.
    destruct (create_folders_healthy folder_id done s Hh Hid)
      as [ids [s1 [Hloop [Hh1 [Hroot Hall]]]]].
    exists ids, s1. split; [exact Hloop|]. split; [exact Hh1|].
    destruct Hparent as [->|[g [y [Hg [Hy <-]]]]]; [exact Hroot|].
    exact (Hall g y Hg Hy).
  - intros ids s Hunknown Hid.
    assert (Htr : truthy (ids !! parent_path) = false).
    { unfold known in Hunknown. now destruct (truthy (ids !! parent_path)). }
    unfold create_group, bind. cbn [fst snd]. rewrite resolve_parent_eq, Htr.
    set (s0 := with_events _ s).
    destruct (create_under_returns parent_path items (Some folder_id) ids s0)
      as [ids' [s1 Hcall]].
    destruct (emits_create_under parent_path items (Some folder_id) ids _ _ _ Hcall)
      as [evs [Ht Hevs]].
    exists ids', s1, evs. split; [exact Hcall|].
    split; [rewrite Ht; unfold s0, with_events; cbn [trace]; now rewrite <- app_assoc|].
    unfold opt_if_truthy in Hevs. apply truthy_Some in Hid. now rewrite Hid in Hevs.
  - intros groups ids s. unfold create_folders.
    apply for_each_returns. intros g acc s'. apply create_group_returns.
Qed.

(** In [Project/], the group of [sub] (which holds [sub/empty]) comes after
    the group of the root (which holds [sub]); on the empty store, seeded
    with the root folder's id, the map has an id for [sub] when the group
    is reached. *)
Lemma parent_known_before_children_witness :
  exists folder_ids s1,
    create_folders "root" [([], [sub_entry])] {[ [] := "root" ]} empty_store
    = (Ret folder_ids, s1)
    /\ known folder_ids ["sub"].
Proof.
  destruct (parent_known_before_children project
              [mk_file_item ["a.txt"] 10 (Some 10%Z);
               mk_file_item ["sub"; "b.txt"] 20 (Some 20%Z)]
              [sub_entry; empty_entry] "root"
              [([], [sub_entry])] [] ["sub"] [empty_entry] eq_refl eq_refl)
    as [_ [_ [H _]]].
  destruct (H empty_store) as [ids [s1 [Hloop [_ Hk]]]].
  - split; [reflexivity|]. split; [intros f []|].
    intros k v. cbn. rewrite lookup_empty. discriminate.
  - discriminate.
  - exists ids, s1. auto.
Defined.

End HierarchyTheorems.

(* ===================================================================== *)
(** ** Scenarios *)
(* ===================================================================== *)

Module Scenarios.
Import DriveApi FolderUploader Spec Samples.

(** One run over [Project/] on the empty store: the folders [Project],
    [sub] and [empty], then [a.txt] under [Project] and [b.txt] under
    [sub]. *)
Example upload_folder_project :
  fst (upload_folder sequential_executor "Project" project None 5 empty_store) = Ret "id0"
  /\ files (snd (upload_folder sequential_executor "Project" project None 5 empty_store))
     = [mk_remote_file "id0" "Project" None true false;
        mk_remote_file "id1" "sub" (Some "id0") true false;
        mk_remote_file "id2" "empty" (Some "id1") true false;
        mk_remote_file "id3" "a.txt" (Some "id0") false false;
        mk_remote_file "id4" "b.txt" (Some "id1") false false].
Proof. vm_compute. split; reflexivity. Qed.

(** A second run over the same tree finds everything and stores nothing. *)
Example upload_folder_project_again :
  let s1 := snd (upload_folder sequential_executor "Project" project None 5 empty_store) in
  let s1 := mk_st (files s1) (next_id s1) [] [] ∅ in
  files (snd (upload_folder sequential_executor "Project" project None 5 s1)) = files s1.
Proof. vm_compute. reflexivity. Qed.

(** Five upload requests refused with 503: the waits are 2, 4, 8, 16 and 32
    seconds, and the call fails after the fifth. *)
Example upload_file_exhaustion :
  fst (upload_file notes (Some "P") always_refusing) = Raise (UploadFailed 5)
  /\ sleeps (trace (snd (upload_file notes (Some "P") always_refusing)))
     = [2; 4; 8; 16; 32]%Z
  /\ length (List.filter is_create (trace (snd (upload_file notes (Some "P") always_refusing))))
     = 5%nat
  /\ files (snd (upload_file notes (Some "P") always_refusing)) = [].
Proof. vm_compute. repeat split; reflexivity. Qed.

(** An upload request refused with 403: the error leaves the call at once. *)
Example upload_file_forbidden :
  is_transient 403 = false
  /\ fst (upload_file notes (Some "P") forbidding_store) = Raise (HttpError 403)
  /\ sleeps (trace (snd (upload_file notes (Some "P") forbidding_store))) = [].
Proof. vm_compute. repeat split; reflexivity. Qed.

(** The sort is stable: entries of the same depth keep their order. *)
Example sort_by_depth_stable :
  sort_by depth_le
    [mk_folder_item ["b"; "x"] "x" ["b"]; mk_folder_item ["b"] "b" [];
     mk_folder_item ["a"; "y"] "y" ["a"]; mk_folder_item ["a"] "a" []]
  = [mk_folder_item ["b"] "b" []; mk_folder_item ["a"] "a" [];
     mk_folder_item ["b"; "x"] "x" ["b"]; mk_folder_item ["a"; "y"] "y" ["a"]].
Proof. reflexivity. Qed.

End Scenarios.

(* ===================================================================== *)
(** * Further properties of the code *)
(* ===================================================================== *)

Module SliceFacts.
Import DriveApi Spec Coverage.

Lemma batches_aux_lookup {A} (size : nat) :
  (0 < size)%nat ->
  forall (fuel : nat) (l : list A) (k : nat),
    (length l <= fuel)%nat ->
    batches_aux fuel size l !! k
    = if (k * size <? length l)%nat then Some (take size (drop (k * size) l)) else None.
Proof.
  intros Hsize. induction fuel as [|fuel IH]; intros l k Hlen.
  - destruct l; [|cbn in Hlen; lia]. cbn [batches_aux length].
    destruct (Nat.ltb_spec (k * size) 0); [lia|]. now destruct k.
  - destruct l as [|x l].
    + cbn [batches_aux length]. destruct (Nat.ltb_spec (k * size) 0); [lia|]. now destruct k.
    + cbn [batches_aux]. destruct k as [|k].
      * cbn [lookup list_lookup Nat.mul drop]. destruct (Nat.ltb_spec 0 (length (x :: l))).
        -- reflexivity.
        -- cbn [length] in *. lia.
      * change ((take size (x :: l) :: batches_aux fuel size (drop size (x :: l))) !! S k)
          with (batches_aux fuel size (drop size (x :: l)) !! k).
        rewrite IH by (rewrite length_drop; cbn [length] in *; lia).
        rewrite length_drop, drop_drop.
        replace (size + k * size)%nat with (S k * size)%nat by lia.
        destruct (Nat.ltb_spec (k * size) (length (x :: l) - size)),
                 (Nat.ltb_spec (S k * size) (length (x :: l))); try reflexivity; lia.
Qed.

(** X1. The slices [l[i:i+size] for i in range(0, len(l), size)], for a
    positive [size]: the [k]-th one is [l[k*size : k*size+size]] and there
    is one for every [k] with [k*size < len(l)]; put end to end they give
    [l] back; none is empty and none is longer than [size]. *)
Theorem batches_slices {A} (size : nat) (l : list A) :
  (0 < size)%nat ->
  (forall k, batches size l !! k
             = if (k * size <? length l)%nat then Some (take size (drop (k * size) l)) else None)
  /\ concat (batches size l) = l
  /\ Forall (fun b => b <> [] /\ (length b <= size)%nat) (batches size l).
Proof.
  intros Hsize.
  assert (Hk : forall k, batches size l !! k
             = if (k * size <? length l)%nat then Some (take size (drop (k * size) l)) else None).
  { intros k. unfold batches. now apply batches_aux_lookup. }
  split; [exact Hk|]. split.
  - unfold batches.
    assert (Hc : forall (fuel : nat) (m : list A),
               (length m <= fuel)%nat -> concat (batches_aux fuel size m) = m).
    { induction fuel as [|fuel IH]; intros m Hlen.
      - destruct m; [reflexivity|cbn in Hlen; lia].
      - destruct m as [|x m]; [reflexivity|].
        cbn [batches_aux concat]. rewrite IH; [apply take_drop|].
        rewrite length_drop. cbn [length] in *. lia. }
    now apply Hc.
  - apply Forall_lookup. intros k b Hb. rewrite Hk in Hb.
    destruct (Nat.ltb_spec (k * size) (length l)) as [Hlt|]; [|discriminate].
    injection Hb as <-. split.
    + intros Hnil. apply (f_equal length) in Hnil.
      rewrite length_take, length_drop in Hnil. cbn [length] in Hnil. lia.
    + rewrite length_take. lia.
Qed.

Lemma batches_slices_witness :
  batches 2 [1; 2; 3; 4; 5]%nat !! 2%nat = Some [5]%nat
  /\ concat (batches 2 [1; 2; 3; 4; 5]%nat) = [1; 2; 3; 4; 5]%nat.
Proof.
  destruct (batches_slices 2 [1; 2; 3; 4; 5]%nat) as [Hk [Hc _]]; [lia|].
  split; [exact (Hk 2%nat)|exact Hc].
Defined.

(** X2. The chunk size of a resumable upload: it never decreases when the
    file grows, it lies between 256 KiB and 10 MiB, and it is a multiple of
    256 KiB. *)
Theorem chunk_size_policy (a b : Z) :
  (a <= b)%Z ->
  (chunk_size a <= chunk_size b)%Z
  /\ (256 * 1024 <= chunk_size a <= 10 * 1024 * 1024)%Z
  /\ (256 * 1024 | chunk_size a)%Z.
Proof.
  intros Hab. unfold chunk_size.
  destruct (Z.ltb_spec (100 * 1024 * 1024) a), (Z.ltb_spec (100 * 1024 * 1024) b),
           (Z.ltb_spec (10 * 1024 * 1024) a), (Z.ltb_spec (10 * 1024 * 1024) b),
           (Z.ltb_spec a (1 * 1024 * 1024)), (Z.ltb_spec b (1 * 1024 * 1024));
    try lia;
    (split; [lia|split; [lia|]]);
    first [ exists 40%Z; reflexivity | exists 20%Z; reflexivity
          | exists 1%Z; reflexivity | exists 4%Z; reflexivity ].
Qed.

Lemma chunk_size_policy_witness :
  (chunk_size 5 <= chunk_size 200000000)%Z /\ (256 * 1024 | chunk_size 5)%Z.
Proof.
  destruct (chunk_size_policy 5 200000000) as [H1 [_ H3]]; [lia|]. split; assumption.
Defined.

End SliceFacts.

Module BackoffFacts.
Import DriveApi Spec Coverage PyFacts RemoteFacts UploadFileFacts UploadFileStore RetryFacts
       RetryTheorems.

Lemma sleeps_app (evs1 evs2 : list event) : sleeps (evs1 ++ evs2) = sleeps evs1 ++ sleeps evs2.
Proof.
  induction evs1 as [|e evs1 IH]; [reflexivity|].
  destruct e; cbn [app sleeps]; try exact IH. now rewrite IH.
Qed.

Lemma backoff_prefix_bound (n : nat) :
  (total (firstn n [2; 4; 8; 16; 32]%Z) <= 62)%Z
  /\ Forall (fun w => (2 <= w <= 32)%Z) (firstn n [2; 4; 8; 16; 32]%Z)
  /\ (length (firstn n [2; 4; 8; 16; 32]%Z) <= 5)%nat.
Proof.
  do 6 (destruct n as [|n];
        [cbn; split; [lia|split; [repeat constructor; lia|lia]]|]).
  cbn. split; [lia|split; [repeat constructor; lia|lia]].
Qed.

(** X3. Whatever the store does, one call of [upload_file] sleeps at most
    five times, between 2 and 32 seconds each time (the cap of 60 seconds
    is never reached), and at most 62 seconds in all. *)
Theorem upload_file_total_wait (file : local_file) (parent_id : option string)
    (s s1 : st) (r : res string) :
  upload_file file parent_id s = (r, s1) ->
  exists evs,
    trace s1 = trace s ++ evs
    /\ (total (sleeps evs) <= 62)%Z
    /\ Forall (fun w => (2 <= w <= 32)%Z) (sleeps evs)
    /\ (length (sleeps evs) <= 5)%nat.
Proof.
  rewrite upload_file_eq.
  assert (Hnone : forall s', trace s' = trace s \/
                    (exists e, trace s' = trace s ++ [e] /\ sleeps [e] = []) \/
                    (exists e e', trace s' = trace s ++ [e; e'] /\ sleeps [e; e'] = []) ->
            exists evs, trace s' = trace s ++ evs
              /\ (total (sleeps evs) <= 62)%Z
              /\ Forall (fun w => (2 <= w <= 32)%Z) (sleeps evs)
              /\ (length (sleeps evs) <= 5)%nat).
  { intros s' [H|[[e [H Hs]]|[e [e' [H Hs]]]]].
    - exists []. rewrite app_nil_r. cbn. repeat split; [exact H|lia|constructor|lia].
    - exists [e]. rewrite Hs. cbn. repeat split; [exact H|lia|constructor|lia].
    - exists [e; e']. rewrite Hs. cbn. repeat split; [exact H|lia|constructor|lia]. }
  destruct (lf_size file) as [size|]; [|intros [= <- <-]; apply Hnone; now left].
  cbn zeta. destruct (list_result _ s) as [items|e] eqn:Hl.
  - destruct (truthy _).
    + intros [= <- <-]. apply Hnone. right. right. eexists; eexists.
      unfold with_events. cbn [trace]. rewrite trace_after_list, <- app_assoc.
      split; reflexivity.
    + intros H. apply upload_attempts_machine in H as [evs [Ht Hm]].
      destruct (retry_machine_sleeps _ _ _ _ _ _ Hm) as [n [Hn Hs]].
      rewrite (backoff_waits n Hn) in Hs.
      eexists. rewrite Ht, trace_after_list, <- app_assoc. split; [reflexivity|].
      cbn [app sleeps]. rewrite Hs. apply backoff_prefix_bound.
  - intros [= <- <-]. apply Hnone. right. left. eexists.
    rewrite trace_after_list. split; reflexivity.
Qed.

Lemma upload_file_total_wait_witness :
  exists evs,
    trace (snd (upload_file Samples.notes (Some "P") Samples.always_refusing))
    = trace Samples.always_refusing ++ evs
    /\ (total (sleeps evs) <= 62)%Z.
Proof.
  destruct (upload_file_total_wait Samples.notes (Some "P") Samples.always_refusing
              (snd (upload_file Samples.notes (Some "P") Samples.always_refusing))
              (fst (upload_file Samples.notes (Some "P") Samples.always_refusing)))
    as [evs [Ht [Hs _]]].
  - vm_compute. reflexivity.
  - exists evs. split; assumption.
Defined.

End BackoffFacts.

Module FindOrCreateFacts.
Import DriveApi Spec Coverage PyFacts RemoteFacts UploadFileFacts UploadFileStore DriveApiFacts
       FallbackFacts.

Lemma folder_query_matches_new (folder_name : string) (parent_id : option string) (s : st) :
  matches (folder_query folder_name parent_id)
          (new_file (folder_metadata folder_name parent_id) s) = true.
Proof.
  unfold matches, folder_query, folder_metadata, new_file.
  cbn [rf_name q_name q_folder rf_folder q_parent rf_parent rf_trashed md_name md_folder
       md_parent negb].
  rewrite String.eqb_refl. destruct (opt_if_truthy parent_id) as [p|]; cbn [andb opt_eqb].
  - now rewrite String.eqb_refl.
  - reflexivity.
Qed.

(** X4. [find_or_create_folder] on a store that answers, with nothing
    cached for the key: if a folder of that name exists (under the parent,
    when a parent is given) the first one found is returned and nothing is
    stored; if none exists, exactly one folder is stored and its id
    returned; in both cases the id is cached under the key. And a call
    that raises, on any store, leaves the cache as it is: a failure is not
    remembered. *)
Theorem find_or_create_folder_finds_or_creates (folder_name : string)
    (parent_id : option string) (s : st) :
  (folder_cache s !! cache_key folder_name parent_id = None ->
   faults s = [] ->
   exists id s1,
     find_or_create_folder folder_name parent_id s = (Ret id, s1)
     /\ folder_cache s1 = <[cache_key folder_name parent_id := id]> (folder_cache s)
     /\ match selected (folder_query folder_name parent_id) s with
        | f :: _ => id = rf_id f /\ files s1 = files s
        | [] =>
            id = fresh_id (next_id s)
            /\ files s1 = files s ++ [new_file (folder_metadata folder_name parent_id) s]
            /\ selected (folder_query folder_name parent_id) s1
               = [new_file (folder_metadata folder_name parent_id) s]
        end)
  /\ (forall e s1,
        find_or_create_folder folder_name parent_id s = (Raise e, s1) ->
        folder_cache s1 = folder_cache s).
Proof.
  split.
  - intros Hc Hf. rewrite find_or_create_folder_eq. cbn zeta. rewrite Hc.
    assert (Ha : hd Answer (faults s) = Answer) by now rewrite Hf.
    rewrite (list_result_answered _ _ Ha).
    destruct (selected (folder_query folder_name parent_id) s) as [|f items] eqn:Hsel.
    + unfold create_result, after_create, after_list. cbn [faults next_id]. rewrite Hf.
      cbn [tl hd]. eexists; eexists. split; [reflexivity|]. split; [reflexivity|].
      split; [reflexivity|]. split; [reflexivity|].
      unfold selected, with_cache. cbn [files]. rewrite List.filter_app.
      fold (selected (folder_query folder_name parent_id) s). rewrite Hsel.
      cbn [app List.filter]. unfold new_file at 1. cbn [files next_id].
      fold (new_file (folder_metadata folder_name parent_id) s).
      now rewrite folder_query_matches_new.
    + eexists; eexists. split; [reflexivity|]. split; [reflexivity|]. split; reflexivity.
  - intros e s1. rewrite find_or_create_folder_eq. cbn zeta.
    destruct (folder_cache s !! _); [discriminate|].
    destruct (list_result _ s) as [[|f items]|e0].
    + destruct (create_result _); [discriminate|]. intros [= <- <-].
      unfold after_create. cbn. now destruct (hd Answer (tl (faults s))).
    + discriminate.
    + now intros [= <- <-].
Qed.

Lemma find_or_create_folder_finds_or_creates_witness :
  exists id s1,
    find_or_create_folder "a" (Some "P") Samples.store_with_folder = (Ret id, s1)
    /\ files s1 = files Samples.store_with_folder.
Proof.
  destruct (proj1 (find_or_create_folder_finds_or_creates "a" (Some "P")
                     Samples.store_with_folder) eq_refl eq_refl)
    as [id [s1 [Hcall [_ Hsel]]]].
  exists id, s1. split; [exact Hcall|]. exact (proj2 Hsel).
Defined.

(** X5. A creation whose answer is lost is recovered by the next call:
    with nothing cached, no folder of that name, the lookup answered, the
    creation carried out but its answer lost, the call raises; the next
    call, once answered, finds the folder that was stored, returns its id
    and stores nothing: there is one folder of that name, not two. *)
Theorem find_or_create_folder_recovers (folder_name : string) (parent_id : option string)
    (s : st) (e : exn) (later : list fault) :
  folder_cache s !! cache_key folder_name parent_id = None ->
  selected (folder_query folder_name parent_id) s = [] ->
  faults s = Answer :: FailAfter e :: Answer :: later ->
  exists s1 s2,
    find_or_create_folder folder_name parent_id s = (Raise e, s1)
    /\ find_or_create_folder folder_name parent_id s1 = (Ret (fresh_id (next_id s)), s2)
    /\ files s2 = files s ++ [new_file (folder_metadata folder_name parent_id) s]
    /\ selected (folder_query folder_name parent_id) s2
       = [new_file (folder_metadata folder_name parent_id) s].
Proof.
  intros Hc Hsel Hf.
  pose proof (folder_query_matches_new folder_name parent_id s) as Hnew.
  assert (Hsel1 : selected (folder_query folder_name parent_id)
                    (after_create (folder_metadata folder_name parent_id)
                       (after_list (folder_query folder_name parent_id) s))
                  = [new_file (folder_metadata folder_name parent_id) s]).
  { unfold selected, after_create, after_list. cbn [faults files next_id]. rewrite Hf.
    cbn [tl hd files]. rewrite List.filter_app.
    fold (selected (folder_query folder_name parent_id) s). rewrite Hsel.
    cbn [app List.filter]. unfold new_file at 1. cbn [next_id].
    fold (new_file (folder_metadata folder_name parent_id) s). now rewrite Hnew. }
  eexists; eexists. split; [|split; [|split]].
  - rewrite find_or_create_folder_eq. cbn zeta. rewrite Hc.
    unfold list_result at 1. rewrite Hf. cbn [hd].
    fold (selected (folder_query folder_name parent_id) s). rewrite Hsel.
    unfold create_result, after_list at 1. cbn [faults]. rewrite Hf. cbn [tl hd]. reflexivity.
  - rewrite find_or_create_folder_eq. cbn zeta.
    replace (folder_cache (after_create _ _) !! _) with (@None string).
    2:{ unfold after_create, after_list. cbn [faults]. rewrite Hf. cbn. now rewrite Hc. }
    rewrite list_result_answered.
    2:{ unfold after_create, after_list. cbn [faults]. rewrite Hf. reflexivity. }
    rewrite Hsel1. cbn [rf_id new_file]. reflexivity.
  - unfold with_cache, after_list, after_create. cbn [files faults]. rewrite Hf. reflexivity.
  - unfold with_cache. unfold selected. cbn [files]. exact Hsel1.
Qed.

Lemma find_or_create_folder_recovers_witness :
  exists s1 s2,
    find_or_create_folder "sub" (Some "P")
      (mk_st [] 0 [Answer; FailAfter (HttpError 503); Answer] [] ∅)
    = (Raise (HttpError 503), s1)
    /\ find_or_create_folder "sub" (Some "P") s1 = (Ret "id0", s2).
Proof.
  destruct (find_or_create_folder_recovers "sub" (Some "P")
              (mk_st [] 0 [Answer; FailAfter (HttpError 503); Answer] [] ∅)
              (HttpError 503) [])
    as [s1 [s2 [H1 [H2 _]]]].
  - vm_compute. reflexivity.
  - reflexivity.
  - reflexivity.
  - exists s1, s2. split; assumption.
Defined.

End FindOrCreateFacts.

Module BatchCreateFacts.
Import DriveApi Spec Coverage PyFacts RemoteFacts UploadFileFacts DriveApiFacts LoopFacts
       HealthyFacts.

(** What holds of the loop state at the start and is kept by every turn
    that returns holds of what the loop returns. *)
Lemma for_each_result {A B} (P : B -> Prop) (body : A -> B -> M B) (l : list A) :
  (forall x acc s acc' s', In x l -> P acc -> body x acc s = (Ret acc', s') -> P acc') ->
  forall acc s acc' s', P acc -> for_each l body acc s = (Ret acc', s') -> P acc'.
Proof.
  induction l as [|x l IH]; intros Hbody acc s acc' s' HP; cbn [for_each].
  - now intros [= <- <-].
  - unfold bind. destruct (body x acc s) as [[acc1|e] s1] eqn:Hb; [|discriminate].
    apply IH; [intros y; intros; eapply Hbody; eauto; now right|].
    eapply Hbody; eauto. now left.
Qed.

Lemma batches_In {A} (size : nat) (l b : list A) (x : A) :
  (0 < size)%nat -> In b (batches size l) -> In x b -> In x l.
Proof.
  intros Hsize Hb Hx. rewrite <- (concat_batches size l Hsize).
  apply in_concat. exists b. auto.
Qed.

(** X6. The error behaviour of [batch_create_folders]:
    - with more than five names it returns on every store: what a creation
      raises is caught, and what the [find_or_create_folder] that follows
      raises is caught too, the name being left out of the dictionary;
    - the dictionary it returns has no key but names it was given;
    - with five names or fewer, what [find_or_create_folder] raises for the
      first name leaves the call, and no dictionary is returned. *)
Theorem batch_create_folders_errors (folders : list string) (parent_id : option string)
    (s : st) :
  ((5 < length folders)%nat ->
   exists created s1, batch_create_folders folders parent_id s = (Ret created, s1))
  /\ (forall created s1,
        batch_create_folders folders parent_id s = (Ret created, s1) ->
        forall n, is_Some (created !! n) -> In n folders)
  /\ ((length folders <= 5)%nat ->
      forall n rest e s1,
        folders = n :: rest ->
        find_or_create_folder n parent_id s = (Raise e, s1) ->
        batch_create_folders folders parent_id s = (Raise e, s1)).
Proof.
  split; [|split].
  - intros Hlen. unfold batch_create_folders.
    destruct (Nat.leb_spec (length folders) 5) as [|_]; [lia|].
    apply for_each_returns. intros batch created s0.
    apply for_each_returns. intros n created' s'.
    unfold try_except at 1. unfold bind at 1. rewrite files_create_eq.
    destruct (create_result s') as [id|e]; [unfold ret; eauto|].
    unfold bind at 1, print. rewrite emit_eq. unfold try_except, bind at 1.
    destruct (find_or_create_folder n parent_id _) as [[id|e2] s2]; [unfold ret; eauto|].
    unfold bind. rewrite emit_eq. unfold ret. eauto.
  - intros created s1. unfold batch_create_folders.
    assert (H0 : forall n, is_Some ((∅ : gmap string string) !! n) -> In n folders).
    { intros n [v Hv]. rewrite lookup_empty in Hv. discriminate. }
    assert (Hins : forall (c : gmap string string) n id,
               In n folders ->
               (forall m, is_Some (c !! m) -> In m folders) ->
               forall m, is_Some (<[n := id]> c !! m) -> In m folders).
    { intros c n id Hn Hc m. rewrite lookup_insert.
      destruct (decide (n = m)) as [<-|]; [auto|apply Hc]. }
    destruct (length folders <=? 5)%nat.
    + apply (for_each_result (fun c => forall n, is_Some (c !! n) -> In n folders));
        [|exact H0].
      intros n c s0 c' s' Hn Hc. unfold bind.
      destruct (find_or_create_folder n parent_id s0) as [[id|e] s2]; [|discriminate].
      intros [= <- <-]. now apply Hins.
    + apply (for_each_result (fun c => forall n, is_Some (c !! n) -> In n folders));
        [|exact H0].
      intros batch c s0 c' s' Hb Hc.
      apply (for_each_result (fun c => forall n, is_Some (c !! n) -> In n folders));
        [|exact Hc].
      intros n c0 s2 c2 s3 Hn Hc0.
      assert (Hin : In n folders) by (apply (batches_In 50 folders batch); [lia|auto|auto]).
      unfold try_except at 1. unfold bind at 1. rewrite files_create_eq.
      destruct (create_result s2) as [id|e]; [intros [= <- <-]; now apply Hins|].
      unfold bind at 1, print. rewrite emit_eq. unfold try_except, bind at 1.
      destruct (find_or_create_folder n parent_id _) as [[id|e2] s4].
      * intros [= <- <-]. now apply Hins.
      * unfold bind. rewrite emit_eq. now intros [= <- <-].
  - intros Hlen n rest e s1 -> Hcall. unfold batch_create_folders.
    destruct (Nat.leb_spec (length (n :: rest)) 5) as [_|]; [|lia].
    cbn [for_each]. unfold bind. now rewrite Hcall.
Qed.

Lemma batch_create_folders_errors_witness :
  exists created s1,
    batch_create_folders Samples.six_names (Some "P") Samples.refusing_store
    = (Ret created, s1).
Proof.
  apply (proj1 (batch_create_folders_errors Samples.six_names (Some "P")
                  Samples.refusing_store)).
  vm_compute. lia.
Defined.

End BatchCreateFacts.

Module GrowthFacts.
Import DriveApi FolderUploader Spec Coverage PyFacts RemoteFacts UploadFileFacts
       UploadFileStore DriveApiFacts LoopFacts.

Lemma grows_ret {A} (a : A) : grows (ret a).
Proof. intros s r s1 [= <- <-]. exists []. now rewrite app_nil_r. Qed.

Lemma grows_raise {A} (e : exn) : grows (@raise A e).
Proof. intros s r s1 [= <- <-]. exists []. now rewrite app_nil_r. Qed.

Lemma grows_bind {A B} (c : M A) (k : A -> M B) :
  grows c -> (forall a, grows (k a)) -> grows (bind c k).
Proof.
  intros Hc Hk s r s1. unfold bind. destruct (c s) as [[a|e] s0] eqn:Hcs.
  - intros Hks. destruct (Hc _ _ _ Hcs) as [x1 H1]. destruct (Hk a _ _ _ Hks) as [x2 H2].
    exists (x1 ++ x2). now rewrite H2, H1, app_assoc.
  - intros [= <- <-]. exact (Hc _ _ _ Hcs).
Qed.

Lemma grows_try {A} (c : M A) (h : exn -> M A) :
  grows c -> (forall e, grows (h e)) -> grows (try_except c h).
Proof.
  intros Hc Hh s r s1. unfold try_except. destruct (c s) as [[a|e] s0] eqn:Hcs.
  - intros [= <- <-]. exact (Hc _ _ _ Hcs).
  - intros Hhs. destruct (Hc _ _ _ Hcs) as [x1 H1]. destruct (Hh e _ _ _ Hhs) as [x2 H2].
    exists (x1 ++ x2). now rewrite H2, H1, app_assoc.
Qed.

Lemma grows_emit (e : event) : grows (emit e).
Proof. intros s r s1 [= <- <-]. exists []. cbn. now rewrite app_nil_r. Qed.

Lemma grows_cache_get (k : string) : grows (cache_get k).
Proof. intros s r s1 [= <- <-]. exists []. now rewrite app_nil_r. Qed.

Lemma grows_cache_put (k v : string) : grows (cache_put k v).
Proof. intros s r s1 [= <- <-]. exists []. cbn. now rewrite app_nil_r. Qed.

Lemma grows_files_list (q : query) : grows (files_list q).
Proof.
  intros s r s1. rewrite files_list_eq. intros [= <- <-]. exists []. cbn.
  now rewrite app_nil_r.
Qed.

Lemma grows_files_create (md : metadata) : grows (files_create md).
Proof.
  intros s r s1. rewrite files_create_eq. intros [= <- <-]. rewrite files_after_create.
  destruct (hd Answer (faults s)); eauto. exists []. now rewrite app_nil_r.
Qed.

Lemma grows_for_each {A B} (body : A -> B -> M B) (l : list A) :
  (forall x acc, grows (body x acc)) -> forall acc, grows (for_each l body acc).
Proof.
  intros Hbody. induction l as [|x l IH]; intros acc; cbn [for_each].
  - apply grows_ret.
  - apply grows_bind; [apply Hbody|apply IH].
Qed.

Lemma grows_find_or_create_folder (folder_name : string) (parent_id : option string) :
  grows (find_or_create_folder folder_name parent_id).
Proof.
  unfold find_or_create_folder. apply grows_bind; [apply grows_cache_get|].
  intros [id|]; [apply grows_ret|].
  apply grows_bind; [apply grows_files_list|]. intros [|f items].
  - apply grows_bind; [apply grows_files_create|]. intros id.
    apply grows_bind; [apply grows_cache_put|]. intros _. apply grows_ret.
  - apply grows_bind; [apply grows_cache_put|]. intros _. apply grows_ret.
Qed.

Lemma grows_check_file_exists (file_name : string) (parent_id : option string) :
  grows (check_file_exists file_name parent_id).
Proof.
  unfold check_file_exists. apply grows_bind; [apply grows_files_list|].
  intros items. apply grows_ret.
Qed.

Lemma grows_upload_attempts (md : metadata) (file_name : string) (parent_id : option string)
    (remaining : nat) :
  forall retry_count, grows (upload_attempts md file_name parent_id remaining retry_count).
Proof.
  induction remaining as [|k IH]; intros rc; cbn [upload_attempts].
  - apply grows_raise.
  - apply grows_try; [apply grows_files_create|].
    intros e. destruct e; try apply grows_raise.
    destruct (is_transient status); [|apply grows_raise].
    apply grows_bind; [apply grows_emit|]. intros _.
    apply grows_bind; [apply grows_emit|]. intros _.
    apply grows_bind; [apply grows_check_file_exists|]. intros check_id.
    destruct (truthy check_id); [|apply IH].
    apply grows_bind; [apply grows_emit|]. intros _. apply grows_ret.
Qed.

Lemma grows_upload_file (file : local_file) (parent_id : option string) :
  grows (upload_file file parent_id).
Proof.
  unfold upload_file. destruct (lf_size file); [|apply grows_raise].
  apply grows_bind; [apply grows_check_file_exists|]. intros existing.
  destruct (truthy existing); [|apply grows_upload_attempts].
  apply grows_bind; [apply grows_emit|]. intros _. apply grows_ret.
Qed.

Lemma grows_batch_create_folders (folders : list string) (parent_id : option string) :
  grows (batch_create_folders folders parent_id).
Proof.
  unfold batch_create_folders. destruct (length folders <=? 5)%nat.
  - apply grows_for_each. intros n c.
    apply grows_bind; [apply grows_find_or_create_folder|]. intros id. apply grows_ret.
  - apply grows_for_each. intros b c. apply grows_for_each. intros n c'.
    apply grows_try.
    + apply grows_bind; [apply grows_files_create|]. intros id. apply grows_ret.
    + intros e. apply grows_bind; [apply grows_emit|]. intros _. apply grows_try.
      * apply grows_bind; [apply grows_find_or_create_folder|]. intros id. apply grows_ret.
      * intros e2. apply grows_bind; [apply grows_emit|]. intros _. apply grows_ret.
Qed.

Lemma grows_upload_file_worker (parent_folder_ids : gmap path string) (item : file_item) :
  grows (upload_file_worker parent_folder_ids item).
Proof.
  unfold upload_file_worker. apply grows_try; [|intros e; apply grows_ret].
  cbn zeta. destruct (negb _); [apply grows_ret|].
  apply grows_bind; [apply grows_upload_file|]. intros id. apply grows_ret.
Qed.

Lemma grows_create_group (folder_id : string) (group : path * list folder_item)
    (folder_ids : gmap path string) :
  grows (create_group folder_id group folder_ids).
Proof.
  unfold create_group. apply grows_bind.
  - unfold resolve_parent. destruct (negb _); [|apply grows_ret].
    apply grows_bind; [apply grows_emit|]. intros _. apply grows_ret.
  - intros parent_id. unfold create_under. apply grows_try.
    + apply grows_bind; [apply grows_batch_create_folders|]. intros created.
      apply grows_for_each. intros item ids.
      destruct (created !! fo_name item); [apply grows_ret|].
      apply grows_bind; [apply grows_emit|]. intros _. apply grows_ret.
    + intros e. apply grows_bind; [apply grows_emit|]. intros _.
      apply grows_for_each. intros item ids. apply grows_try.
      * apply grows_bind; [apply grows_find_or_create_folder|]. intros id. apply grows_ret.
      * intros e2. apply grows_bind; [apply grows_emit|]. intros _. apply grows_ret.
Qed.

Lemma grows_retry_failed (folder_ids : gmap path string) (rel_path : path) (item : file_item) :
  grows (retry_failed folder_ids rel_path item).
Proof.
  unfold retry_failed. apply grows_try; [|intros e; apply grows_emit].
  cbn zeta. destruct (truthy _); [|apply grows_ret].
  apply grows_bind; [apply grows_emit|]. intros _.
  apply grows_bind; [apply grows_upload_file|]. intros id. apply grows_emit.
Qed.

Lemma grows_sequential_fallback (folder_ids : gmap path string) (batch_files : list file_item) :
  grows (sequential_fallback folder_ids batch_files).
Proof.
  unfold sequential_fallback. apply grows_for_each. intros item _.
  unfold fallback_item. apply grows_try; [|intros e; apply grows_emit].
  cbn zeta. destruct (truthy _); [|apply grows_emit].
  apply grows_bind; [apply grows_upload_file|]. intros id. apply grows_emit.
Qed.

Section Pool.

Variable executor : Z -> (file_item -> M upload_result) -> list file_item -> M (list upload_result).

(** The pool does nothing to the store but what its workers do. *)
Hypothesis executor_grows :
  forall max_workers worker items,
    (forall item, grows (worker item)) -> grows (executor max_workers worker items).

Lemma grows_upload_batch (folder_ids : gmap path string) (max_workers : Z)
    (batch_files : list file_item) (results : list (path * upload_result)) :
  grows (upload_batch executor folder_ids max_workers batch_files results).
Proof.
  unfold upload_batch. apply grows_try.
  - apply grows_bind.
    + unfold parallel_upload_files. apply grows_bind.
      * apply executor_grows. intros item. apply grows_upload_file_worker.
      * intros completed. apply grows_ret.
    + intros res. apply grows_bind; [|intros _; apply grows_ret].
      apply grows_for_each. intros [rel [id item|err item]] _.
      * apply grows_emit.
      * apply grows_bind; [apply grows_emit|]. intros _. apply grows_retry_failed.
  - intros e. apply grows_bind; [apply grows_emit|]. intros _.
    apply grows_bind; [apply grows_emit|]. intros _.
    apply grows_bind; [apply grows_sequential_fallback|]. intros _. apply grows_ret.
Qed.

Lemma grows_upload_folder (folder_name : string) (tree : list node)
    (parent_id : option string) (max_workers : Z) :
  grows (upload_folder executor folder_name tree parent_id max_workers).
Proof.
  unfold upload_folder. apply grows_bind; [apply grows_find_or_create_folder|].
  intros folder_id. destruct (collect (os_walk tree)) as [[fs ds]|e]; [|apply grows_raise].
  apply grows_bind; [apply grows_emit|]. intros _.
  apply grows_bind.
  { unfold create_folders. apply grows_for_each. intros g ids. apply grows_create_group. }
  intros ids. apply grows_bind; [apply grows_emit|]. intros _.
  apply grows_bind; [|intros _; apply grows_ret].
  unfold upload_files. apply grows_for_each. intros b res. apply grows_upload_batch.
Qed.

(** X7. [upload_folder] never removes, trashes, renames or moves an object
    of the remote store: whatever the store answers and however the run
    ends, the store afterwards is the store before followed by the objects
    the run has added. The pool is taken to do nothing to the store but
    what its workers do. *)
Theorem upload_folder_only_adds (folder_name : string) (tree : list node)
    (parent_id : option string) (max_workers : Z) (s s1 : st) (r : res string) :
  upload_folder executor folder_name tree parent_id max_workers s = (r, s1) ->
  exists added, files s1 = files s ++ added.
Proof. apply grows_upload_folder. Qed.

End Pool.

Lemma grows_sequential_executor (max_workers : Z) (worker : file_item -> M upload_result)
    (items : list file_item) :
  (forall item, grows (worker item)) -> grows (sequential_executor max_workers worker items).
Proof.
  intros Hw. unfold sequential_executor. destruct (max_workers <=? 0)%Z; [apply grows_raise|].
  apply grows_for_each. intros item done.
  apply grows_bind; [apply Hw|]. intros r. apply grows_ret.
Qed.

Lemma upload_folder_only_adds_witness :
  exists added,
    files (snd (upload_folder sequential_executor "Project" Samples.project (Some "P") 5
                  Samples.store_with_notes))
    = files Samples.store_with_notes ++ added.
Proof.
  apply (upload_folder_only_adds sequential_executor grows_sequential_executor
           "Project" Samples.project (Some "P") 5 Samples.store_with_notes _
           (fst (upload_folder sequential_executor "Project" Samples.project (Some "P") 5
                   Samples.store_with_notes))).
  vm_compute. reflexivity.
Defined.

End GrowthFacts.

Module UploadFolderResult.
Import DriveApi FolderUploader Spec Coverage PyFacts RemoteFacts UploadFileFacts LoopFacts
       FallbackTheorems.

(** X8. [upload_folder] ends in one of three ways only: with what the
    lookup or creation of the root folder raises; with what the scan of the
    local tree raises, right after the root folder is resolved; or with the
    root folder's id. Nothing that fails later, for a sub-folder or for a
    file, makes it raise or changes what it returns. *)
Theorem upload_folder_result
    (executor : Z -> (file_item -> M upload_result) -> list file_item -> M (list upload_result))
    (folder_name : string) (tree : list node) (parent_id : option string)
    (max_workers : Z) (s : st) :
  match find_or_create_folder folder_name parent_id s with
  | (Raise e, s1) =>
      upload_folder executor folder_name tree parent_id max_workers s = (Raise e, s1)
  | (Ret folder_id, s1) =>
      match collect (os_walk tree) with
      | Raise e =>
          upload_folder executor folder_name tree parent_id max_workers s = (Raise e, s1)
      | Ret _ =>
          exists s2,
            upload_folder executor folder_name tree parent_id max_workers s
            = (Ret folder_id, s2)
      end
  end.
Proof.
  destruct (find_or_create_folder folder_name parent_id s) as [[id|e] s1] eqn:Hroot.
  2:{ unfold upload_folder, bind. now rewrite Hroot. }
  destruct (collect (os_walk tree)) as [[fs ds]|e] eqn:Hscan.
  2:{ unfold upload_folder, bind. now rewrite Hroot, Hscan. }
  unfold upload_folder. unfold bind at 1. rewrite Hroot, Hscan.
  unfold bind at 1, print. rewrite emit_eq. unfold bind at 1.
  destruct (for_each_returns (create_group id) (folder_groups (sort_by depth_le ds))
              (fun g acc s' => create_group_returns id g acc s')
              ({[ [] := id ]} : gmap path string)
              (with_events [EvPrint (MsgCreatingFolders (length (sort_by depth_le ds)))] s1))
    as [ids [s2 Hc]].
  unfold create_folders. rewrite Hc.
  unfold bind at 1. rewrite emit_eq. unfold bind at 1.
  destruct (upload_files_returns executor ids max_workers fs
              (with_events [EvPrint (MsgUploadingFiles (length fs))] s2)) as [res [s3 ->]].
  unfold ret. eauto.
Qed.

End UploadFolderResult.

Module ScanCountFacts.
Import DriveApi FolderUploader UploadAll Spec Coverage ScanFacts.

Lemma collect_app (a b : list (path * list node)) :
  collect (a ++ b)
  = match collect a with
    | Raise e => Raise e
    | Ret (f1, d1) =>
        match collect b with
        | Raise e => Raise e
        | Ret (f2, d2) => Ret (f1 ++ f2, d1 ++ d2)
        end
    end.
Proof.
  induction a as [|[root entries] a IH]; cbn [collect app].
  - destruct (collect b) as [[f2 d2]|e]; reflexivity.
  - destruct (collect_files root entries) as [fs|e]; [|reflexivity].
    rewrite IH. destruct (collect a) as [[f1 d1]|e]; [|reflexivity].
    destruct (collect b) as [[f2 d2]|e]; [|reflexivity].
    now rewrite !app_assoc.
Qed.

Lemma walk_size_from (triples : list (path * list node)) (z : Z) :
  fold_left (fun total triple => (total + files_size (snd triple))%Z) triples z
  = (z + walk_size triples)%Z.
Proof.
  unfold walk_size. revert z. induction triples as [|t ts IH]; intros z; cbn [fold_left].
  - lia.
  - rewrite IH, (IH (0 + _)%Z). lia.
Qed.

Lemma walk_size_cons (t : path * list node) (ts : list (path * list node)) :
  walk_size (t :: ts) = (files_size (snd t) + walk_size ts)%Z.
Proof. unfold walk_size at 1. cbn [fold_left]. rewrite walk_size_from. lia. Qed.

Lemma walk_size_app (a b : list (path * list node)) :
  walk_size (a ++ b) = (walk_size a + walk_size b)%Z.
Proof.
  induction a as [|t a IH]; [reflexivity|].
  cbn [app]. rewrite !walk_size_cons, IH. lia.
Qed.

Lemma files_size_from (entries : list node) (z : Z) :
  fold_left (fun total n =>
               match n with
               | File _ (Some size) => (total + size)%Z
               | _ => total
               end) entries z
  = (z + files_size entries)%Z.
Proof.
  unfold files_size. revert z. induction entries as [|n ns IH]; intros z; cbn [fold_left].
  - lia.
  - rewrite IH, (IH (match n with File _ (Some size) => _ | _ => _ end)).
    destruct n as [nm [sz|]|nm cs]; lia.
Qed.

Lemma files_size_cons (n : node) (ns : list node) :
  files_size (n :: ns)
  = (match n with File _ (Some size) => size | _ => 0 end + files_size ns)%Z.
Proof.
  unfold files_size at 1. cbn [fold_left]. rewrite files_size_from.
  destruct n as [nm [sz|]|nm cs]; lia.
Qed.

(** The files of one directory: [os.path.getsize] raises on the first entry
    that cannot be stat'ed; otherwise there is one item per file, and the
    sizes add up to what [get_folder_size] counts for the directory. *)
Lemma collect_files_cases (root : path) (entries : list node) :
  if existsb unreadable_file entries
  then collect_files root entries = Raise OSError
  else exists fs,
      collect_files root entries = Ret fs
      /\ length fs = length (List.filter (fun n => negb (is_dir n)) entries)
      /\ total (map fi_size fs) = files_size entries
      /\ Forall (fun f => dirname (fi_rel_path f) = root /\ fi_stat f = Some (fi_size f)) fs.
Proof.
  induction entries as [|[nm [sz|]|nm cs] rest IH]; cbn [existsb unreadable_file orb].
  - exists []. repeat split; constructor.
  - destruct (existsb unreadable_file rest).
    + cbn [collect_files]. now rewrite IH.
    + destruct IH as [fs [Hfs [Hlen [Htot Hall]]]]. eexists. cbn [collect_files].
      rewrite Hfs. split; [reflexivity|]. cbn [List.filter is_dir negb length map fi_size total fold_right].
      rewrite files_size_cons. fold (total (map fi_size fs)).
      split; [now rewrite Hlen|]. split; [now rewrite Htot|].
      constructor; [|exact Hall]. cbn. split; [apply dirname_snoc|reflexivity].
  - reflexivity.
  - destruct (existsb unreadable_file rest).
    + cbn [collect_files]. exact IH.
    + destruct IH as [fs [Hfs [Hlen [Htot Hall]]]]. exists fs. cbn [collect_files].
      rewrite files_size_cons. cbn [List.filter is_dir negb]. repeat split; auto.
Qed.

Lemma collect_dirs_length (root : path) (entries : list node) :
  length (collect_dirs root entries) = length (List.filter is_dir entries).
Proof.
  induction entries as [|[nm sz|nm cs] rest IH]; cbn [collect_dirs List.filter is_dir length];
    [reflexivity|exact IH|now rewrite IH].
Qed.

Lemma unreadable_split (entries : list node) :
  existsb unreadable entries
  = existsb unreadable_file entries
    || existsb (fun n => existsb unreadable (children_of n)) entries.
Proof.
  induction entries as [|[nm [sz|]|nm cs] rest IH]; cbn [existsb unreadable unreadable_file children_of orb].
  - reflexivity.
  - exact IH.
  - reflexivity.
  - rewrite IH. now destruct (existsb unreadable cs), (existsb unreadable_file rest).
Qed.

Lemma list_sum_cons (a : nat) (l : list nat) : list_sum (a :: l) = a + list_sum l.
Proof. reflexivity. Qed.

Lemma count_files_split (entries : list node) :
  list_sum (map count_files entries)
  = length (List.filter (fun n => negb (is_dir n)) entries)
    + list_sum (map (fun n => list_sum (map count_files (children_of n))) entries).
Proof.
  induction entries as [|[nm sz|nm cs] rest IH];
    cbn [map List.filter is_dir negb length children_of]; rewrite ?list_sum_cons, ?IH;
    [reflexivity|cbn [count_files list_sum fold_right]; lia|].
  cbn [count_files]. fold count_files. lia.
Qed.

Lemma count_dirs_split (entries : list node) :
  list_sum (map count_dirs entries)
  = length (List.filter is_dir entries)
    + list_sum (map (fun n => list_sum (map count_dirs (children_of n))) entries).
Proof.
  induction entries as [|[nm sz|nm cs] rest IH];
    cbn [map List.filter is_dir length children_of]; rewrite ?list_sum_cons, ?IH;
    [reflexivity|cbn [count_dirs list_sum fold_right]; lia|].
  cbn [count_dirs]. fold count_dirs. lia.
Qed.

Lemma scanned_below (root : path) (entries : list node) :
  Forall (fun n => forall parent, scanned (walk_node parent n) (children_of n)) entries ->
  if existsb (fun n => existsb unreadable (children_of n)) entries
  then collect (flat_map (walk_node root) entries) = Raise OSError
  else exists fs ds,
      collect (flat_map (walk_node root) entries) = Ret (fs, ds)
      /\ length fs = list_sum (map (fun n => list_sum (map count_files (children_of n))) entries)
      /\ length ds = list_sum (map (fun n => list_sum (map count_dirs (children_of n))) entries)
      /\ total (map fi_size fs) = walk_size (flat_map (walk_node root) entries)
      /\ Forall (fun f => fi_stat f = Some (fi_size f)) fs.
Proof.
  induction 1 as [|n rest Hn _ IH]; cbn [existsb flat_map map].
  - exists [], []. repeat split. constructor.
  - rewrite collect_app, walk_size_app, !list_sum_cons. specialize (Hn root).
    unfold scanned in Hn. destruct (existsb unreadable (children_of n)); cbn [orb].
    + now rewrite Hn.
    + destruct Hn as [f1 [d1 [-> [Hf1 [Hd1 [Ht1 Hs1]]]]]].
      destruct (existsb _ rest).
      * now rewrite IH.
      * destruct IH as [f2 [d2 [-> [Hf2 [Hd2 [Ht2 Hs2]]]]]].
        exists (f1 ++ f2), (d1 ++ d2). rewrite !length_app, map_app.
        split; [reflexivity|]. split; [lia|]. split; [lia|]. split.
        -- rewrite <- Ht1, <- Ht2. unfold total. rewrite fold_right_app.
           generalize (map fi_size f1). intros l. induction l as [|z l IHl]; cbn; lia.
        -- apply Forall_app. auto.
Qed.

Lemma scanned_entries (root : path) (entries : list node) :
  Forall (fun n => forall parent, scanned (walk_node parent n) (children_of n)) entries ->
  scanned ((root, entries) :: flat_map (walk_node root) entries) entries.
Proof.
  intros Hall. pose proof (scanned_below root entries Hall) as Hb.
  pose proof (collect_files_cases root entries) as Hf.
  unfold scanned. rewrite unreadable_split, count_files_split, count_dirs_split.
  cbn [collect]. destruct (existsb unreadable_file entries); cbn [orb].
  - now rewrite Hf.
  - destruct Hf as [f0 [-> [Hlen [Htot Hst]]]].
    destruct (existsb _ entries).
    + now rewrite Hb.
    + destruct Hb as [f1 [d1 [-> [Hf1 [Hd1 [Ht1 Hs1]]]]]].
      exists (f0 ++ f1), (collect_dirs root entries ++ d1).
      rewrite !length_app, map_app, collect_dirs_length, walk_size_cons.
      split; [reflexivity|]. split; [lia|]. split; [lia|]. split.
      * cbn [snd]. rewrite <- Htot, <- Ht1. unfold total. rewrite fold_right_app.
        generalize (map fi_size f0). intros l. induction l as [|z l IHl]; cbn; lia.
      * apply Forall_app. split; [|exact Hs1].
        eapply Forall_impl; [exact Hst|]. now intros f [_ H].
Qed.

Lemma scanned_node (n : node) : forall parent, scanned (walk_node parent n) (children_of n).
Proof.
  induction n as [name size|name children IH] using node_induction; intros parent.
  - exists [], []. repeat split. constructor.
  - cbn [walk_node children_of]. now apply scanned_entries.
Qed.

(** X9. The scan at the head of [upload_folder] and the sizing of
    [get_folder_size] agree on a tree. When some entry of the tree, at any
    depth, cannot be stat'ed, the scan raises [OSError] (where
    [get_folder_size] skips that entry). Otherwise the scan returns one
    file item for every file of the tree and one folder item for every
    directory, and the sizes of the file items add up to
    [get_folder_size] of the tree. *)
Theorem collect_counts (tree : list node) :
  if existsb unreadable tree
  then collect (os_walk tree) = Raise OSError
  else exists file_items folder_items,
      collect (os_walk tree) = Ret (file_items, folder_items)
      /\ length file_items = list_sum (map count_files tree)
      /\ length folder_items = list_sum (map count_dirs tree)
      /\ total (map fi_size file_items) = get_folder_size tree.
Proof.
  pose proof (scanned_entries [] tree) as H. unfold scanned, os_walk in *.
  destruct (existsb unreadable tree).
  - apply H. apply List.Forall_forall. intros n _. apply scanned_node.
  - destruct H as [fs [ds [Hc [Hf [Hd [Ht _]]]]]].
    { apply List.Forall_forall. intros n _. apply scanned_node. }
    exists fs, ds. auto.
Qed.

End ScanCountFacts.

Module GroupFacts.
Import DriveApi FolderUploader Spec Coverage OrderFacts.

Lemma filter_parent_snoc (k : path) (l : list folder_item) (x : folder_item) :
  List.filter (fun y => bool_decide (fo_parent_path y = k)) (l ++ [x])
  = List.filter (fun y => bool_decide (fo_parent_path y = k)) l
    ++ (if decide (fo_parent_path x = k) then [x] else []).
Proof.
  rewrite List.filter_app. cbn [List.filter]. now destruct (decide (fo_parent_path x = k)) as [H|H];
    [rewrite bool_decide_eq_true_2|rewrite bool_decide_eq_false_2].
Qed.

Lemma In_fst {A B} (k : A) (g : B) (l : list (A * B)) : In (k, g) l -> In k (map fst l).
Proof. intros H. apply in_map_iff. now exists (k, g). Qed.

(** X10. The grouping of the folder entries by parent is a partition: no
    two groups have the same parent path; the group of a parent path holds
    exactly the entries with that parent, in the order of the list, and is
    not empty; and every entry's parent path has a group. *)
Theorem folder_groups_partition (l : list folder_item) :
  NoDup (map fst (folder_groups l))
  /\ (forall k g, In (k, g) (folder_groups l) ->
        g <> [] /\ g = List.filter (fun y => bool_decide (fo_parent_path y = k)) l)
  /\ (forall x, In x l -> In (fo_parent_path x) (map fst (folder_groups l))).
Proof.
  induction l as [|x l IH] using rev_ind.
  - cbn. split; [apply NoDup_nil_2|]. split; [intros k g []|intros x []].
  - destruct IH as [Hnd [Hg Hk]]. rewrite folder_groups_snoc.
    destruct (group_add_spec x (folder_groups l))
      as [[a [g [b [HG ->]]]]|[Hnew ->]].
    + rewrite HG in Hnd, Hg, Hk.
      assert (Hkeys : map fst (a ++ (fo_parent_path x, g ++ [x]) :: b)
                      = map fst (a ++ (fo_parent_path x, g) :: b))
        by now rewrite !map_app.
      rewrite Hkeys. split; [exact Hnd|]. split.
      * intros k g' Hin. rewrite filter_parent_snoc.
        apply in_app_or in Hin as [Hin|[[= <- <-]|Hin]].
        -- destruct (Hg k g') as [Hne Heq]; [apply in_or_app; now left|].
           split; [exact Hne|]. destruct (decide (fo_parent_path x = k)) as [<-|_];
             [|now rewrite app_nil_r].
           exfalso. rewrite map_app in Hnd. apply NoDup_app in Hnd as [_ [Hd _]].
           apply (Hd (fo_parent_path x)); [apply list_elem_of_In; eapply In_fst; eauto|].
           cbn. left.
        -- destruct (Hg (fo_parent_path x) g) as [_ Heq];
             [apply in_or_app; right; now left|].
           split; [now destruct g|]. rewrite decide_True by reflexivity. now rewrite <- Heq.
        -- destruct (Hg k g') as [Hne Heq]; [apply in_or_app; right; now right|].
           split; [exact Hne|]. destruct (decide (fo_parent_path x = k)) as [<-|_];
             [|now rewrite app_nil_r].
           exfalso. rewrite map_app in Hnd. apply NoDup_app in Hnd as [_ [_ Hd]].
           cbn in Hd. apply NoDup_cons in Hd as [Hd _]. apply Hd.
           apply list_elem_of_In. eapply In_fst; eauto.
      * intros y Hy. apply in_app_or in Hy as [Hy|[<-|[]]]; [now apply Hk|].
        rewrite map_app. apply in_or_app. right. now left.
    + assert (Hfresh : ~ In (fo_parent_path x) (map fst (folder_groups l))).
      { intros Hin. apply in_map_iff in Hin as [[k g] [Hfst Hin]]. cbn in Hfst.
        now apply (Hnew _ Hin). }
      split; [|split].
      * rewrite map_app. apply NoDup_app. split; [exact Hnd|]. split.
        -- intros k Hin ->%list_elem_of_singleton.
           apply Hfresh. now apply list_elem_of_In.
        -- apply NoDup_singleton.
      * intros k g Hin. rewrite filter_parent_snoc.
        apply in_app_or in Hin as [Hin|[[= <- <-]|[]]].
        -- destruct (Hg k g Hin) as [Hne Heq]. split; [exact Hne|].
           destruct (decide (fo_parent_path x = k)) as [<-|_]; [|now rewrite app_nil_r].
           exfalso. apply Hfresh. eapply In_fst; eauto.
        -- split; [discriminate|]. rewrite decide_True by reflexivity.
           replace (List.filter _ l) with (@nil folder_item); [reflexivity|].
           symmetry.
           assert (Hother : forall y, In y l -> fo_parent_path y <> fo_parent_path x).
           { intros y Hy Heq. apply Hfresh. rewrite <- Heq. now apply Hk. }
           clear -Hother. induction l as [|y l' IHl]; [reflexivity|].
           cbn [List.filter]. rewrite bool_decide_eq_false_2.
           ++ apply IHl. intros z Hz. apply Hother. now right.
           ++ apply Hother. now left.
      * intros y Hy. rewrite map_app. apply in_or_app.
        apply in_app_or in Hy as [Hy|[<-|[]]]; [left; now apply Hk|right; now left].
Qed.

End GroupFacts.

Module RecordFacts.
Import Ledger LedgerSpec Samples LedgerFacts SkipFacts.

Lemma update_rows_none (h id time : string) (df : list row) :
  hash_in h df = false -> update_rows h id time df = df.
Proof.
  unfold hash_in, update_rows. induction df as [|r df IH]; [reflexivity|].
  cbn [existsb map]. intros [Hr Hdf]%orb_false_elim. now rewrite Hr, IH.
Qed.

Lemma update_rows_twice (h id1 time1 id2 time2 : string) (df : list row) :
  update_rows h id2 time2 (update_rows h id1 time1 df) = update_rows h id2 time2 df.
Proof.
  unfold update_rows. rewrite map_map. apply map_ext. intros r.
  destruct (String.eqb (folder_hash r) h) eqn:Hr; cbn [folder_hash folder_path folder_name];
    now rewrite Hr.
Qed.

Section Fingerprint.

Variable float : Type.
Variable str_float : float -> string.
Variable md5_hexdigest : string -> string.
Variable abspath : string -> string.

Local Abbreviation generate_folder_hash := (generate_folder_hash float str_float md5_hexdigest abspath).
Local Abbreviation record_folder_upload := (record_folder_upload float str_float md5_hexdigest abspath).
Local Abbreviation recorded := (recorded float str_float md5_hexdigest abspath).


(** X12. Recording the same folder twice is recording it once with the
    values of the second call: whatever the ledger file was, it ends up as
    the second call alone would have left it. *)
Theorem record_folder_upload_last_wins (fs : local_fs float) (c : csv)
    (now1 now2 folder_path id1 id2 : string) :
  recorded fs (recorded fs c now1 folder_path id1) now2 folder_path id2
  = recorded fs c now2 folder_path id2.
Proof.
  unfold LedgerSpec.recorded, Ledger.record_folder_upload, record_folder_upload_try.
  destruct (Ledger.generate_folder_hash _ _ _ _ _ _) as [h|e]; [|reflexivity].
  destruct c as [| |rows]; cbn [csv_exists negb read_csv fst snd]; [|reflexivity|].
  - cbn [hash_in existsb folder_hash]. rewrite String.eqb_refl. cbn [orb update_rows map folder_hash].
    now rewrite String.eqb_refl.
  - destruct (hash_in h rows) eqn:Hh; cbn [fst snd csv_exists negb read_csv].
    + now rewrite hash_in_update, Hh, update_rows_twice.
    + rewrite hash_in_app, Hh. cbn [hash_in existsb folder_hash orb].
      rewrite String.eqb_refl. cbn [orb]. unfold update_rows at 1. rewrite map_app.
      fold (update_rows h id2 now2 rows). rewrite (update_rows_none _ _ _ _ Hh).
      cbn [map folder_hash]. now rewrite String.eqb_refl.
Qed.

End Fingerprint.

End RecordFacts.

Module PendingFacts.
Import DriveApi Ledger LedgerSpec FolderUploader UploadAll Samples LedgerFacts.

Section Run.

Variable float : Type.
Variable str_float : float -> string.
Variable md5_hexdigest : string -> string.
Variable abspath : string -> string.

Local Abbreviation is_folder_uploaded := (is_folder_uploaded float str_float md5_hexdigest abspath).
Local Abbreviation get_folders_to_upload := (get_folders_to_upload float str_float md5_hexdigest abspath).

Lemma is_folder_uploaded_empty (fs : local_fs float) (c : csv) (p : string) :
  c = Missing \/ c = Unreadable \/ c = Table [] ->
  fst (is_folder_uploaded fs c p) = Ret false.
Proof.
  unfold Ledger.is_folder_uploaded, is_folder_uploaded_try.
  intros [-> | [-> | ->]]; cbn [csv_exists negb read_csv]; [reflexivity| |];
    now destruct (Ledger.generate_folder_hash _ _ _ _ _ _).
Qed.

Lemma get_folders_to_upload_no_rows (fs : local_fs float) (c : csv) (to_upload_dir : string) :
  c = Missing \/ c = Unreadable \/ c = Table [] ->
  get_folders_to_upload fs c to_upload_dir false
  = get_folders_to_upload fs c to_upload_dir true.
Proof.
  intros Hc. unfold UploadAll.get_folders_to_upload. apply flat_map_ext. intros item.
  now rewrite (is_folder_uploaded_empty fs c _ Hc).
Qed.

(** X13. The folders a run takes up. With [force] every directory of the
    upload directory is listed, in the order of the listing and whatever
    the ledger holds; without it the list is a sub-list of that one, and
    the same list when the ledger file is missing, cannot be read or holds
    no row. An entry is a directory of the upload directory, with the size
    [get_folder_size] gives for its tree. *)
Theorem get_folders_to_upload_force (fs : local_fs float) (c : csv) (to_upload_dir : string) :
  map pe_name (get_folders_to_upload fs c to_upload_dir true)
  = List.filter (fun item => fs_isdir fs (path_join to_upload_dir item))
                (fs_listdir fs to_upload_dir)
  /\ sublist (get_folders_to_upload fs c to_upload_dir false)
             (get_folders_to_upload fs c to_upload_dir true)
  /\ (c = Missing \/ c = Unreadable \/ c = Table [] ->
      get_folders_to_upload fs c to_upload_dir false
      = get_folders_to_upload fs c to_upload_dir true)
  /\ (forall force e,
        In e (get_folders_to_upload fs c to_upload_dir force) ->
        pe_path e = path_join to_upload_dir (pe_name e)
        /\ fs_isdir fs (pe_path e) = true
        /\ pe_size e = get_folder_size (fs_tree fs (pe_path e))).
Proof.
  split; [|split; [|split; [apply get_folders_to_upload_no_rows|]]];
    unfold UploadAll.get_folders_to_upload.
  - cbn [orb]. induction (fs_listdir fs to_upload_dir) as [|item items IH];
      cbn [flat_map List.filter map]; [reflexivity|].
    destruct (fs_isdir fs (path_join to_upload_dir item)); cbn [app map pe_name];
      now rewrite IH.
  - cbn [orb]. induction (fs_listdir fs to_upload_dir) as [|item items IH];
      cbn [flat_map]; [constructor|].
    destruct (fs_isdir fs (path_join to_upload_dir item)); cbn [orb app]; [|exact IH].
    destruct (negb _); cbn [app]; [now apply sublist_skip|now apply sublist_cons].
  - intros force e Hin. apply in_flat_map in Hin as [item [_ Hin]].
    destruct (fs_isdir fs (path_join to_upload_dir item)) eqn:Hd; [|destruct Hin].
    destruct (force || _); [|destruct Hin]. destruct Hin as [<-|[]].
    cbn [pe_path pe_name pe_size]. auto.
Qed.

End Run.

End PendingFacts.

Module ManageFacts.
Import DriveApi Ledger LedgerSpec FolderUploader UploadAll ManageUploads Samples LedgerFacts
       PendingFacts.

Lemma hash_in_elem (h : string) (df : list row) :
  hash_in h df = true <-> h ∈ map folder_hash df.
Proof. rewrite hash_in_iff. symmetry. apply list_elem_of_In. Qed.

Lemma drop_row_split (i : nat) (df : list row) (r : row) :
  df !! i = Some r -> df = take i df ++ r :: drop (S i) df.
Proof. intros H. now rewrite <- (take_drop_middle df i r H) at 1. Qed.

(** X14. [delete_upload(index)] changes the ledger file for an index
    between 1 and the number of rows only; an index out of that range, a
    missing file, a file that cannot be read and a table without rows all
    leave the file as it is. For an index in range it prints the name of
    the folder of that row and leaves the table without the row at that
    position, the other rows kept in their order. *)
Theorem delete_upload_bounds (c : csv) (index : Z) :
  match c with
  | Table rows =>
      if ((1 <=? index) && (index <=? Z.of_nat (length rows)))%Z
      then exists before r after,
          rows = before ++ r :: after
          /\ Z.of_nat (length before) = (index - 1)%Z
          /\ delete_upload c index = (Table (before ++ after), [MsgDeleted (folder_name r)])
      else fst (delete_upload c index) = c
  | Missing | Unreadable => fst (delete_upload c index) = c
  end.
Proof.
  destruct c as [| |rows]; [reflexivity|reflexivity|].
  unfold delete_upload. cbn [csv_exists negb read_csv].
  destruct (1 <=? index)%Z eqn:H1; cbn [andb].
  - destruct (index <=? Z.of_nat (length rows))%Z eqn:H2.
    + apply Z.leb_le in H1, H2.
      destruct rows as [|r0 rows']; [cbn in H2; lia|].
      replace (index <? 1)%Z with false by (symmetry; apply Z.ltb_ge; lia).
      replace (Z.of_nat (length (r0 :: rows')) <? index)%Z with false
        by (symmetry; apply Z.ltb_ge; lia).
      cbn [orb]. set (i := Z.to_nat (index - 1)).
      destruct (lookup_lt_is_Some_2 (r0 :: rows') i) as [r Hr]; [subst i; lia|].
      rewrite Hr. exists (take i (r0 :: rows')), r, (drop (S i) (r0 :: rows')).
      split; [now apply drop_row_split|]. split; [|reflexivity].
      rewrite length_take. apply lookup_lt_Some in Hr. subst i. lia.
    + destruct rows as [|r0 rows']; [reflexivity|].
      apply Z.leb_gt in H2.
      replace (Z.of_nat (length (r0 :: rows')) <? index)%Z with true
        by (symmetry; apply Z.ltb_lt; lia).
      now rewrite orb_true_r.
  - destruct rows as [|r0 rows']; [reflexivity|].
    apply Z.leb_gt in H1.
    now replace (index <? 1)%Z with true by (symmetry; apply Z.ltb_lt; lia).
Qed.

Section Fingerprint.

Variable float : Type.
Variable str_float : float -> string.
Variable md5_hexdigest : string -> string.
Variable abspath : string -> string.

Local Abbreviation generate_folder_hash := (generate_folder_hash float str_float md5_hexdigest abspath).
Local Abbreviation is_folder_uploaded := (is_folder_uploaded float str_float md5_hexdigest abspath).
Local Abbreviation get_folders_to_upload := (get_folders_to_upload float str_float md5_hexdigest abspath).

(** X15. Deleting the entry of a folder makes the folder pending again,
    and touches no other folder. In a ledger with one row per fingerprint,
    let the row at position [index] be that of a folder (its fingerprint
    is the folder's): before [delete_upload(index)] the folder counts as
    uploaded, after it it does not; the ledger still has one row per
    fingerprint; and a folder with another fingerprint counts as uploaded
    after the call exactly when it did before. *)
Theorem delete_upload_forgets (fs : local_fs float) (rows : list row) (index : Z) (r : row)
    (folder_path : string) :
  (1 <= index)%Z ->
  rows !! Z.to_nat (index - 1) = Some r ->
  NoDup (map folder_hash rows) ->
  generate_folder_hash fs folder_path = Ret (folder_hash r) ->
  let c' := fst (delete_upload (Table rows) index) in
  is_folder_uploaded fs (Table rows) folder_path = (Ret true, [])
  /\ is_folder_uploaded fs c' folder_path = (Ret false, [])
  /\ one_row_per_fingerprint c'
  /\ (forall other h,
        generate_folder_hash fs other = Ret h -> h <> folder_hash r ->
        is_folder_uploaded fs c' other = is_folder_uploaded fs (Table rows) other).
Proof.
  intros H1 Hr Hnd Hh c'.
  assert (Hc : c' = Table (drop_row (Z.to_nat (index - 1)) rows)).
  { subst c'. unfold delete_upload. cbn [csv_exists negb read_csv].
    pose proof (lookup_lt_Some _ _ _ Hr) as Hlt.
    destruct rows as [|r0 rows']; [discriminate|].
    replace (index <? 1)%Z with false by (symmetry; apply Z.ltb_ge; lia).
    replace (Z.of_nat (length (r0 :: rows')) <? index)%Z with false
      by (symmetry; apply Z.ltb_ge; lia).
    cbn [orb]. now rewrite Hr. }
  rewrite Hc. clear c' Hc. set (i := Z.to_nat (index - 1)) in *.
  pose proof (drop_row_split i rows r Hr) as Hsplit.
  assert (Hnd' : NoDup (map folder_hash (take i rows) ++ folder_hash r
                          :: map folder_hash (drop (S i) rows))).
  { rewrite Hsplit in Hnd. now rewrite map_app in Hnd. }
  apply NoDup_app in Hnd' as [Hn1 [Hn2 Hn3]]. apply NoDup_cons in Hn3 as [Hn3 Hn4].
  assert (Hgone : hash_in (folder_hash r) (drop_row i rows) = false).
  { destruct (hash_in _ _) eqn:Hin; [|reflexivity]. exfalso.
    apply hash_in_elem in Hin. unfold drop_row in Hin. rewrite map_app in Hin.
    apply elem_of_app in Hin as [Hin|Hin]; [|now apply Hn3].
    apply (Hn2 _ Hin). now left. }
  assert (Hother : forall h, h <> folder_hash r ->
                             hash_in h (drop_row i rows) = hash_in h rows).
  { intros h Hne. rewrite Hsplit at 2. unfold drop_row.
    rewrite !SkipFacts.hash_in_app. cbn [hash_in existsb].
    replace (String.eqb (folder_hash r) h) with false; [reflexivity|].
    symmetry. apply String.eqb_neq. congruence. }
  unfold Ledger.is_folder_uploaded, is_folder_uploaded_try. cbn [csv_exists negb read_csv].
  rewrite Hh, Hgone. split; [|split; [reflexivity|split]].
  - replace (hash_in (folder_hash r) rows) with true; [reflexivity|].
    symmetry. apply hash_in_iff. apply in_map. rewrite Hsplit.
    apply in_or_app. right. now left.
  - cbn. unfold drop_row. rewrite map_app. apply NoDup_app. split; [exact Hn1|].
    split; [|exact Hn4]. intros x Hx Hx'. apply (Hn2 x Hx). now right.
  - intros other h Ho Hne. now rewrite Ho, Hother.
Qed.

(** X16. [clear_uploads()] empties the ledger when the table has rows and
    the answer at the prompt is [y] or [Y], and leaves the file as it is
    in every other case. Once it is emptied, no folder counts as uploaded:
    a run without [force] takes up the folders a run with [force] does. *)
Theorem clear_uploads_forgets_all (fs : local_fs float) (c : csv) (confirm to_upload_dir : string) :
  let c' := fst (clear_uploads c confirm) in
  (match c with
   | Table (_ :: _) => if confirmed confirm then c' = Table [] else c' = c
   | _ => c' = c
   end)
  /\ (c' <> c ->
      (confirm = "y" \/ confirm = "Y")
      /\ (forall folder_path, fst (is_folder_uploaded fs c' folder_path) = Ret false)
      /\ get_folders_to_upload fs c' to_upload_dir false
         = get_folders_to_upload fs c' to_upload_dir true).
Proof.
  intros c'. subst c'. unfold clear_uploads.
  destruct c as [| |[|r rows]]; cbn [csv_exists negb read_csv fst];
    try (split; [reflexivity|intros H; now destruct H]).
  destruct (confirmed confirm) eqn:Hc; cbn [negb fst];
    [|split; [reflexivity|intros H; now destruct H]].
  split; [reflexivity|]. intros _. split; [|split].
  - unfold confirmed in Hc. apply orb_true_iff in Hc as [Hc|Hc];
      apply String.eqb_eq in Hc; auto.
  - intros p. apply is_folder_uploaded_empty. auto.
  - apply get_folders_to_upload_no_rows. auto.
Qed.

End Fingerprint.

(** The only row of the ledger is that of [/data/to_upload/Project]:
    deleting it makes the folder pending again. *)
Lemma delete_upload_forgets_witness :
  let fs := sample_fs "1700000000.5" in
  let rows := [mk_row "/data/to_upload/Project" "Project"
                      "/data/to_upload/Project_1700000000.5" "id0" "2024-01-01 10:00:00"] in
  is_folder_uploaded string same same same fs (Table rows) "/data/to_upload/Project"
  = (Ret true, [])
  /\ is_folder_uploaded string same same same fs (fst (delete_upload (Table rows) 1))
                        "/data/to_upload/Project"
     = (Ret false, []).
Proof.
  intros fs rows.
  destruct (delete_upload_forgets string same same same fs rows 1
              (mk_row "/data/to_upload/Project" "Project"
                      "/data/to_upload/Project_1700000000.5" "id0" "2024-01-01 10:00:00")
              "/data/to_upload/Project")
    as [H1 [H2 _]]; [lia|reflexivity|apply NoDup_singleton|reflexivity|].
  split; [exact H1|exact H2].
Defined.

End ManageFacts.

Module MirrorFacts.
Import DriveApi FolderUploader UploadAll Spec Coverage PyFacts RemoteFacts UploadFileFacts
       FallbackFacts ScanFacts OrderFacts LoopFacts HealthyFacts ScanCountFacts
       BatchCreateFacts.
















End MirrorFacts.

Module RunFacts.
Import DriveApi Ledger LedgerSpec FolderUploader UploadAll Spec Coverage Samples LedgerFacts
       SkipFacts UploadFileFacts GrowthFacts ScanCountFacts.

Lemma insert_by_size_perm (x : pending) (l : list pending) :
  Permutation (insert_by size_le x l) (x :: l).
Proof.
  induction l as [|y l IH]; cbn [insert_by]; [reflexivity|].
  destruct (size_le x y); [reflexivity|].
  etransitivity; [apply perm_skip, IH|apply perm_swap].
Qed.

Lemma insert_by_size_sorted (x : pending) (l : list pending) :
  StronglySorted (fun a b => (pe_size a <= pe_size b)%Z) l ->
  StronglySorted (fun a b => (pe_size a <= pe_size b)%Z) (insert_by size_le x l).
Proof.
  induction 1 as [|y l Hl IH Hy]; cbn [insert_by]; [repeat constructor|].
  unfold size_le at 1. destruct (pe_size x <=? pe_size y)%Z eqn:Hle.
  - apply Z.leb_le in Hle. constructor; [now constructor|].
    constructor; [exact Hle|]. eapply Forall_impl; [exact Hy|]. cbn. intros. lia.
  - apply Z.leb_gt in Hle. constructor; [exact IH|].
    apply List.Forall_forall. intros z Hz. apply insert_by_In in Hz as [->|Hz]; [lia|].
    rewrite List.Forall_forall in Hy. now apply Hy.
Qed.

Section Run.

Variable float : Type.
Variable str_float : float -> string.
Variable md5_hexdigest : string -> string.
Variable abspath : string -> string.
Variable executor : Z -> (file_item -> M upload_result) -> list file_item -> M (list upload_result).

Local Abbreviation recorded := (recorded float str_float md5_hexdigest abspath).
Local Abbreviation ledger_evolves := (ledger_evolves float str_float md5_hexdigest abspath).
Local Abbreviation get_folders_to_upload := (get_folders_to_upload float str_float md5_hexdigest abspath).
Local Abbreviation upload_all_folders := (upload_all_folders float str_float md5_hexdigest abspath executor).
Local Abbreviation upload_each := (upload_each float str_float md5_hexdigest abspath executor).

Lemma upload_all_folders_eq (fs : local_fs float) (clock : string -> string)
    (to_upload_dir : string) (parent_id : option string) (force : bool) (workers : Z)
    (c : csv) (s : st) :
  upload_all_folders fs clock to_upload_dir parent_id force workers c s
  = upload_each fs clock parent_id workers
      (sort_by size_le (get_folders_to_upload fs c to_upload_dir force)) c s.
Proof.
  unfold UploadAll.upload_all_folders.
  now destruct (get_folders_to_upload fs c to_upload_dir force).
Qed.

(** X18. The folders of a run are uploaded smallest first: the run is the
    upload loop over the folders [get_folders_to_upload] lists, each taken
    once, in ascending order of size. *)
Theorem upload_all_folders_smallest_first (fs : local_fs float) (clock : string -> string)
    (to_upload_dir : string) (parent_id : option string) (force : bool) (workers : Z)
    (c : csv) (s : st) :
  exists folders,
    upload_all_folders fs clock to_upload_dir parent_id force workers c s
    = upload_each fs clock parent_id workers folders c s
    /\ Permutation folders (get_folders_to_upload fs c to_upload_dir force)
    /\ StronglySorted (fun a b => (pe_size a <= pe_size b)%Z) folders.
Proof.
  exists (sort_by size_le (get_folders_to_upload fs c to_upload_dir force)).
  split; [apply upload_all_folders_eq|].
  induction (get_folders_to_upload fs c to_upload_dir force) as [|x l [IHp IHs]];
    cbn [sort_by fold_right]; [split; constructor|]. fold (sort_by size_le l).
  split; [|now apply insert_by_size_sorted].
  etransitivity; [apply insert_by_size_perm|now apply perm_skip].
Qed.

(** A folder that holds an entry that cannot be stat'ed makes
    [upload_folder] raise. *)
Lemma upload_folder_unreadable (folder_name : string) (tree : list node)
    (parent_id : option string) (workers : Z) (s : st) :
  existsb unreadable tree = true ->
  exists e,
    upload_folder executor folder_name tree parent_id workers s
    = (Raise e, snd (find_or_create_folder folder_name parent_id s))
    /\ (forall id, fst (find_or_create_folder folder_name parent_id s) = Ret id -> e = OSError).
Proof.
  intros Hun. pose proof (scanned_entries [] tree) as Hscan. unfold scanned in Hscan.
  rewrite Hun in Hscan.
  change ((([] : path), tree) :: flat_map (walk_node []) tree) with (os_walk tree) in Hscan.
  unfold upload_folder, bind.
  destruct (find_or_create_folder folder_name parent_id s) as [[id|e] s1]; cbn [fst snd].
  - rewrite Hscan; [|apply List.Forall_forall; intros n _; apply scanned_node].
    exists OSError. split; [reflexivity|auto].
  - exists e. split; [reflexivity|]. intros id [=].
Qed.

Lemma upload_each_unreadable (fs : local_fs float) (clock : string -> string)
    (parent_id : option string) (workers : Z) (folders : list pending) (folder : pending) :
  In folder folders ->
  existsb unreadable (fs_tree fs (pe_path folder)) = true ->
  forall c s, exists e c' s1,
    upload_each fs clock parent_id workers folders c s = (Exit1 e, c', s1).
Proof.
  intros Hin Hun. induction folders as [|x rest IH]; [destruct Hin|].
  intros c s. cbn [UploadAll.upload_each].
  destruct (upload_folder executor _ _ _ _ s) as [[id|e] s1] eqn:Hup; [|eauto].
  destruct Hin as [->|Hin]; [|now apply IH].
  destruct (upload_folder_unreadable (str_basename (pe_path folder))
              (fs_tree fs (pe_path folder)) parent_id workers s Hun) as [e [He _]].
  rewrite He in Hup. discriminate.
Qed.

(** X19. One entry that cannot be stat'ed (a symbolic link whose target is
    gone) brings the whole run down. [get_folder_size] skips such an
    entry, so the folder that holds it is listed with a size like any
    other; the upload of the folder then raises out of the scan, right
    after the remote root folder has been looked up or created and before
    any file is sent, and a run that has taken up the folder ends with
    exit status 1, whatever the other folders are. *)
Theorem unreadable_entry_ends_run (fs : local_fs float) (clock : string -> string)
    (to_upload_dir : string) (parent_id : option string) (force : bool) (workers : Z)
    (c : csv) (s : st) (folder : pending) :
  In folder (get_folders_to_upload fs c to_upload_dir force) ->
  existsb unreadable (fs_tree fs (pe_path folder)) = true ->
  pe_size folder = get_folder_size (fs_tree fs (pe_path folder))
  /\ (exists e,
        upload_folder executor (str_basename (pe_path folder)) (fs_tree fs (pe_path folder))
                      parent_id workers s
        = (Raise e, snd (find_or_create_folder (str_basename (pe_path folder)) parent_id s))
        /\ (forall id,
              fst (find_or_create_folder (str_basename (pe_path folder)) parent_id s) = Ret id ->
              e = OSError))
  /\ exists e c' s1,
      upload_all_folders fs clock to_upload_dir parent_id force workers c s
      = (Exit1 e, c', s1).
Proof.
  intros Hin Hun. split; [|split].
  - unfold UploadAll.get_folders_to_upload in Hin. apply in_flat_map in Hin as [item [_ Hin]].
    destruct (fs_isdir fs _); [|destruct Hin]. destruct (force || _); [|destruct Hin].
    now destruct Hin as [<-|[]].
  - now apply upload_folder_unreadable.
  - rewrite upload_all_folders_eq. apply (upload_each_unreadable _ _ _ _ _ folder); [|exact Hun].
    now apply sort_by_In.
Qed.

Lemma evolves_trans (c1 c2 c3 : csv) :
  ledger_evolves c1 c2 -> ledger_evolves c2 c3 -> ledger_evolves c1 c3.
Proof. intros H12. induction 1; [exact H12|]. now constructor. Qed.

Lemma evolves_unique (c c' : csv) :
  ledger_evolves c c' -> one_row_per_fingerprint c -> one_row_per_fingerprint c'.
Proof.
  induction 1; intros Hu; [exact Hu|]. apply record_preserves_unique. auto.
Qed.

(** The pool does nothing to the store but what its workers do. *)
Hypothesis executor_grows :
  forall max_workers worker items,
    (forall item, grows (worker item)) -> grows (executor max_workers worker items).

Lemma upload_each_keeps (fs : local_fs float) (clock : string -> string)
    (parent_id : option string) (workers : Z) (folders : list pending) :
  forall c s x c' s1,
    upload_each fs clock parent_id workers folders c s = (x, c', s1) ->
    ledger_evolves c c' /\ exists added, files s1 = files s ++ added.
Proof.
  induction folders as [|folder rest IH]; intros c s x c' s1; cbn [UploadAll.upload_each].
  - intros [= <- <- <-]. split; [constructor|]. exists []. now rewrite app_nil_r.
  - destruct (upload_folder executor _ _ _ _ s) as [[id|e] s0] eqn:Hup;
      destruct (grows_upload_folder executor executor_grows _ _ _ _ _ _ _ Hup) as [a0 Ha0].
    + intros Hrest. apply IH in Hrest as [Hev [a1 Ha1]]. split.
      * eapply evolves_trans; [|exact Hev]. apply evolves_record. constructor.
      * exists (a0 ++ a1). now rewrite Ha1, Ha0, app_assoc.
    + intros [= <- <- <-]. split; [constructor|eauto].
Qed.

(** X20. What a run leaves behind, however it ends. The remote store is
    the store before followed by the objects the run has added: nothing is
    removed, trashed, renamed or moved. The ledger changes through calls of
    [record_folder_upload] only: a fingerprint that was recorded stays
    recorded, and a ledger with one row per fingerprint still has one row
    per fingerprint. The pool is taken to do nothing to the store but what
    its workers do. *)
Theorem upload_all_folders_keeps (fs : local_fs float) (clock : string -> string)
    (to_upload_dir : string) (parent_id : option string) (force : bool) (workers : Z)
    (c c' : csv) (s s1 : st) (x : exit) :
  upload_all_folders fs clock to_upload_dir parent_id force workers c s = (x, c', s1) ->
  (exists added, files s1 = files s ++ added)
  /\ (forall h, holds h c -> holds h c')
  /\ (one_row_per_fingerprint c -> one_row_per_fingerprint c').
Proof.
  rewrite upload_all_folders_eq. intros Hrun. apply upload_each_keeps in Hrun as [Hev Hadd].
  split; [exact Hadd|]. split.
  - intros h. now apply (evolves_holds float str_float md5_hexdigest abspath).
  - now apply evolves_unique.
Qed.

End Run.

(** The upload directory holds one folder, with a link whose target is
    gone: the run ends with exit status 1. *)
Lemma unreadable_entry_ends_run_witness :
  exists e c' s1,
    upload_all_folders string same same same sequential_executor
      (mk_local_fs string (fun _ => true) (fun _ => true) (fun _ => "0")
                   (fun _ => ["d"]) (fun _ => [File "link" None]))
      (fun _ => "now") "/up" None false 5 Missing empty_store
    = (Exit1 e, c', s1).
Proof.
  destruct (unreadable_entry_ends_run string same same same sequential_executor
              (mk_local_fs string (fun _ => true) (fun _ => true) (fun _ => "0")
                           (fun _ => ["d"]) (fun _ => [File "link" None]))
              (fun _ => "now") "/up" None false 5 Missing empty_store
              (mk_pending "/up/d" "d" 0))
    as [_ [_ H]]; [vm_compute; left; reflexivity|reflexivity|exact H].
Defined.

(** The first run over [/data/to_upload/Project], on the empty store. *)
Lemma upload_all_folders_keeps_witness :
  exists added,
    files (snd (upload_all_folders string same same same sequential_executor
                  (sample_fs "1700000000.5") (fun _ => "2024-01-01 10:00:00")
                  "/data/to_upload" None false 5 Missing empty_store))
    = files empty_store ++ added.
Proof.
  destruct (upload_all_folders_keeps string same same same sequential_executor
              grows_sequential_executor
              (sample_fs "1700000000.5") (fun _ => "2024-01-01 10:00:00")
              "/data/to_upload" None false 5 Missing
              (snd (fst (upload_all_folders string same same same sequential_executor
                           (sample_fs "1700000000.5") (fun _ => "2024-01-01 10:00:00")
                           "/data/to_upload" None false 5 Missing empty_store)))
              empty_store
              (snd (upload_all_folders string same same same sequential_executor
                      (sample_fs "1700000000.5") (fun _ => "2024-01-01 10:00:00")
                      "/data/to_upload" None false 5 Missing empty_store))
              (fst (fst (upload_all_folders string same same same sequential_executor
                           (sample_fs "1700000000.5") (fun _ => "2024-01-01 10:00:00")
                           "/data/to_upload" None false 5 Missing empty_store))))
    as [H _]; [vm_compute; reflexivity|exact H].
Defined.

End RunFacts.

Module RetryOnceFacts.
Import DriveApi FolderUploader Spec Coverage Samples PyFacts RemoteFacts UploadFileFacts
       UploadFileStore FallbackFacts.

Lemma retries_app (evs1 evs2 : list event) :
  retries (evs1 ++ evs2) = retries evs1 ++ retries evs2.
Proof.
  induction evs1 as [|e evs1 IH]; [reflexivity|].
  destruct e as [q r|md r|n|m]; cbn [app retries]; try exact IH.
  destruct m; cbn [app]; try exact IH; now rewrite IH.
Qed.

Lemma retry_machine_retries (md : metadata) (q : query) (remaining retry_count : nat)
    (evs : list event) (r : res string) :
  retry_machine md q remaining retry_count evs r -> retries evs = [].
Proof. induction 1; cbn [retries]; auto. Qed.

(** [upload_file] announces no retry of a file and reports no outcome. *)
Lemma upload_file_quiet (file : local_file) (parent_id : option string)
    (s s1 : st) (r : res string) :
  upload_file file parent_id s = (r, s1) ->
  exists evs, trace s1 = trace s ++ evs /\ outcomes evs = [] /\ retries evs = [].
Proof.
  rewrite upload_file_eq. destruct (lf_size file) as [size|].
  2:{ intros [= <- <-]. exists []. now rewrite app_nil_r. }
  cbn zeta. destruct (list_result _ s) as [items|e] eqn:Hl.
  - destruct (truthy _).
    + intros [= <- <-]. eexists. unfold with_events. cbn [trace].
      rewrite trace_after_list, <- app_assoc. repeat split; reflexivity.
    + intros H. apply upload_attempts_machine in H as [evs [Ht Hm]].
      eexists. rewrite Ht, trace_after_list, <- app_assoc. split; [reflexivity|].
      cbn [app outcomes retries].
      split; [exact (retry_machine_outcomes _ _ _ _ _ _ Hm)
             |exact (retry_machine_retries _ _ _ _ _ _ Hm)].
  - intros [= <- <-]. eexists. rewrite trace_after_list. repeat split; reflexivity.
Qed.

(** The synchronous retry of one failed file: it returns, and announces
    the retry exactly when the file's directory has an id. *)
Lemma retry_failed_once (folder_ids : gmap path string) (rel_path : path)
    (item : file_item) (s : st) :
  exists s1 evs,
    retry_failed folder_ids rel_path item s = (Ret tt, s1)
    /\ trace s1 = trace s ++ evs
    /\ outcomes evs = []
    /\ retries evs
       = if truthy (folder_ids !! dirname (fi_rel_path item)) then [rel_path] else [].
Proof.
  unfold retry_failed, try_except. cbn zeta.
  destruct (truthy (folder_ids !! dirname (fi_rel_path item))).
  - unfold bind at 1, print. rewrite emit_eq. unfold bind.
    destruct (upload_file _ _ _) as [[id|e] s1] eqn:Hup;
      apply upload_file_quiet in Hup as [evs [Ht [Ho Hr]]]; rewrite emit_eq.
    + exists (with_events [EvPrint (MsgRetryOk rel_path)] s1),
             (EvPrint (MsgRetrying rel_path) :: evs ++ [EvPrint (MsgRetryOk rel_path)]).
      split; [reflexivity|]. unfold with_events in *. cbn [trace] in *.
      split; [rewrite Ht, <- !app_assoc; reflexivity|].
      cbn [outcomes retries]. rewrite outcomes_app, retries_app, Ho, Hr. split; reflexivity.
    + exists (with_events [EvPrint (MsgRetryFailed rel_path e)] s1),
             (EvPrint (MsgRetrying rel_path) :: evs ++ [EvPrint (MsgRetryFailed rel_path e)]).
      split; [reflexivity|]. unfold with_events in *. cbn [trace] in *.
      split; [rewrite Ht, <- !app_assoc; reflexivity|].
      cbn [outcomes retries]. rewrite outcomes_app, retries_app, Ho, Hr. split; reflexivity.
  - exists s, []. unfold ret. rewrite app_nil_r. auto.
Qed.

Lemma process_results_retries (folder_ids : gmap path string)
    (results : list (path * upload_result)) :
  forall s, exists s1 evs,
    for_each results
      (fun entry _ =>
         let (rel_path, result) := entry : path * upload_result in
         match result with
         | UploadOk _ _ => print (MsgUploaded rel_path)
         | UploadErr _ item =>
             print (MsgErrUploading rel_path None) ;;
             retry_failed folder_ids rel_path item
         end) tt s
    = (Ret tt, s1)
    /\ trace s1 = trace s ++ evs
    /\ outcomes evs = map fst results
    /\ retries evs = map fst (List.filter (needs_retry folder_ids) results).
Proof.
  unfold print.
  induction results as [|[rel [id item|err item]] rest IH]; intros s.
  - exists s, []. cbn. unfold ret. rewrite app_nil_r. auto.
  - cbn [for_each]. unfold bind at 1. rewrite emit_eq.
    destruct (IH (with_events [EvPrint (MsgUploaded rel)] s)) as [s1 [evs [-> [Ht [Ho Hr]]]]].
    exists s1, (EvPrint (MsgUploaded rel) :: evs). split; [reflexivity|].
    split; [rewrite Ht; unfold with_events; cbn [trace]; now rewrite <- app_assoc|].
    cbn [outcomes retries map fst List.filter needs_retry snd]. now rewrite Ho, Hr.
  - cbn [for_each]. unfold bind at 1. unfold bind at 1. rewrite emit_eq.
    destruct (retry_failed_once folder_ids rel item
                (with_events [EvPrint (MsgErrUploading rel None)] s))
      as [s1 [evs1 [-> [Ht1 [Ho1 Hr1]]]]].
    destruct (IH s1) as [s2 [evs2 [-> [Ht2 [Ho2 Hr2]]]]].
    exists s2, (EvPrint (MsgErrUploading rel None) :: evs1 ++ evs2).
    split; [reflexivity|]. split.
    { rewrite Ht2, Ht1. unfold with_events. cbn [trace]. now rewrite <- !app_assoc. }
    cbn [outcomes retries map fst List.filter needs_retry snd].
    rewrite outcomes_app, retries_app, Ho1, Ho2, Hr1, Hr2.
    split; [reflexivity|].
    now destruct (truthy (folder_ids !! dirname (fi_rel_path item))).
Qed.

Section Pool.

Variable executor : Z -> (file_item -> M upload_result) -> list file_item -> M (list upload_result).

(** X21. When the pool hands back its results for a batch, [upload_batch]
    reports one outcome per result, in the order of the results, and
    retries a file once, synchronously, exactly when the pool reported a
    failure for it and its directory has an id: a file whose directory has
    none is not tried again. Whatever the retries give, the batch returns
    the pool's results as they were: a file stored on retry still counts as
    failed there. *)
Theorem upload_batch_retries_once (folder_ids : gmap path string) (max_workers : Z)
    (batch_files : list file_item) (results pool_results : list (path * upload_result))
    (s s1 : st) :
  parallel_upload_files executor batch_files folder_ids max_workers s
  = (Ret pool_results, s1) ->
  exists s2 evs,
    upload_batch executor folder_ids max_workers batch_files results s
    = (Ret pool_results, s2)
    /\ trace s2 = trace s1 ++ evs
    /\ outcomes evs = map fst pool_results
    /\ retries evs = map fst (List.filter (needs_retry folder_ids) pool_results).
Proof.
  intros Hpool.
  destruct (process_results_retries folder_ids pool_results s1) as [s2 [evs [Hp Hrest]]].
  exists s2, evs. split; [|exact Hrest].
  unfold upload_batch, try_except. unfold bind at 1. rewrite Hpool.
  unfold bind at 1. rewrite Hp. reflexivity.
Qed.

End Pool.

(** A store that refuses the first probe: the pool reports [a.txt] as
    failed, and the file is retried once. *)
Lemma upload_batch_retries_once_witness :
  exists s2 evs,
    upload_batch sequential_executor root_only 5 [a_txt] [] refusing_store
    = (Ret [(["a.txt"], UploadErr (UploadException (HttpError 503)) a_txt)], s2)
    /\ trace s2
       = trace (snd (parallel_upload_files sequential_executor [a_txt] root_only 5
                       refusing_store)) ++ evs
    /\ outcomes evs = [["a.txt"]]
    /\ retries evs = [["a.txt"]].
Proof.
  apply (upload_batch_retries_once sequential_executor root_only 5 [a_txt] []
           [(["a.txt"], UploadErr (UploadException (HttpError 503)) a_txt)] refusing_store).
  vm_compute. reflexivity.
Defined.

End RetryOnceFacts.
